(** * Verification of [input_generator/raw_dataset.py] (mlcg-tk)

    A shallow embedding of the batching helper [get_strides], of the
    [CGDataBatch] constructor and of the [SampleCollection] pipeline
    (mapping, terminal embeddings, projection, persistence, bond repair),
    followed by the properties stated about them.

    Conventions.
    - Python [int] is [Z]; lengths and positions in a table are [nat].
    - A numpy/torch array is the list of its entries along the first axis.
    - An exception is a value [Raise e]; a method of [SampleCollection] is a
      computation that threads the object, may raise, and logs what it
      prints, warns about and writes to disk.
    - Per-frame weights are the entries of an int64 tensor, summed with
      wrap-around, or of a floating-point tensor; floating-point values are
      rationals, and only the non-finite results of a division by zero are
      kept from IEEE arithmetic (no rounding, no signed zero).
    - Integers stored in a [float64] array are rounded to 53 significant
      bits.
    - Creating a directory and opening a file for writing fail when the
      file system says so. *)

From Stdlib Require Import ZArith QArith Lia List.
From stdpp Require Import base option list gmap strings.

Open Scope Z_scope.

(** ** Exceptions and results *)

Inductive exn : Set :=
| AssertionError
| ValueError
| IndexError
| AttributeError
| NameError
| KeyError
| OSError.

Inductive result (A : Type) : Type :=
| Ok (a : A)
| Raise (e : exn).
Arguments Ok {A} a.
Arguments Raise {A} e.

Definition rbind {A B} (r : result A) (k : A -> result B) : result B :=
  match r with
  | Ok a => k a
  | Raise e => Raise e
  end.

(** ** [get_strides] *)

Module Strides.

(** [np.divmod] on integers: floor division, and [(0, 0)] (with a runtime
    warning) when the divisor is zero. *)
Definition np_divmod (n b : Z) : Z * Z :=
  if b =? 0 then (0, 0) else (n / b, n mod b).

(** An integer stored in a [float64] array, as [batches[1:] = batch_size]
    does: exact up to 2^53 in absolute value, and beyond rounded to 53
    significant bits, a tie going to the even neighbour. *)
Definition to_float64 (x : Z) : Z :=
  let a := Z.abs x in
  if a <=? 2 ^ 53 then x
  else
    let e := Z.log2 a - 52 in
    let q := Z.shiftr a e in
    let r := a - Z.shiftl q e in
    let half := Z.shiftl 1 (e - 1) in
    let q' := if (half <? r) || ((r =? half) && Z.odd q) then q + 1 else q in
    Z.sgn x * Z.shiftl q' e.

(** [np.zeros(k)]: a negative dimension is a [ValueError].  The array is
    of type [float64]; its entries are integers throughout. *)
Definition np_zeros (k : Z) : result (list Z) :=
  if k <? 0 then Raise ValueError else Ok (repeat 0 (Z.to_nat k)).

(** [a[1:] = v] *)
Definition set_from_1 (v : Z) (a : list Z) : list Z :=
  match a with
  | [] => []
  | x :: t => x :: map (fun _ => v) t
  end.

(** [a[1:-1] = v] *)
Definition set_1_to_last (v : Z) (a : list Z) : list Z :=
  match a with
  | [] => []
  | x :: t =>
      match t with
      | [] => [x]
      | _ => x :: map (fun _ => v) (removelast t) ++ [List.last t 0]
      end
  end.

(** [a[-1] = v]: an [IndexError] on an empty array. *)
Definition set_last (v : Z) (a : list Z) : result (list Z) :=
  match a with
  | [] => Raise IndexError
  | _ => Ok (removelast a ++ [v])
  end.

(** [np.cumsum(a, dtype=int)]: the entries, which are integers, are
    converted to [int] and added up. *)
Fixpoint cumsum_from (acc : Z) (a : list Z) : list Z :=
  match a with
  | [] => []
  | x :: t => (acc + x) :: cumsum_from (acc + x) t
  end.

Definition cumsum (a : list Z) : list Z := cumsum_from 0 a.

(** [np.vstack([s[:-1], s[1:]]).T]: the rows [(s[i], s[i+1])]. *)
Definition windows (s : list Z) : list (Z * Z) :=
  combine (removelast s) (tl s).

Definition get_strides (n_structure batch_size : Z) : result (list (Z * Z)) :=
  let '(n_elem, remain) := np_divmod n_structure batch_size in
  if negb (-1 <? remain) then Raise AssertionError
  else
    rbind
      (if remain =? 0 then
         rbind (np_zeros (n_elem + 1)) (fun batches =>
         Ok (set_from_1 (to_float64 batch_size) batches))
       else
         rbind (np_zeros (n_elem + 2)) (fun batches =>
         set_last (to_float64 remain)
           (set_1_to_last (to_float64 batch_size) batches)))
      (fun batches => Ok (windows (cumsum batches))).

(** *** The expected windows

    Used to state what [get_strides] returns. *)

(** The window with number [i] for [n] frames in batches of [b]. *)
Definition window (n b : Z) (i : nat) : Z * Z :=
  (Z.of_nat i * b, Z.min (Z.of_nat i * b + b) n).

Definition n_windows (n b : Z) : nat := Z.to_nat ((n + b - 1) / b).

End Strides.

(** ** [CGDataBatch] *)

Module Batch.

(** A value of a weights tensor: an entry [Int z] of an int64 tensor, or
    an entry of a floating-point tensor, which is a finite number or one of
    the non-finite results of a division.  A tensor holds entries of one
    kind. *)
Inductive tval : Type :=
| Fin (q : Q)
| PInf
| NInf
| NaN
| Int (z : Z).

(** int64 arithmetic wraps around. *)
Definition wrap64 (z : Z) : Z := (z + 2 ^ 63) mod 2 ^ 64 - 2 ^ 63.

(** The conversion of an integer entry to floating point. *)
Definition as_float (x : tval) : tval :=
  match x with
  | Int z => Fin (inject_Z z)
  | _ => x
  end.

(** Addition of floating-point values. *)
Definition fadd (x y : tval) : tval :=
  match x, y with
  | Fin a, Fin b => Fin (a + b)
  | PInf, NInf | NInf, PInf => NaN
  | PInf, (Fin _ | PInf) | Fin _, PInf => PInf
  | NInf, (Fin _ | NInf) | Fin _, NInf => NInf
  | _, _ => NaN
  end.

(** Addition of two entries: in int64 for two integers, in floating point
    otherwise. *)
Definition tadd (x y : tval) : tval :=
  match x, y with
  | Int a, Int b => Int (wrap64 (a + b))
  | _, _ => fadd (as_float x) (as_float y)
  end.

(** [torch.sum]: an int64 tensor is summed in int64, a floating-point
    tensor in floating point. *)
Definition tsum (l : list tval) : tval :=
  match l with
  | Int _ :: _ => fold_left tadd l (Int 0)
  | _ => fold_left tadd l (Fin 0)
  end.

Definition Qis_zero (a : Q) : bool := (Qnum a =? 0)%Z.
Definition Qis_pos (a : Q) : bool := (0 <? Qnum a)%Z.

(** Division of floating-point values. *)
Definition fdiv (x y : tval) : tval :=
  match x, y with
  | Fin a, Fin b =>
      if Qis_zero b then
        if Qis_zero a then NaN else if Qis_pos a then PInf else NInf
      else Fin (a / b)
  | Fin _, (PInf | NInf) => Fin 0
  | PInf, Fin b => if Qis_pos b || Qis_zero b then PInf else NInf
  | NInf, Fin b => if Qis_pos b || Qis_zero b then NInf else PInf
  | _, _ => NaN
  end.

(** [x / y] on tensors is true division: integers are converted to
    floating point first. *)
Definition tdiv (x y : tval) : tval := fdiv (as_float x) (as_float y).

(** [a[::k]] for a positive step [k]: positions 0, k, 2k, ... *)
Fixpoint strided_aux {A} (k i : nat) (a : list A) : list A :=
  match a with
  | [] => []
  | x :: t =>
      match i with
      | O => x :: strided_aux k (k - 1) t
      | S j => strided_aux k j t
      end
  end.

(** [torch.from_numpy(a[::stride])]: a zero step is refused by the slice
    with a [ValueError]; a negative step gives a view with a negative
    stride, which [from_numpy] refuses with a [ValueError], unless the
    array has no entry along its first axis: the empty view has a positive
    stride and is accepted. *)
Definition strided {A} (stride : Z) (a : list A) : result (list A) :=
  if stride =? 0 then Raise ValueError
  else if stride <? 0 then
    match a with
    | [] => Ok []
    | _ => Raise ValueError
    end
  else Ok (strided_aux (Z.to_nat stride) 0 a).

Section CGDataBatch.
(** One frame of coordinates or forces, the embeddings and the prior
    neighbour lists are carried around and never inspected. *)
Context {frame embeds nls : Type}.

Record CGDataBatch : Type := mkCGDataBatch {
  batch_size : Z;
  stride : Z;
  concat_forces : bool;
  cg_coords : list frame;
  cg_forces : list frame;
  cg_embeds : embeds;
  cg_prior_nls : nls;
  weights : option (list tval);
  n_structure : Z;
  strides : list (Z * Z);
  n_elem : nat
}.

(** [CGDataBatch.__init__] *)
Definition init (coords forces : list frame) (emb : embeds) (nl : nls)
    (bsize str : Z) (w : option (list tval)) (concat : bool)
    : result CGDataBatch :=
  rbind (strided str coords) (fun cs =>
  rbind (strided str forces) (fun fs =>
  rbind (match w with
         | Some wa =>
             rbind (strided str wa) (fun ws =>
             Ok (Some (if negb (str =? 1)
                       then map (fun x => tdiv x (tsum ws)) ws
                       else ws)))
         | None => Ok None
         end) (fun ws =>
  let n := Z.of_nat (length cs) in
  let bsize' := if n <? bsize then n else bsize in
  rbind (Strides.get_strides n bsize') (fun st =>
  Ok {| batch_size := bsize'; stride := str; concat_forces := concat;
        cg_coords := cs; cg_forces := fs; cg_embeds := emb;
        cg_prior_nls := nl; weights := ws; n_structure := n;
        strides := st; n_elem := length st |})))).

(** [CGDataBatch.__len__] *)
Definition len (b : CGDataBatch) : nat := n_elem b.

End CGDataBatch.

(** The frames that a positive stride keeps, and the weights the
    constructor then stores: used to state what [init] returns. *)
Definition kept {A} (str : Z) (a : list A) : list A :=
  strided_aux (Z.to_nat str) 0 a.

Definition stored_weights (str : Z) (w : option (list tval)) : option (list tval) :=
  match w with
  | Some wa =>
      Some (if negb (str =? 1)
            then map (fun x => tdiv x (tsum (kept str wa))) (kept str wa)
            else kept str wa)
  | None => None
  end.

End Batch.

(** ** Tables, arrays and topologies *)

(** One record of a topology table: the columns of mdtraj's
    [Topology.to_dataframe] that the module reads, and the two columns
    ([mapped], [type]) that [map_cg_topology] fills in.  The table's index is
    the position in the list; [chainID] is mdtraj's chain index, counted
    from 0. *)
Record atom_row : Type := mkRow {
  serial : Z;
  name : string;
  resSeq : Z;
  resName : string;
  chainID : nat;
  mapped : bool;
  type : Z
}.

Definition with_serial (v : Z) (r : atom_row) : atom_row :=
  mkRow v (name r) (resSeq r) (resName r) (chainID r) (mapped r) (type r).
Definition with_resSeq (v : Z) (r : atom_row) : atom_row :=
  mkRow (serial r) (name r) v (resName r) (chainID r) (mapped r) (type r).
Definition with_type (v : Z) (r : atom_row) : atom_row :=
  mkRow (serial r) (name r) (resSeq r) (resName r) (chainID r) (mapped r) v.

(** A numeric array, with the shape the code compares. *)
Record ndarray : Type := mkArray {
  shape : list nat;
  values : list Q
}.

Definition array_size (a : ndarray) : nat := fold_right Nat.mul 1%nat (shape a).

Definition matrix : Type := list (list Q).

(** An mdtraj topology as far as bond repair reads it: the atoms of each
    chain in order, and the bonds as pairs of atom indices. *)
Record Atom : Type := mkAtom {
  a_index : nat;
  a_name : string
}.

Record Topology : Type := mkTopology {
  chains : list (list Atom);
  bonds : list (nat * nat)
}.

Definition atoms (t : Topology) : list Atom := concat (chains t).

(** The pair that [Topology.add_bond] stores for two atoms: lower index
    first. *)
Definition bond_of (p : Atom * Atom) : nat * nat :=
  if (a_index (fst p) <? a_index (snd p))%nat
  then (a_index (fst p), a_index (snd p))
  else (a_index (snd p), a_index (fst p)).

(** [Topology.add_bond] *)
Definition add_bond (a1 a2 : Atom) (t : Topology) : Topology :=
  mkTopology (chains t) (bonds t ++ [bond_of (a1, a2)]).

(** ** Helpers on tables *)

(** Positions of the rows satisfying [p], counted from [i]. *)
Fixpoint indices_from {A} (p : A -> bool) (i : nat) (l : list A) : list nat :=
  match l with
  | [] => []
  | x :: t =>
      if p x then i :: indices_from p (S i) t else indices_from p (S i) t
  end.

(** [Series.unique()]: distinct values in order of first appearance. *)
Fixpoint unique_from (seen : list nat) (l : list nat) : list nat :=
  match l with
  | [] => []
  | x :: t =>
      if bool_decide (x ∈ seen) then unique_from seen t
      else x :: unique_from (x :: seen) t
  end.

Definition unique (l : list nat) : list nat := unique_from [] l.

Fixpoint insert_asc (k : nat) (l : list nat) : list nat :=
  match l with
  | [] => [k]
  | x :: t => if (k <=? x)%nat then k :: l else x :: insert_asc k t
  end.

Definition sort_asc (l : list nat) : list nat := fold_right insert_asc [] l.

Fixpoint insert_desc (e : nat * nat) (l : list (nat * nat)) : list (nat * nat) :=
  match l with
  | [] => [e]
  | x :: t => if (snd x <? snd e)%nat then e :: l else x :: insert_desc e t
  end.

Definition sort_desc (l : list (nat * nat)) : list (nat * nat) :=
  fold_right insert_desc [] l.

Definition count_of (k : nat) (l : list nat) : nat :=
  length (filter (fun x => x = k) l).

(** [df.value_counts("chainID")]: one entry (chain, number of rows) per
    chain present, largest count first.  Groups are formed in ascending
    key order and then sorted by count; the order among equal counts does
    not change any prefix sum of the counts. *)
Definition value_counts (cs : list nat) : list (nat * nat) :=
  sort_desc (map (fun k => (k, count_of k cs)) (sort_asc (unique cs))).

Definition sum_nat (l : list nat) : Z :=
  fold_right (fun x acc => Z.of_nat x + acc) 0 l.

(** [df.value_counts("chainID")[0 : c].sum()]: an integer slice of a Series
    is positional, so this adds the [c] largest counts. *)
Definition chain_offset (cs : list nat) (c : nat) : Z :=
  sum_nat (map snd (take c (value_counts cs))).

(** The list comprehension assigned to [cg_df.resSeq]. *)
Definition renumber_resSeq (df : list atom_row) : list atom_row :=
  map (fun r => with_resSeq (resSeq r + chain_offset (map chainID df) (chainID r)) r) df.

(** [cg_df.serial = [i + 1 for i in range(len(cg_df.index))]] *)
Definition renumber_serial (df : list atom_row) : list atom_row :=
  imap (fun i r => with_serial (Z.of_nat i + 1) r) df.

(** A row of the slice matrix: a [1] in column [j], if there is one. *)
Definition one_hot (n j : nat) : result (list Q) :=
  if (j <? n)%nat then Ok (<[j := 1%Q]> (repeat 0%Q n)) else Raise IndexError.

Fixpoint slice_matrix (n : nat) (idx : list nat) : result matrix :=
  match idx with
  | [] => Ok []
  | j :: t =>
      rbind (one_hot n j) (fun row =>
      rbind (slice_matrix n t) (fun rows => Ok (row :: rows)))
  end.

Definition Qsum (l : list Q) : Q := fold_right Qplus 0%Q l.

Definition row_sums_to_one (row : list Q) : bool := Qeq_bool (Qsum row) 1.
Definition row_has_one_1 (row : list Q) : bool :=
  (length (filter (fun x => Qeq_bool x 1 = true) row) =? 1)%nat.

(** [min()] and [max()] of a column; [None] stands for the NaN pandas
    answers on an empty selection, which then compares unequal to
    everything. *)
Definition column_min (l : list Z) : option Z :=
  match l with
  | [] => None
  | x :: t => Some (fold_left Z.min t x)
  end.

Definition column_max (l : list Z) : option Z :=
  match l with
  | [] => None
  | x :: t => Some (fold_left Z.max t x)
  end.

(** [max(d.values())]: a [ValueError] on an empty dictionary. *)
Definition dict_max (d : gmap string Z) : result Z :=
  match column_max (snd <$> map_to_list d) with
  | Some m => Ok m
  | None => Raise ValueError
  end.

(** ** External collaborators

    What the module imports and calls but does not define: the trajectory
    object of mdtraj, the helpers of [input_generator.utils], the embedding
    dictionaries that [eval] looks up by name, the neighbour-list
    constructor and the file system. *)
Class Collaborators : Type := {
  Trajectory : Type;
  n_atoms : Trajectory -> nat;
  atom_slice_xyz : Trajectory -> list nat -> ndarray;
  atom_slice_topology : Trajectory -> list nat -> Topology;
  (** [utils.map_cg_topology], applied to one row *)
  map_cg_topology : list string -> string -> option (list string) -> atom_row -> atom_row;
  (** the dictionaries of [embedding_maps], by name *)
  embedding_maps : string -> option (gmap string Z);
  (** [utils.slice_coord_forces] *)
  slice_coord_forces :
    ndarray -> ndarray -> matrix -> string -> Z -> option Z ->
    result (ndarray * ndarray * matrix);
  (** [utils.get_output_tag] *)
  get_output_tag : list string -> string -> string;
  path_join : string -> string -> string;
  path_exists : string -> bool;
  (** [os.makedirs] of a directory that does not exist: [None] when the
      directory is created, the exception otherwise *)
  makedirs_error : string -> option exn;
  (** opening a file for writing, as [np.save], [save_pdb] and [open] do:
      [None] when the file can be written, the exception otherwise *)
  write_error : string -> option exn;
  (** prior builders, [utils.get_edges_and_orders], [make_neighbor_list] *)
  PriorBuilder : Type;
  NeighborList : Type;
  separate_termini : PriorBuilder -> bool;
  (** [utils.get_terminal_atoms]; the source keeps no result, the helper
      updates the builder it is given *)
  get_terminal_atoms :
    PriorBuilder -> list atom_row -> option string -> option string -> PriorBuilder;
  get_edges_and_orders : list PriorBuilder -> Topology -> list (string * Z * list (list Z));
  make_neighbor_list : string -> Z -> list (list Z) -> NeighborList
}.

(** ** [SampleCollection] *)

Module Sample.

(** What a call leaves behind outside the object. *)
Inductive event : Type :=
| Warn (msg : string)
| Print (msg : string)
| MakeDirs (dir : string)
| SavePdb (file : string) (xyz : ndarray) (top : list atom_row)
| SaveEmbeds (file : string) (embeds : list Z)
| SaveArray (file : string) (a : ndarray)
| SaveMatrix (file : string) (m : matrix)
| PickleDump (file : string) (tags : list string).

Definition is_save (e : event) : bool :=
  match e with
  | Warn _ | Print _ | MakeDirs _ => false
  | _ => true
  end.

Section WithCollaborators.
Context {ext : Collaborators}.

(** The object: [name] and [tag] are set by [__init__]; every other
    attribute exists only once some method (or the loader, for
    [top_dataframe] and [input_traj]) has assigned it. *)
Record SampleCollection : Type := mkSample {
  sc_name : string;
  sc_tag : string;
  top_dataframe : option (list atom_row);
  input_traj : option Trajectory;
  embedding_dict : option (gmap string Z);
  cg_atom_indices : option (list nat);
  cg_dataframe : option (list atom_row);
  cg_map : option matrix;
  N_term : option (option string);
  C_term : option (option string);
  force_map : option matrix;
  cg_coords : option ndarray;
  cg_forces : option ndarray
}.

(** [SampleCollection.__init__] *)
Definition new (name tag : string) : SampleCollection :=
  mkSample name tag None None None None None None None None None None None.

Definition set_top_dataframe v s :=
  mkSample (sc_name s) (sc_tag s) (Some v) (input_traj s) (embedding_dict s)
    (cg_atom_indices s) (cg_dataframe s) (cg_map s) (N_term s) (C_term s)
    (force_map s) (cg_coords s) (cg_forces s).
Definition set_embedding_dict v s :=
  mkSample (sc_name s) (sc_tag s) (top_dataframe s) (input_traj s) (Some v)
    (cg_atom_indices s) (cg_dataframe s) (cg_map s) (N_term s) (C_term s)
    (force_map s) (cg_coords s) (cg_forces s).
Definition set_cg_atom_indices v s :=
  mkSample (sc_name s) (sc_tag s) (top_dataframe s) (input_traj s) (embedding_dict s)
    (Some v) (cg_dataframe s) (cg_map s) (N_term s) (C_term s)
    (force_map s) (cg_coords s) (cg_forces s).
Definition set_cg_dataframe v s :=
  mkSample (sc_name s) (sc_tag s) (top_dataframe s) (input_traj s) (embedding_dict s)
    (cg_atom_indices s) (Some v) (cg_map s) (N_term s) (C_term s)
    (force_map s) (cg_coords s) (cg_forces s).
Definition set_cg_map v s :=
  mkSample (sc_name s) (sc_tag s) (top_dataframe s) (input_traj s) (embedding_dict s)
    (cg_atom_indices s) (cg_dataframe s) (Some v) (N_term s) (C_term s)
    (force_map s) (cg_coords s) (cg_forces s).
Definition set_N_term v s :=
  mkSample (sc_name s) (sc_tag s) (top_dataframe s) (input_traj s) (embedding_dict s)
    (cg_atom_indices s) (cg_dataframe s) (cg_map s) (Some v) (C_term s)
    (force_map s) (cg_coords s) (cg_forces s).
Definition set_C_term v s :=
  mkSample (sc_name s) (sc_tag s) (top_dataframe s) (input_traj s) (embedding_dict s)
    (cg_atom_indices s) (cg_dataframe s) (cg_map s) (N_term s) (Some v)
    (force_map s) (cg_coords s) (cg_forces s).
Definition set_force_map v s :=
  mkSample (sc_name s) (sc_tag s) (top_dataframe s) (input_traj s) (embedding_dict s)
    (cg_atom_indices s) (cg_dataframe s) (cg_map s) (N_term s) (C_term s)
    (Some v) (cg_coords s) (cg_forces s).
Definition set_cg_coords v s :=
  mkSample (sc_name s) (sc_tag s) (top_dataframe s) (input_traj s) (embedding_dict s)
    (cg_atom_indices s) (cg_dataframe s) (cg_map s) (N_term s) (C_term s)
    (force_map s) (Some v) (cg_forces s).
Definition set_cg_forces v s :=
  mkSample (sc_name s) (sc_tag s) (top_dataframe s) (input_traj s) (embedding_dict s)
    (cg_atom_indices s) (cg_dataframe s) (cg_map s) (N_term s) (C_term s)
    (force_map s) (cg_coords s) (Some v).

(** *** The method monad: object state, exceptions, log *)

Definition M (A : Type) : Type :=
  SampleCollection -> result A * SampleCollection * list event.

Definition ret {A} (a : A) : M A := fun s => (Ok a, s, []).

Definition bind {A B} (m : M A) (k : A -> M B) : M B :=
  fun s =>
    match m s with
    | (Ok a, s1, l1) =>
        match k a s1 with
        | (r, s2, l2) => (r, s2, l1 ++ l2)
        end
    | (Raise e, s1, l1) => (Raise e, s1, l1)
    end.

Definition raise {A} (e : exn) : M A := fun s => (Raise e, s, []).
Definition modify (f : SampleCollection -> SampleCollection) : M unit :=
  fun s => (Ok tt, f s, []).
Definition emit (e : event) : M unit := fun s => (Ok tt, s, [e]).
Definition lift {A} (r : result A) : M A := fun s => (r, s, []).

(** [self.attr]: an [AttributeError] when the attribute was never set. *)
Definition attr {A} (f : SampleCollection -> option A) : M A :=
  fun s =>
    match f s with
    | Some a => (Ok a, s, [])
    | None => (Raise AttributeError, s, [])
    end.

(** [hasattr(self, "attr")] *)
Definition hasattr {A} (f : SampleCollection -> option A) : M bool :=
  fun s => (Ok (bool_decide (is_Some (f s))), s, []).

Definition when (b : bool) (m : M unit) : M unit := if b then m else ret tt.

(** [os.makedirs(dir)] *)
Definition makedirs (dir : string) : M unit :=
  match makedirs_error dir with
  | Some e => raise e
  | None => emit (MakeDirs dir)
  end.

(** Writing a file: the file is opened, which the file system may refuse,
    and then written; [e] records what is written. *)
Definition write (file : string) (e : event) : M unit :=
  match write_error file with
  | Some x => raise x
  | None => emit e
  end.

(** The object and the log that a call leaves. *)
Definition run_state {A} (m : M A) (s : SampleCollection) : SampleCollection :=
  snd (fst (m s)).
Definition run_log {A} (m : M A) (s : SampleCollection) : list event :=
  snd (m s).

End WithCollaborators.

Declare Scope method_scope.
Delimit Scope method_scope with method.
Notation "x <- m ;; k" := (bind m (fun x => k))
  (at level 100, m at next level, right associativity) : method_scope.
Notation "m ;; k" := (bind m (fun _ => k))
  (at level 100, right associativity) : method_scope.

Section Methods.
Context {ext : Collaborators}.
Local Open Scope method_scope.

(** *** [apply_cg_mapping] *)

(** The rows kept in the CG table: mapped rows of the table after
    [map_cg_topology] went over it, re-indexed from 0 by their position. *)
Definition mapped_rows (cg_atoms : list string) (embedding_function : string)
    (skip_residues : option (list string)) (top : list atom_row) : list atom_row :=
  filter (fun r => mapped r = true)
    (map (map_cg_topology cg_atoms embedding_function skip_residues) top).

(** [embedding_dict] is either a string, resolved by [eval], or anything
    else, which the method ignores. *)
Definition apply_cg_mapping (cg_atoms : list string) (embedding_function : string)
    (embedding_dict_arg : string + gmap string Z)
    (skip_residues : option (list string)) : M unit :=
  match embedding_dict_arg with
  | inl nm =>
      match embedding_maps nm with
      | Some d => modify (set_embedding_dict d)
      | None => raise NameError
      end
  | inr _ => ret tt
  end ;;
  top <- attr top_dataframe ;;
  let top' := map (map_cg_topology cg_atoms embedding_function skip_residues) top in
  modify (set_top_dataframe top') ;;
  let cg_df := filter (fun r => mapped r = true) top' in
  let cg_atom_idx := indices_from mapped 0 top' in
  modify (set_cg_atom_indices cg_atom_idx) ;;
  let cg_df := renumber_resSeq (renumber_serial cg_df) in
  modify (set_cg_dataframe cg_df) ;;
  traj <- attr input_traj ;;
  cg_map <- lift (slice_matrix (n_atoms traj) cg_atom_idx) ;;
  when (negb (forallb row_sums_to_one cg_map))
    (emit (Warn "WARNING: Slice mapping matrix is not unique.")) ;;
  when (negb (forallb row_has_one_1 cg_map))
    (emit (Warn "WARNING: Slice mapping matrix is not linear.")) ;;
  modify (set_cg_map cg_map) ;;
  modify (set_N_term None) ;;
  modify (set_C_term None).

(** *** [add_terminal_embeddings] *)

(** The selection of one chain's terminal atoms: rows of the chain at the
    chain's extreme residue number that carry the requested name. *)
Definition is_terminal (pick : list Z -> option Z) (nm : string)
    (df : list atom_row) (chain : nat) (r : atom_row) : bool :=
  bool_decide (Some (resSeq r) = pick (resSeq <$> filter (fun x => chainID x = chain) df))
  && bool_decide (name r = nm)
  && bool_decide (chainID r = chain).

Definition terminal_atoms (pick : list Z -> option Z) (nm : string)
    (df : list atom_row) : list nat :=
  flat_map (fun chain => indices_from (is_terminal pick nm df chain) 0 df)
    (unique (chainID <$> df)).

(** [if key not in self.embedding_dict: self.embedding_dict[key] = max(...) + 1],
    then the code read back from the dictionary. *)
Definition terminal_code (key : string) : M Z :=
  d <- attr embedding_dict ;;
  match d !! key with
  | Some c => ret c
  | None =>
      m <- lift (dict_max d) ;;
      modify (set_embedding_dict (<[key := m + 1]> d)) ;;
      ret (m + 1)
  end.

(** [for idx in ...: self.cg_dataframe.at[idx, "type"] = code]; every [idx]
    is a position of the table. *)
Definition set_types (code : Z) (idx : list nat) (df : list atom_row) : list atom_row :=
  fold_left (fun d i => alter (with_type code) i d) idx df.

Definition assign_terminal (key : string) (pick : list Z -> option Z)
    (term : option string) : M unit :=
  match term with
  | None => ret tt
  | Some nm =>
      code <- terminal_code key ;;
      df <- attr cg_dataframe ;;
      modify (set_cg_dataframe (set_types code (terminal_atoms pick nm df) df))
  end.

Definition add_terminal_embeddings (N_term C_term : option string) : M unit :=
  _ <- attr cg_dataframe ;;
  modify (set_N_term N_term) ;;
  modify (set_C_term C_term) ;;
  assign_terminal "N_term" column_min N_term ;;
  assign_terminal "C_term" column_max C_term.

(** What one terminus leaves behind, used to state the result of
    [add_terminal_embeddings]: the dictionary, the code in use and the
    table, for a dictionary whose greatest code is [m]. *)
Definition dict_after (key : string) (term : option string)
    (d : gmap string Z) (m : Z) : gmap string Z :=
  match term, d !! key with
  | Some _, None => <[key := m + 1]> d
  | _, _ => d
  end.

Definition code_of (key : string) (d : gmap string Z) (m : Z) : Z :=
  default (m + 1) (d !! key).

Definition rows_after (pick : list Z -> option Z) (term : option string)
    (code : Z) (df : list atom_row) : list atom_row :=
  match term with
  | Some nm => set_types code (terminal_atoms pick nm df) df
  | None => df
  end.

(** Whether a row is the terminal atom of its own chain for the requested
    name; no row is when the terminus is disabled. *)
Definition chain_terminal (pick : list Z -> option Z) (term : option string)
    (df : list atom_row) (r : atom_row) : bool :=
  match term with
  | Some nm => is_terminal pick nm df (chainID r) r
  | None => false
  end.

(** *** [process_coords_forces] *)

Definition process_coords_forces (coords forces : ndarray) (mapping : string)
    (force_stride : Z) (batch_size : option Z) : M (option (ndarray * ndarray)) :=
  if negb (bool_decide (shape coords = shape forces)) then
    emit (Warn "Cannot process coordinates and forces: mismatch between array shapes.") ;;
    ret None
  else
    m <- attr cg_map ;;
    r <- lift (slice_coord_forces coords forces m mapping force_stride batch_size) ;;
    let '(cgc, cgf, fm) := r in
    modify (set_force_map fm) ;;
    modify (set_cg_coords cgc) ;;
    modify (set_cg_forces cgf) ;;
    ret (Some (cgc, cgf)).

(** *** [save_cg_output] *)

(** The truth value of [a == None] in an [if]: [True] for [None]; for an
    array the comparison is elementwise, and its truth value is [False]
    for a single entry and a [ValueError] otherwise (for an empty array
    numpy before 2.2 answered [False] with a deprecation warning). *)
Definition is_None_test (a : option ndarray) : M bool :=
  match a with
  | None => ret true
  | Some arr => if (array_size arr =? 1)%nat then ret false else raise ValueError
  end.

Definition save_array_or_attr (file : string) (missing : string)
    (explicit : option ndarray) (field : SampleCollection -> option ndarray) : M unit :=
  none <- is_None_test explicit ;;
  if none then
    has <- hasattr field ;;
    if negb has then emit (Print missing)
    else a <- attr field ;; write file (SaveArray file a)
  else
    match explicit with
    | Some a => write file (SaveArray file a)
    | None => ret tt
    end.

Definition save_matrix_attr (file : string) (missing : string)
    (field : SampleCollection -> option matrix) : M unit :=
  has <- hasattr field ;;
  if negb has then emit (Print missing)
  else m <- attr field ;; write file (SaveMatrix file m).

Definition save_cg_output (save_dir : string) (save_coord_force save_cg_maps : bool)
    (cg_coords_arg cg_forces_arg : option ndarray) : M unit :=
  when (negb (path_exists save_dir)) (makedirs save_dir) ;;
  has <- hasattr cg_atom_indices ;;
  if negb has then
    emit (Print "CG mapping must be applied before outputs can be saved.")
  else
    s <- (fun s => (Ok s, s, [])) ;;
    let save_templ :=
      path_join save_dir (get_output_tag [sc_tag s; sc_name s] "before") in
    traj <- attr input_traj ;;
    idx <- attr cg_atom_indices ;;
    df <- attr cg_dataframe ;;
    write (save_templ +:+ "cg_structure.pdb")
      (SavePdb (save_templ +:+ "cg_structure.pdb") (atom_slice_xyz traj idx) df) ;;
    write (save_templ +:+ "cg_embeds.npy")
      (SaveEmbeds (save_templ +:+ "cg_embeds.npy") (type <$> df)) ;;
    when save_coord_force
      (save_array_or_attr (save_templ +:+ "cg_coords.npy")
         "No coordinates found; only CG structure, embeddings and loaded forces will be saved."
         cg_coords_arg cg_coords ;;
       save_array_or_attr (save_templ +:+ "cg_forces.npy")
         "No forces found;  only CG structure, embeddings, and loaded coordinates will be saved."
         cg_forces_arg cg_forces) ;;
    when save_cg_maps
      (save_matrix_attr (save_templ +:+ "cg_coord_map.npy")
         "No cg coordinate map found. Skipping save." cg_map ;;
       save_matrix_attr (save_templ +:+ "cg_force_map.npy")
         "No cg force map found. Skipping save." force_map).

(** *** [get_prior_nls] *)

Definition unique_atom_types (t : Topology) : gset string :=
  list_to_set (a_name <$> atoms t).

(** [(ch_atoms[i], ch_atoms[i + 1])] for [i] over [ch_atoms[:-1]]. *)
Definition consecutive (ch : list Atom) : list (Atom * Atom) :=
  combine (removelast ch) (tl ch).

Definition bond_chain (t : Topology) (ch : list Atom) : Topology :=
  fold_left (fun t p => add_bond (fst p) (snd p) t) (consecutive ch) t.

(** The extra step for the CA case. *)
Definition repair_ca_bonds (t : Topology) : Topology :=
  if bool_decide (unique_atom_types t = {["CA"]})
  then fold_left bond_chain (chains t) t
  else t.

(** The bonds of a topology that lie within one chain: both ends are atoms
    of the chain.  Used to count the bonds of a chain. *)
Definition bonds_within (ch : list Atom) (t : Topology) : list (nat * nat) :=
  filter (fun b => fst b ∈ a_index <$> ch /\ snd b ∈ a_index <$> ch) (bonds t).

(** The topology that [get_prior_nls] hands to [get_edges_and_orders]. *)
Definition prior_topology (traj : Trajectory) (idx : list nat) : Topology :=
  repair_ca_bonds (atom_slice_topology traj idx).

Definition get_prior_nls (prior_builders : list PriorBuilder) (save_nls : bool)
    (save_dir prior_tag : option string) : M (gmap string NeighborList) :=
  builders <-
    (if existsb separate_termini prior_builders then
       df <- attr cg_dataframe ;;
       nt <- attr N_term ;;
       ct <- attr C_term ;;
       ret (map (fun b => if separate_termini b
                          then get_terminal_atoms b df nt ct else b)
                prior_builders)
     else ret prior_builders) ;;
  traj <- attr input_traj ;;
  idx <- attr cg_atom_indices ;;
  let cg_top := prior_topology traj idx in
  let all_edges_and_orders := get_edges_and_orders builders cg_top in
  let prior_nls :=
    fold_left (fun acc x =>
                 let '(tag, order, edge) := x in
                 <[tag := make_neighbor_list tag order edge]> acc)
              all_edges_and_orders (∅ : gmap string NeighborList) in
  (if save_nls then
     match save_dir, prior_tag with
     | Some dir, Some ptag =>
         s <- (fun s => (Ok s, s, [])) ;;
         let ofile :=
           path_join dir
             (get_output_tag [sc_tag s; sc_name s] "before"
              +:+ "prior_nls_" +:+ ptag +:+ ".pkl") in
         write ofile (PickleDump ofile (fst <$> map_to_list prior_nls))
     | _, _ => raise KeyError
     end
   else ret tt) ;;
  ret prior_nls.

End Methods.

End Sample.


(** ** A small instance of the collaborators

    Stand-ins for mdtraj, [input_generator.utils] and the file system, used
    to run the methods on concrete molecules. *)

Module Demo.

(** The stand-in trajectory: the number of atoms and the topology that
    [atom_slice] is taken to return for the retained atoms. *)
Record traj : Type := mkTraj {
  t_atoms : nat;
  t_cg_topology : Topology
}.

(** Modelled from the spec: [utils.map_cg_topology], which is not part of
    the file.  An atom is retained when its name is among [cg_atoms] and its
    residue name is not among [skip_residues]; the embedding code, taken
    from the embedding dictionary by the real helper, is left as loaded. *)
Definition demo_map_cg_topology (cg_atoms : list string) (embedding_function : string)
    (skip_residues : option (list string)) (r : atom_row) : atom_row :=
  mkRow (serial r) (name r) (resSeq r) (resName r) (chainID r)
    (bool_decide (name r ∈ cg_atoms)
     && negb (bool_decide (resName r ∈ default [] skip_residues)))
    (type r).

Definition demo_dict : gmap string Z :=
  <["N" := 1]> (<["CA" := 2]> (<["C" := 3]> ∅)).

(** The column of the single 1 of a row of the slice matrix. *)
Fixpoint selected_atom (row : list Q) : nat :=
  match row with
  | [] => 0
  | x :: t => if Qeq_bool x 1 then 0 else S (selected_atom t)
  end.

(** The atoms that the rows of the matrix select, in the order of the rows
    and for every frame, of an array of shape [[n_frames; n_atoms; 3]]. *)
Definition slice_atoms (m : matrix) (a : ndarray) : ndarray :=
  match shape a with
  | [n_frames; n_all; k] =>
      mkArray [n_frames; length m; k]
        (flat_map
           (fun f =>
              flat_map
                (fun row =>
                   take k (drop ((f * n_all + selected_atom row) * k) (values a)))
                m)
           (seq 0 n_frames))
  | _ => a
  end.

(** Modelled from the spec: [utils.slice_coord_forces] with the
    slice_aggregate strategy, which is not part of the file.  The
    coordinates and the forces of the mapped atoms pass through unchanged,
    the unmapped atoms are dropped, and the force map is the slice
    matrix. *)
Definition demo_slice_coord_forces (coords forces : ndarray) (m : matrix)
    (mapping : string) (force_stride : Z) (batch_size : option Z)
    : result (ndarray * ndarray * matrix) :=
  Ok (slice_atoms m coords, slice_atoms m forces, m).

#[export] Instance demo_ext : Collaborators := {|
  Trajectory := traj;
  n_atoms := t_atoms;
  atom_slice_xyz := fun t idx => mkArray [1%nat; length idx; 3%nat] [];
  atom_slice_topology := fun t idx => t_cg_topology t;
  map_cg_topology := demo_map_cg_topology;
  embedding_maps := fun nm => if bool_decide (nm = "demo_dict") then Some demo_dict else None;
  slice_coord_forces := demo_slice_coord_forces;
  get_output_tag := fun parts placement => fold_right (fun p acc => p +:+ "_" +:+ acc) "" parts;
  path_join := fun a b => a +:+ "/" +:+ b;
  path_exists := fun dir => bool_decide (dir = "out");
  makedirs_error := fun dir => if bool_decide (dir = "") then Some OSError else None;
  write_error := fun file => if bool_decide (file = "") then Some OSError else None;
  PriorBuilder := unit;
  NeighborList := Z * list (list Z);
  separate_termini := fun _ => false;
  get_terminal_atoms := fun b _ _ _ => b;
  get_edges_and_orders := fun _ _ => [];
  make_neighbor_list := fun tag order edges => (order, edges)
|}.

Definition row (nm : string) (rs : Z) (ch : nat) (ty : Z) : atom_row :=
  mkRow 0 nm rs "ALA" ch false ty.

(** Two single-atom chains: residue 2 in chain 0, residue 1 in chain 1. *)
Definition two_chain_top : list atom_row :=
  [row "CA" 2 0 2; row "CA" 1 1 2].

(** A homodimer of CA atoms in which residue 2 of either chain is missing
    from the structure: both chains are numbered 1, 3. *)
Definition gapped_dimer_top : list atom_row :=
  [row "CA" 1 0 2; row "CA" 3 0 2; row "CA" 1 1 2; row "CA" 3 1 2].

(** Three chains of 5, 10 and 3 single-atom residues, each numbered from 1. *)
Definition ca_chain (ch n : nat) : list atom_row :=
  map (fun i => row "CA" (Z.of_nat i) ch 2) (seq 1 n).

Definition three_chain_top : list atom_row :=
  ca_chain 0 5 ++ ca_chain 1 10 ++ ca_chain 2 3.

Definition loaded (top : list atom_row) (n : nat) : Sample.SampleCollection :=
  Sample.mkSample "mol" "tag" (Some top) (Some (mkTraj n (mkTopology [] [])))
    None None None None None None None None None.

(** A homodimer: two chains of two residues, each residue with atoms N, CA
    and C, both chains numbered 1..2 in the file. *)
Definition dimer_chain (ch : nat) : list atom_row :=
  [row "N" 1 ch 1; row "CA" 1 ch 2; row "C" 1 ch 3;
   row "N" 2 ch 1; row "CA" 2 ch 2; row "C" 2 ch 3].

Definition homodimer_top : list atom_row := dimer_chain 0 ++ dimer_chain 1.

(** Frames of twelve atoms: coordinates, forces, and a force array of
    another shape. *)
Definition numbered (n : nat) (first : Z) : list Q :=
  map (fun i => inject_Z (first + Z.of_nat i)) (seq 0 n).

Definition some_coords : ndarray := mkArray [2; 12; 3]%nat (numbered 72 0).
Definition some_forces : ndarray := mkArray [2; 12; 3]%nat (numbered 72 100).
Definition short_forces : ndarray := mkArray [1; 12; 3]%nat (numbered 36 100).

(** Five particles in one chain, without bonds. *)
Definition bead_chain (nm : string) (start : nat) : list Atom :=
  map (fun i => mkAtom i nm) (seq start 5).

Definition five_beads (nm : string) : Topology := mkTopology [bead_chain nm 0] [].

Definition two_chains_of_five : Topology :=
  mkTopology [bead_chain "CA" 0; bead_chain "CA" 5] [].

(** The homodimer through the pipeline: loaded, mapped to its CA atoms,
    projected, and then mapped again to the atoms N, CA and C. *)
Definition dimer_loaded : Sample.SampleCollection := loaded homodimer_top 12.

Definition dimer_mapped : Sample.SampleCollection :=
  Sample.run_state
    (Sample.apply_cg_mapping ["CA"] "embedding" (inl "demo_dict") None) dimer_loaded.

Definition dimer_projected : Sample.SampleCollection :=
  Sample.run_state
    (Sample.process_coords_forces some_coords some_forces "slice_aggregate" 100 None)
    dimer_mapped.

Definition dimer_remapped : Sample.SampleCollection :=
  Sample.run_state
    (Sample.apply_cg_mapping ["N"; "CA"; "C"] "embedding" (inl "demo_dict") None)
    dimer_projected.

(** The homodimer mapped to all its atoms N, CA and C. *)
Definition dimer_full : Sample.SampleCollection :=
  Sample.run_state
    (Sample.apply_cg_mapping ["N"; "CA"; "C"] "embedding" (inl "demo_dict") None)
    dimer_loaded.

End Demo.

(** ** [CGDataBatch.__getitem__] *)

Module BatchItems.
Import Batch.

(** An integer index into the first axis of an array, a tensor or a list:
    a negative index counts from the end, and an index outside the object
    is an [IndexError]. *)
Definition py_index {A} (a : list A) (idx : Z) : result A :=
  let n := Z.of_nat (length a) in
  let i := if idx <? 0 then idx + n else idx in
  if (0 <=? i) && (i <? n)
  then match a !! Z.to_nat i with
       | Some x => Ok x
       | None => Raise IndexError
       end
  else Raise IndexError.

Section Items.
Context {frame embeds nls : Type}.

(** One [AtomicData] as [__getitem__] fills it: positions, the shared
    embeddings and neighbour lists, forces when [concat_forces] is set, the
    frame's weight when the object has weights. *)
Record datum : Type := mkDatum {
  d_pos : frame;
  d_atom_types : embeds;
  d_neighborlist : nls;
  d_forces : option frame;
  d_weights : option tval
}.

(** The body of the loop over [ii]. *)
Definition frame_datum (b : @CGDataBatch frame embeds nls) (ii : Z) : result datum :=
  rbind (py_index (cg_coords b) ii) (fun p =>
  rbind (if concat_forces b
         then rbind (py_index (cg_forces b) ii) (fun f => Ok (Some f))
         else Ok None) (fun f =>
  rbind (match weights b with
         | Some w => rbind (py_index w ii) (fun x => Ok (Some x))
         | None => Ok None
         end) (fun w =>
  Ok (mkDatum p (cg_embeds b) (cg_prior_nls b) f w)))).

Fixpoint frame_data (b : @CGDataBatch frame embeds nls) (l : list Z) : result (list datum) :=
  match l with
  | [] => Ok []
  | ii :: t =>
      rbind (frame_datum b ii) (fun d =>
      rbind (frame_data b t) (fun ds => Ok (d :: ds)))
  end.

(** [CGDataBatch.__getitem__].  The collated batch is represented by the
    list of data it is collated from; [data_list[0]] is an [IndexError] on
    an empty list. *)
Definition getitem (b : @CGDataBatch frame embeds nls) (idx : Z) : result (list datum) :=
  rbind (py_index (strides b) idx) (fun w =>
  rbind (frame_data b (seqZ (fst w) (snd w - fst w))) (fun data_list =>
  match data_list with
  | [] => Raise IndexError
  | _ => Ok data_list
  end)).

End Items.
End BatchItems.

(** ** [RawDataset] and [SimInput] *)

Module Datasets.
Import Sample.

(** A Python [str] is a sequence of characters; a [string] here is a
    sequence of bytes and holds the UTF-8 encoding of the [str].  In UTF-8
    the bytes 10xxxxxx continue a character, and every other byte starts
    one. *)
Definition is_continuation (c : Ascii.ascii) : bool :=
  let n := Ascii.nat_of_ascii c in (128 <=? n)%nat && (n <? 192)%nat.

(** The number of characters of a [str]. *)
Definition n_chars (bytes : list Ascii.ascii) : nat :=
  length (filter (fun c => is_continuation c = false) bytes).

(** The bytes of a [str] from the last one backwards, without the last [k]
    characters. *)
Fixpoint drop_chars_backwards (bytes : list Ascii.ascii) (k : nat) : list Ascii.ascii :=
  match k, bytes with
  | O, _ => bytes
  | S _, [] => []
  | S k', c :: t =>
      if is_continuation c then drop_chars_backwards t k
      else drop_chars_backwards t k'
  end.

(** [fn[:-4]]: the [str] without its last four characters. *)
Definition drop_last_4 (fn : string) : string :=
  String.string_of_list_ascii
    (reverse (drop_chars_backwards (reverse (String.list_ascii_of_string fn)) 4)).

(** [len(s)], and whether the bytes are whole characters, that is, do not
    begin inside a character; the encoding of a [str] always does so. *)
Definition str_len (s : string) : nat := n_chars (String.list_ascii_of_string s).

Definition whole_chars (s : string) : bool :=
  match s with
  | String c _ => negb (is_continuation c)
  | EmptyString => true
  end.

Section WithCollaborators.
Context {ext : Collaborators}.

Record RawDataset : Type := mkRawDataset {
  rd_dataset_name : string;
  rd_names : list string;
  rd_tag : string;
  rd_dataset : list SampleCollection
}.

(** [RawDataset.__init__] *)
Definition RawDataset_init (dataset_name : string) (names : list string)
    (tag : string) : RawDataset :=
  mkRawDataset dataset_name names tag (map (fun name => new name tag) names).

(** [RawDataset.__getitem__] and [RawDataset.__len__] *)
Definition RawDataset_getitem (d : RawDataset) (idx : Z) : result SampleCollection :=
  BatchItems.py_index (rd_dataset d) idx.
Definition RawDataset_len (d : RawDataset) : nat := length (rd_dataset d).

(** [SimInput] keeps no [tag] attribute of its own. *)
Record SimInput : Type := mkSimInput {
  si_dataset_name : string;
  si_names : list string;
  si_dataset : list SampleCollection
}.

(** [SimInput.__init__] *)
Definition SimInput_init (dataset_name tag : string) (pdb_fns : list string) : SimInput :=
  let names := map drop_last_4 pdb_fns in
  mkSimInput dataset_name names (map (fun name => new name tag) names).

Definition SimInput_getitem (d : SimInput) (idx : Z) : result SampleCollection :=
  BatchItems.py_index (si_dataset d) idx.
Definition SimInput_len (d : SimInput) : nat := length (si_dataset d).

End WithCollaborators.
End Datasets.

(** ** Reading a whole batch object

    [[b[i] for i in range(len(b))]]: every batch of the object in turn,
    used to state what the batches hold together. *)

Module BatchIteration.
Import Batch BatchItems.

Fixpoint getitems {frame embeds nls : Type} (b : @CGDataBatch frame embeds nls)
    (idxs : list nat) : result (list (list (@datum frame embeds nls))) :=
  match idxs with
  | [] => Ok []
  | i :: t =>
      rbind (getitem b (Z.of_nat i)) (fun ds =>
      rbind (getitems b t) (fun rest => Ok (ds :: rest)))
  end.

Definition all_batches {frame embeds nls : Type} (b : @CGDataBatch frame embeds nls)
    : result (list (list (@datum frame embeds nls))) :=
  getitems b (seq 0 (len b)).

End BatchIteration.

(** The data of all frames of a batch object in frame order, used to state
    what the batches hold together: per frame the positions, the forces
    when [concat_forces] is set and the weight when there are weights. *)

Module BatchData.
Import Batch BatchItems.

Section Data.
Context {frame embeds nls : Type}.

Definition frame_forces (b : @CGDataBatch frame embeds nls) : list (option frame) :=
  if concat_forces b then Some <$> cg_forces b
  else (fun _ => None) <$> cg_coords b.

Definition frame_weights (b : @CGDataBatch frame embeds nls) : list (option tval) :=
  match weights b with
  | Some w => Some <$> w
  | None => (fun _ => None) <$> cg_coords b
  end.

Definition all_data (b : @CGDataBatch frame embeds nls) : list (@datum frame embeds nls) :=
  zip_with (fun p fw => mkDatum p (cg_embeds b) (cg_prior_nls b) (fst fw) (snd fw))
    (cg_coords b) (zip (frame_forces b) (frame_weights b)).

(** The data of the frames [st], ..., [nd - 1]. *)
Definition window_data (b : @CGDataBatch frame embeds nls) (w : Z * Z)
    : list (@datum frame embeds nls) :=
  take (Z.to_nat (snd w - fst w)) (drop (Z.to_nat (fst w)) (all_data b)).

End Data.
End BatchData.

(** ** More sample objects *)

Module DemoMore.
Import Demo.

(** A table without its trajectory. *)
Definition table_only (top : list atom_row) : Sample.SampleCollection :=
  Sample.mkSample "mol" "tag" (Some top) None
    None None None None None None None None None.

(** An object that is mapped and has an empty embedding dictionary. *)
Definition empty_dict_mapped : Sample.SampleCollection :=
  Sample.set_embedding_dict ∅ dimer_mapped.

End DemoMore.

(** ** The parts of [save_cg_output] *)

Module SaveParts.
Import Sample.

Section WithCollaborators.
Context {ext : Collaborators}.
Local Open Scope method_scope.

(** The part of [save_cg_output] after the embeddings are written. *)
Definition save_tail (templ : string) (save_coord_force save_cg_maps : bool)
    (cg_coords_arg cg_forces_arg : option ndarray) : M unit :=
  when save_coord_force
    (save_array_or_attr (templ +:+ "cg_coords.npy")
       "No coordinates found; only CG structure, embeddings and loaded forces will be saved."
       cg_coords_arg cg_coords ;;
     save_array_or_attr (templ +:+ "cg_forces.npy")
       "No forces found;  only CG structure, embeddings, and loaded coordinates will be saved."
       cg_forces_arg cg_forces) ;;
  when save_cg_maps
    (save_matrix_attr (templ +:+ "cg_coord_map.npy")
       "No cg coordinate map found. Skipping save." cg_map ;;
     save_matrix_attr (templ +:+ "cg_force_map.npy")
       "No cg force map found. Skipping save." force_map).

End WithCollaborators.
End SaveParts.

(** ** Collaborators with prior builders

    As the small instance of [Demo], with builders that are a tag and an
    order: [get_edges_and_orders] delivers one triple per builder, in the
    order of the builders, without edges. *)

Module DemoPriors.
Import Demo.

Definition prior_ext : Collaborators := {|
  Trajectory := traj;
  n_atoms := t_atoms;
  atom_slice_xyz := fun t idx => mkArray [1%nat; length idx; 3%nat] [];
  atom_slice_topology := fun t idx => t_cg_topology t;
  map_cg_topology := demo_map_cg_topology;
  embedding_maps := fun nm => if bool_decide (nm = "demo_dict") then Some demo_dict else None;
  slice_coord_forces := demo_slice_coord_forces;
  get_output_tag := fun parts placement => fold_right (fun p acc => p +:+ "_" +:+ acc) "" parts;
  path_join := fun a b => a +:+ "/" +:+ b;
  path_exists := fun dir => bool_decide (dir = "out");
  makedirs_error := fun dir => if bool_decide (dir = "") then Some OSError else None;
  write_error := fun file => if bool_decide (file = "") then Some OSError else None;
  PriorBuilder := string * Z;
  NeighborList := Z * list (list Z);
  separate_termini := fun _ => false;
  get_terminal_atoms := fun b _ _ _ => b;
  get_edges_and_orders := fun bs _ => map (fun b => (fst b, snd b, [])) bs;
  make_neighbor_list := fun tag order edges => (order, edges)
|}.

(** Two chains of five CA atoms, loaded and then mapped. *)
Definition prior_loaded : @Sample.SampleCollection prior_ext :=
  @Sample.mkSample prior_ext "mol" "tag"
    (Some (ca_chain 0 5 ++ ca_chain 1 5))
    (Some (mkTraj 10 two_chains_of_five))
    None None None None None None None None None.

Definition prior_mapped : @Sample.SampleCollection prior_ext :=
  Sample.run_state (ext := prior_ext)
    (Sample.apply_cg_mapping (ext := prior_ext) ["CA"] "embedding" (inl "demo_dict") None)
    prior_loaded.

End DemoPriors.
(** * Properties *)

(** ** Windows of [get_strides] *)

Module StridesProofs.
Import Strides.

Lemma windows_cons2 a b rest :
  windows (a :: b :: rest) = (a, b) :: windows (b :: rest).
Proof. reflexivity. Qed.

Lemma windows_cumsum_app a b q rest :
  windows (a :: cumsum_from a (repeat b q ++ rest)) =
  map (fun i : nat => (a + Z.of_nat i * b, a + Z.of_nat i * b + b)) (seq 0 q)
  ++ windows ((a + Z.of_nat q * b) :: cumsum_from (a + Z.of_nat q * b) rest).
Proof.
  revert a. induction q as [|q IH]; intros a.
  - cbn [repeat app seq map]. replace (a + Z.of_nat 0 * b) with a by lia. reflexivity.
  - cbn [repeat app cumsum_from]. rewrite windows_cons2, IH.
    cbn [seq map app]. f_equal; [f_equal; lia|].
    rewrite <- seq_shift, map_map. f_equal.
    + apply map_ext; intros i. f_equal; lia.
    + replace (a + b + Z.of_nat q * b) with (a + Z.of_nat (S q) * b) by lia.
      reflexivity.
Qed.

Lemma zeros_set_from_1 b q :
  set_from_1 b (repeat 0 (S q)) = 0 :: repeat b q.
Proof.
  simpl. f_equal. induction q; simpl; congruence.
Qed.

Lemma removelast_snoc {A} (l : list A) x : removelast (l ++ [x]) = l.
Proof. apply removelast_last. Qed.

Lemma repeat_snoc {A} (x : A) n : repeat x (S n) = repeat x n ++ [x].
Proof. induction n; simpl in *; congruence. Qed.

Lemma zeros_set_1_to_last b q :
  set_1_to_last b (repeat 0 (S (S q))) = 0 :: repeat b q ++ [0].
Proof.
  change (repeat 0 (S (S q))) with (0 :: repeat 0 (S q)).
  unfold set_1_to_last. rewrite (repeat_snoc 0 q).
  destruct (repeat 0 q ++ [0]) eqn:E.
  - destruct (repeat 0 q); discriminate.
  - rewrite <- E, removelast_snoc, last_last. f_equal. f_equal.
    clear E. induction q; simpl; congruence.
Qed.

(** Up to 2^53 an integer is stored in a [float64] array as it is. *)
Lemma to_float64_exact x : Z.abs x <= 2 ^ 53 -> to_float64 x = x.
Proof.
  intros H. unfold to_float64.
  destruct (Z.leb_spec (Z.abs x) (2 ^ 53)); [reflexivity|lia].
Qed.

(** [get_strides] in closed form, for a batch size that a [float64] holds
    exactly. *)
Lemma get_strides_closed n b :
  0 < b -> b <= 2 ^ 53 -> 0 <= n ->
  get_strides n b = Ok (map (window n b) (seq 0 (n_windows n b))).
Proof.
  intros Hb Hb53 Hn. unfold get_strides, np_divmod.
  destruct (Z.eqb_spec b 0) as [->|_]; [lia|].
  pose proof (Z.mod_pos_bound n b Hb) as Hr.
  pose proof (Z.div_mod n b ltac:(lia)) as Hdm.
  pose proof (Z.div_pos n b Hn Hb) as Hq.
  set (q := n / b) in *. set (r := n mod b) in *.
  rewrite (to_float64_exact b), (to_float64_exact r) by lia.
  destruct (Z.ltb_spec (-1) r) as [_|]; [|lia]. cbn [negb].
  assert (Hqn : Z.of_nat (Z.to_nat q) = q) by lia.
  destruct (Z.eqb_spec r 0) as [Hr0|Hr0].
  - assert (Hk : n_windows n b = Z.to_nat q).
    { unfold n_windows. f_equal. symmetry.
      apply (Z.div_unique _ _ q (b - 1)); lia. }
    unfold np_zeros. destruct (Z.ltb_spec (q + 1) 0); [lia|].
    replace (Z.to_nat (q + 1)) with (S (Z.to_nat q)) by lia.
    cbn [rbind]. rewrite zeros_set_from_1. unfold cumsum.
    cbn [cumsum_from]. change (0 + 0) with 0.
    rewrite <- (app_nil_r (repeat b _)), windows_cumsum_app.
    cbn [cumsum_from]. unfold windows at 1. cbn [removelast tl combine].
    rewrite app_nil_r, Hk. f_equal. apply map_ext_in; intros i Hi.
    apply in_seq in Hi. unfold window. f_equal; try lia.
    rewrite Z.min_l; nia.
  - assert (Hk : n_windows n b = S (Z.to_nat q)).
    { unfold n_windows. replace (S (Z.to_nat q)) with (Z.to_nat (q + 1)) by lia.
      f_equal. symmetry. apply (Z.div_unique _ _ (q + 1) (r - 1)); lia. }
    unfold np_zeros. destruct (Z.ltb_spec (q + 2) 0); [lia|].
    replace (Z.to_nat (q + 2)) with (S (S (Z.to_nat q))) by lia.
    cbn [rbind]. rewrite zeros_set_1_to_last.
    unfold set_last. rewrite app_comm_cons, removelast_snoc.
    cbn [rbind app]. unfold cumsum. cbn [cumsum_from]. change (0 + 0) with 0.
    rewrite windows_cumsum_app. cbn [cumsum_from].
    rewrite windows_cons2. unfold windows at 1. cbn [removelast tl combine].
    rewrite Hk, seq_S, map_app. cbn [map Nat.add]. f_equal.
    apply (f_equal2 (@app _)).
    + apply map_ext_in; intros i Hi.
      apply in_seq in Hi. unfold window. f_equal; try lia.
      rewrite Z.min_l; nia.
    + unfold window. rewrite Hqn, Z.min_r by lia. f_equal. f_equal; lia.
Qed.

(** With a positive batch size [get_strides] returns, whatever the
    rounding does to the batch size. *)
Lemma get_strides_returns n b :
  0 < b -> 0 <= n -> exists st, get_strides n b = Ok st.
Proof.
  intros Hb Hn. unfold get_strides, np_divmod.
  destruct (Z.eqb_spec b 0) as [->|_]; [lia|].
  pose proof (Z.mod_pos_bound n b Hb) as Hr.
  pose proof (Z.div_pos n b Hn Hb) as Hq.
  set (q := n / b) in *. set (r := n mod b) in *.
  destruct (Z.ltb_spec (-1) r) as [_|]; [|lia]. cbn [negb].
  unfold np_zeros. destruct (Z.eqb_spec r 0) as [Hr0|Hr0].
  - destruct (Z.ltb_spec (q + 1) 0); [lia|]. eexists. reflexivity.
  - destruct (Z.ltb_spec (q + 2) 0); [lia|].
    replace (Z.to_nat (q + 2)) with (S (S (Z.to_nat q))) by lia.
    cbn [rbind]. rewrite zeros_set_1_to_last. eexists. reflexivity.
Qed.

Lemma n_windows_pos n b : 0 < b -> 0 < n -> (0 < n_windows n b)%nat.
Proof.
  intros Hb Hn. unfold n_windows.
  assert (1 <= (n + b - 1) / b); [|lia].
  apply Z.div_le_lower_bound; lia.
Qed.

(** Below the last window, a window is full. *)
Lemma window_full n b i :
  0 < b -> 0 <= n -> (S i < n_windows n b)%nat ->
  Z.of_nat i * b + b <= n.
Proof.
  intros Hb Hn Hi. unfold n_windows in Hi.
  assert (Z.of_nat i + 2 <= (n + b - 1) / b) as H by lia.
  assert (b * (Z.of_nat i + 2) <= n + b - 1); [|lia].
  etransitivity; [apply Z.mul_le_mono_nonneg_l; [lia|exact H]|].
  apply Z.mul_div_le; lia.
Qed.

(** The last window ends with the frames. *)
Lemma window_last n b i :
  0 < b -> 0 < n -> S i = n_windows n b ->
  Z.of_nat i * b < n <= Z.of_nat i * b + b.
Proof.
  intros Hb Hn Hi. unfold n_windows in Hi.
  assert (Z.of_nat i + 1 = (n + b - 1) / b) as H by lia.
  pose proof (Z.div_mod (n + b - 1) b ltac:(lia)).
  pose proof (Z.mod_pos_bound (n + b - 1) b Hb).
  rewrite <- H in *. nia.
Qed.

End StridesProofs.

(** ** [CGDataBatch] *)

Module BatchProofs.
Import Strides Batch StridesProofs.

Section Init.
Context {frame embeds nls : Type}.
Implicit Types (coords forces : list frame) (emb : embeds) (nl : nls).

(** The constructor succeeds as soon as the stride is positive and
    [get_strides] does, and then stores what the source assigns. *)
Lemma init_ok coords forces emb nl bsize str w concat st :
  0 < str ->
  let n := Z.of_nat (length (kept str coords)) in
  get_strides n (if n <? bsize then n else bsize) = Ok st ->
  init coords forces emb nl bsize str w concat =
  Ok {| batch_size := if n <? bsize then n else bsize;
        stride := str; concat_forces := concat;
        cg_coords := kept str coords; cg_forces := kept str forces;
        cg_embeds := emb; cg_prior_nls := nl;
        weights := stored_weights str w; n_structure := n;
        strides := st; n_elem := length st |}.
Proof.
  intros Hs n Hst. unfold init, strided, stored_weights.
  destruct (Z.eqb_spec str 0) as [|_]; [lia|].
  destruct (Z.ltb_spec str 0) as [|_]; [lia|]. cbn [rbind].
  destruct w as [wa|]; cbn [rbind]; unfold kept in *; subst n;
    rewrite Hst; reflexivity.
Qed.

Lemma get_strides_empty : get_strides 0 0 = Ok [].
Proof. reflexivity. Qed.


End Init.

(** *** Sums of weights *)









(** *** Sums of an int64 tensor *)

Lemma wrap64_spec z :
  exists k, wrap64 z = z + k * 2 ^ 64 /\ - 2 ^ 63 <= wrap64 z < 2 ^ 63.
Proof.
  unfold wrap64.
  pose proof (Z.div_mod (z + 2 ^ 63) (2 ^ 64) ltac:(lia)) as Hdm.
  pose proof (Z.mod_pos_bound (z + 2 ^ 63) (2 ^ 64) ltac:(lia)) as Hb.
  exists (- ((z + 2 ^ 63) / 2 ^ 64)). split; lia.
Qed.

Lemma wrap64_exact z : - 2 ^ 63 <= z < 2 ^ 63 -> wrap64 z = z.
Proof.
  intros H. destruct (wrap64_spec z) as (k & Hk & Hr). lia.
Qed.







End BatchProofs.

Module WindowFacts.
Import Strides StridesProofs.

Lemma lookup_windows n b k i p :
  map (window n b) (seq 0 k) !! i = Some p <-> (i < k)%nat /\ p = window n b i.
Proof.
  change (map (window n b) (seq 0 k)) with (window n b <$> seq 0 k).
  rewrite list_lookup_fmap. split.
  - intros H. destruct (seq 0 k !! i) as [j|] eqn:E; [|discriminate].
    apply lookup_seq in E as [-> ?]. simpl in H. split; [lia|congruence].
  - intros [Hi ->]. rewrite (lookup_seq_lt 0 k i Hi). reflexivity.
Qed.

Lemma last_windows n b k :
  last (map (window n b) (seq 0 (S k))) = Some (window n b k).
Proof.
  rewrite seq_S, map_app. simpl. apply last_snoc.
Qed.

(** The size of window [i]: a full batch, except that the last window holds
    the remainder when there is one. *)
Lemma window_size n b i :
  0 < b -> 0 < n -> (i < n_windows n b)%nat ->
  let '(s, e) := window n b i in
  0 <= s < e /\ e <= n
  /\ ((S i < n_windows n b)%nat -> e - s = b)
  /\ (S i = n_windows n b -> e = n /\ e - s = if n mod b =? 0 then b else n mod b).
Proof.
  intros Hb Hn Hi. unfold window.
  assert (Hcase : (S i < n_windows n b)%nat \/ S i = n_windows n b) by lia.
  destruct Hcase as [Hlt|Heq].
  - pose proof (window_full n b i Hb ltac:(lia) Hlt).
    rewrite Z.min_l by lia. repeat split; try lia.
  - pose proof (window_last n b i Hb Hn Heq) as Hl.
    rewrite Z.min_r by lia. repeat split; try lia.
    destruct (Z.eqb_spec (n mod b) 0) as [E|E].
    + apply Z.mod_divide in E; [|lia]. destruct E as [c Hc].
      assert (Z.of_nat i < c) by nia.
      assert (c <= Z.of_nat i + 1) by nia.
      assert (c = Z.of_nat i + 1) by lia. subst c. lia.
    + apply (Z.mod_unique n b (Z.of_nat i)); [|lia].
      left. split; [lia|].
      assert (n <> Z.of_nat i * b + b); [|lia].
      intros Hx. apply E. rewrite Hx.
      replace (Z.of_nat i * b + b) with ((Z.of_nat i + 1) * b) by lia.
      apply Z.mod_mul. lia.
Qed.

End WindowFacts.

Module CappedStrides.
Import Strides Batch StridesProofs.

(** With a positive requested batch size the constructor's call of
    [get_strides] always returns. *)
Lemma get_strides_capped_ok n b :
  0 <= n -> 0 < b ->
  exists st, get_strides n (if n <? b then n else b) = Ok st.
Proof.
  intros Hn Hb. destruct (Z.eq_dec n 0) as [->|Hn0].
  - destruct (Z.ltb_spec 0 b); [|lia]. exists []. reflexivity.
  - apply get_strides_returns; [|lia].
    destruct (Z.ltb_spec n b); lia.
Qed.

End CappedStrides.


(** ** Running the methods of [SampleCollection] *)

Module SampleProofs.
Import Sample.

Section WithCollaborators.
Context {ext : Collaborators}.

Lemma bind_ok {A B} (m : M A) (k : A -> M B) s a s1 l1 :
  m s = (Ok a, s1, l1) ->
  bind m k s = (let '(r, s2, l2) := k a s1 in (r, s2, l1 ++ l2)).
Proof. intros H. unfold bind. rewrite H. reflexivity. Qed.

Lemma bind_raise {A B} (m : M A) (k : A -> M B) s e s1 l1 :
  m s = (Raise e, s1, l1) -> bind m k s = (Raise e, s1, l1).
Proof. intros H. unfold bind. rewrite H. reflexivity. Qed.

Lemma hasattr_Some {A} (f : SampleCollection -> option A) s a :
  f s = Some a -> hasattr f s = (Ok true, s, []).
Proof.
  intros H. unfold hasattr. rewrite H.
  rewrite bool_decide_eq_true_2 by eauto. reflexivity.
Qed.

Lemma hasattr_None {A} (f : SampleCollection -> option A) s :
  f s = None -> hasattr f s = (Ok false, s, []).
Proof.
  intros H. unfold hasattr. rewrite H.
  rewrite bool_decide_eq_false_2; [reflexivity|].
  intros [x Hx]. discriminate.
Qed.

(** Creating the directory and writing a file when the file system lets
    it happen, and when it does not. *)
Lemma write_ok file e s :
  write_error file = None -> write file e s = (Ok tt, s, [e]).
Proof. intros H. unfold write. rewrite H. reflexivity. Qed.

Lemma write_fails file e x s :
  write_error file = Some x -> write file e s = (Raise x, s, []).
Proof. intros H. unfold write. rewrite H. reflexivity. Qed.

Lemma output_dir_ready save_dir s :
  path_exists save_dir = true \/ makedirs_error save_dir = None ->
  when (negb (path_exists save_dir)) (makedirs save_dir) s
  = (Ok tt, s, if path_exists save_dir then [] else [MakeDirs save_dir]).
Proof.
  intros H. unfold when, makedirs.
  destruct (path_exists save_dir); [reflexivity|].
  destruct H as [H|H]; [discriminate|]. rewrite H. reflexivity.
Qed.

Lemma output_dir_fails save_dir e s :
  path_exists save_dir = false -> makedirs_error save_dir = Some e ->
  when (negb (path_exists save_dir)) (makedirs save_dir) s = (Raise e, s, []).
Proof.
  intros H1 H2. unfold when, makedirs. rewrite H1, H2. reflexivity.
Qed.

(** When the directory is missing and cannot be created, [save_cg_output]
    raises what [os.makedirs] raises, before it looks at the object. *)
Lemma save_cg_output_no_directory st save_dir scf scm ca cf e :
  path_exists save_dir = false -> makedirs_error save_dir = Some e ->
  save_cg_output save_dir scf scm ca cf st = (Raise e, st, []).
Proof.
  intros H1 H2. unfold save_cg_output.
  apply bind_raise, output_dir_fails; assumption.
Qed.

(** [save_array_or_attr] without an explicit array: the stored array is
    written, or its absence is reported. *)
Lemma save_array_or_attr_default file missing field s :
  write_error file = None ->
  save_array_or_attr file missing None field s =
  (Ok tt, s, [match field s with
              | Some a => SaveArray file a
              | None => Print missing
              end]).
Proof.
  intros Hw. unfold save_array_or_attr, is_None_test.
  destruct (field s) as [a|] eqn:E.
  - rewrite (bind_ok _ _ s true s []) by reflexivity.
    rewrite (bind_ok _ _ s true s []) by (apply (hasattr_Some _ _ a E)).
    cbn [negb].
    rewrite (bind_ok _ _ s a s []) by (unfold attr; rewrite E; reflexivity).
    rewrite (write_ok _ _ _ Hw). reflexivity.
  - rewrite (bind_ok _ _ s true s []) by reflexivity.
    rewrite (bind_ok _ _ s false s []) by (apply (hasattr_None _ _ E)).
    reflexivity.
Qed.

Lemma save_matrix_attr_run file missing field s :
  write_error file = None ->
  save_matrix_attr file missing field s =
  (Ok tt, s, [match field s with
              | Some m => SaveMatrix file m
              | None => Print missing
              end]).
Proof.
  intros Hw. unfold save_matrix_attr.
  destruct (field s) as [a|] eqn:E.
  - rewrite (bind_ok _ _ s true s []) by (apply (hasattr_Some _ _ a E)).
    cbn [negb].
    rewrite (bind_ok _ _ s a s []) by (unfold attr; rewrite E; reflexivity).
    rewrite (write_ok _ _ _ Hw). reflexivity.
  - rewrite (bind_ok _ _ s false s []) by (apply (hasattr_None _ _ E)).
    reflexivity.
Qed.

(** [save_cg_output] on a mapped object up to the embeddings, when the
    directory exists or can be created and the two files can be written:
    what follows is [save_tail]. *)
Lemma save_cg_output_head (st : SampleCollection) (save_dir : string)
    (scf scm : bool) (ca cf : option ndarray)
    (idx : list nat) (traj : Trajectory) (df : list atom_row) :
  cg_atom_indices st = Some idx ->
  input_traj st = Some traj ->
  cg_dataframe st = Some df ->
  let templ := path_join save_dir (get_output_tag [sc_tag st; sc_name st] "before") in
  path_exists save_dir = true \/ makedirs_error save_dir = None ->
  write_error (templ +:+ "cg_structure.pdb") = None ->
  write_error (templ +:+ "cg_embeds.npy") = None ->
  save_cg_output save_dir scf scm ca cf st =
  (let '(r, s2, l2) := SaveParts.save_tail templ scf scm ca cf st in
   (r, s2,
    (if path_exists save_dir then [] else [MakeDirs save_dir])
    ++ [SavePdb (templ +:+ "cg_structure.pdb") (atom_slice_xyz traj idx) df;
        SaveEmbeds (templ +:+ "cg_embeds.npy") (type <$> df)]
    ++ l2)).
Proof.
  intros Hidx Htraj Hdf templ Hdir Hw1 Hw2. unfold save_cg_output.
  rewrite (bind_ok _ _ st tt st (if path_exists save_dir then [] else [MakeDirs save_dir]))
    by (apply output_dir_ready, Hdir).
  rewrite (bind_ok _ _ st true st []) by (apply (hasattr_Some _ _ idx Hidx)).
  cbn [negb]. rewrite (bind_ok _ _ st st st []) by reflexivity.
  fold templ.
  rewrite (bind_ok _ _ st traj st []) by (unfold attr; rewrite Htraj; reflexivity).
  rewrite (bind_ok _ _ st idx st []) by (unfold attr; rewrite Hidx; reflexivity).
  rewrite (bind_ok _ _ st df st []) by (unfold attr; rewrite Hdf; reflexivity).
  rewrite (bind_ok _ _ st tt st [SavePdb (templ +:+ "cg_structure.pdb") (atom_slice_xyz traj idx) df])
    by (apply write_ok, Hw1).
  rewrite (bind_ok _ _ st tt st [SaveEmbeds (templ +:+ "cg_embeds.npy") (type <$> df)])
    by (apply write_ok, Hw2).
  fold (SaveParts.save_tail templ scf scm ca cf).
  destruct (SaveParts.save_tail templ scf scm ca cf st) as [[r s2] l2].
  cbn [app]. reflexivity.
Qed.

(** The whole run of [save_cg_output] on a mapped object without explicit
    arrays, for any choice of the two flags, when the directory exists or
    can be created and the files of the object can be written. *)
Lemma save_cg_output_mapped (st : SampleCollection) (save_dir : string)
    (save_coord_force save_cg_maps : bool)
    (idx : list nat) (traj : Trajectory) (df : list atom_row) :
  cg_atom_indices st = Some idx ->
  input_traj st = Some traj ->
  cg_dataframe st = Some df ->
  let templ := path_join save_dir (get_output_tag [sc_tag st; sc_name st] "before") in
  path_exists save_dir = true \/ makedirs_error save_dir = None ->
  (forall name, write_error (templ +:+ name) = None) ->
  save_cg_output save_dir save_coord_force save_cg_maps None None st =
  (Ok tt, st,
   (if path_exists save_dir then [] else [MakeDirs save_dir])
   ++ [SavePdb (templ +:+ "cg_structure.pdb") (atom_slice_xyz traj idx) df;
       SaveEmbeds (templ +:+ "cg_embeds.npy") (type <$> df)]
   ++ (if save_coord_force
       then [match cg_coords st with
             | Some a => SaveArray (templ +:+ "cg_coords.npy") a
             | None => Print "No coordinates found; only CG structure, embeddings and loaded forces will be saved."
             end;
             match cg_forces st with
             | Some a => SaveArray (templ +:+ "cg_forces.npy") a
             | None => Print "No forces found;  only CG structure, embeddings, and loaded coordinates will be saved."
             end]
       else [])
   ++ (if save_cg_maps
       then [match cg_map st with
             | Some m => SaveMatrix (templ +:+ "cg_coord_map.npy") m
             | None => Print "No cg coordinate map found. Skipping save."
             end;
             match force_map st with
             | Some m => SaveMatrix (templ +:+ "cg_force_map.npy") m
             | None => Print "No cg force map found. Skipping save."
             end]
       else [])).
Proof.
  intros Hidx Htraj Hdf templ Hdir Hw.
  rewrite (save_cg_output_head st save_dir save_coord_force save_cg_maps None None
             idx traj df Hidx Htraj Hdf Hdir (Hw _) (Hw _)).
  fold templ. unfold SaveParts.save_tail.
  rewrite (bind_ok _ _ st tt st
             (if save_coord_force
              then [match cg_coords st with
                    | Some a => SaveArray (templ +:+ "cg_coords.npy") a
                    | None => Print "No coordinates found; only CG structure, embeddings and loaded forces will be saved."
                    end;
                    match cg_forces st with
                    | Some a => SaveArray (templ +:+ "cg_forces.npy") a
                    | None => Print "No forces found;  only CG structure, embeddings, and loaded coordinates will be saved."
                    end]
              else [])); cycle 1.
  { destruct save_coord_force; unfold when; [|reflexivity].
    erewrite bind_ok by apply save_array_or_attr_default, Hw.
    rewrite save_array_or_attr_default by apply Hw. reflexivity. }
  destruct save_cg_maps; unfold when.
  - erewrite bind_ok by apply save_matrix_attr_run, Hw.
    rewrite save_matrix_attr_run by apply Hw.
    destruct save_coord_force; cbn [app]; reflexivity.
  - unfold ret. destruct save_coord_force; cbn [app]; reflexivity.
Qed.

End WithCollaborators.
End SampleProofs.


(** ** [apply_cg_mapping] runs to completion *)

Module MappingProofs.
Import Sample SampleProofs.

Lemma indices_from_lt {A} (p : A -> bool) (l : list A) (i : nat) :
  Forall (fun j => (j < i + length l)%nat) (indices_from p i l).
Proof.
  revert i. induction l as [|x l IH]; intros i; simpl; [constructor|].
  assert (Forall (fun j => (j < i + S (length l))%nat) (indices_from p (S i) l)).
  { eapply Forall_impl; [apply IH|]. simpl. intros; lia. }
  destruct (p x); [constructor; [lia|]|]; assumption.
Qed.

Lemma slice_matrix_ok (n : nat) (idx : list nat) :
  Forall (fun j => (j < n)%nat) idx ->
  exists m, slice_matrix n idx = Ok m /\ length m = length idx.
Proof.
  induction 1 as [|j idx Hj _ [m [IH Hlen]]]; simpl.
  - exists []. split; reflexivity.
  - unfold one_hot. destruct (Nat.ltb_spec j n); [|lia].
    cbn [rbind]. rewrite IH. cbn [rbind]. eexists. split; [reflexivity|].
    simpl. congruence.
Qed.

Section WithCollaborators.
Context {ext : Collaborators}.

Lemma sample_ext (s s' : SampleCollection) :
  sc_name s = sc_name s' -> sc_tag s = sc_tag s' ->
  top_dataframe s = top_dataframe s' -> input_traj s = input_traj s' ->
  embedding_dict s = embedding_dict s' -> cg_atom_indices s = cg_atom_indices s' ->
  cg_dataframe s = cg_dataframe s' -> cg_map s = cg_map s' ->
  N_term s = N_term s' -> C_term s = C_term s' ->
  force_map s = force_map s' -> cg_coords s = cg_coords s' ->
  cg_forces s = cg_forces s' -> s = s'.
Proof.
  destruct s, s'; simpl; intros; subst; reflexivity.
Qed.

(** With the tables loaded, an embedding dictionary of that name and a
    trajectory that has the table's atoms, the mapping returns, and the
    object is as the assignments of the method leave it. *)
Lemma apply_cg_mapping_ok (st : SampleCollection) cg_atoms ef nm d skip top traj :
  embedding_maps nm = Some d ->
  top_dataframe st = Some top ->
  input_traj st = Some traj ->
  (length top <= n_atoms traj)%nat ->
  let top' := map (map_cg_topology cg_atoms ef skip) top in
  exists m log,
    apply_cg_mapping cg_atoms ef (inl nm) skip st =
    (Ok tt,
     mkSample (sc_name st) (sc_tag st) (Some top') (Some traj) (Some d)
       (Some (indices_from mapped 0 top'))
       (Some (renumber_resSeq (renumber_serial (mapped_rows cg_atoms ef skip top))))
       (Some m) (Some None) (Some None)
       (force_map st) (cg_coords st) (cg_forces st),
     log).
Proof.
  intros Hd Htop Htraj Hlen top'.
  destruct (slice_matrix_ok (n_atoms traj) (indices_from mapped 0 top')) as (m & Hm & _).
  { eapply Forall_impl; [apply indices_from_lt|].
    simpl. intros j Hj. unfold top' in Hj. rewrite length_map in Hj. lia. }
  exists m.
  destruct (negb (forallb row_sums_to_one m)) eqn:W1,
           (negb (forallb row_has_one_1 m)) eqn:W2; eexists.
  all: unfold apply_cg_mapping; rewrite Hd.
  all: unfold bind at 1; unfold modify at 1.
  all: unfold bind at 1; unfold attr at 1; cbn [top_dataframe set_embedding_dict].
  all: rewrite Htop; fold top'.
  all: do 3 (unfold bind at 1; unfold modify at 1).
  all: unfold bind at 1; unfold attr at 1.
  all: cbn [input_traj set_embedding_dict set_top_dataframe set_cg_atom_indices
            set_cg_dataframe].
  all: rewrite Htraj.
  all: unfold bind at 1; unfold lift at 1; rewrite Hm.
  all: unfold bind, when, emit, modify, ret; rewrite W1, W2.
  all: cbn [app]; f_equal; f_equal.
  all: apply sample_ext; try reflexivity.
  all: cbn [input_traj set_C_term set_N_term set_cg_map set_cg_dataframe
            set_cg_atom_indices set_top_dataframe set_embedding_dict]; exact Htraj.
Qed.

(** The same, with the slice matrix that the object gets. *)
Lemma apply_cg_mapping_run (st : SampleCollection) cg_atoms ef nm d skip top traj :
  embedding_maps nm = Some d ->
  top_dataframe st = Some top ->
  input_traj st = Some traj ->
  (length top <= n_atoms traj)%nat ->
  let top' := map (map_cg_topology cg_atoms ef skip) top in
  exists m log,
    slice_matrix (n_atoms traj) (indices_from mapped 0 top') = Ok m
    /\ apply_cg_mapping cg_atoms ef (inl nm) skip st =
    (Ok tt,
     mkSample (sc_name st) (sc_tag st) (Some top') (Some traj) (Some d)
       (Some (indices_from mapped 0 top'))
       (Some (renumber_resSeq (renumber_serial (mapped_rows cg_atoms ef skip top))))
       (Some m) (Some None) (Some None)
       (force_map st) (cg_coords st) (cg_forces st),
     log).
Proof.
  intros Hd Htop Htraj Hlen top'.
  destruct (slice_matrix_ok (n_atoms traj) (indices_from mapped 0 top')) as (m & Hm & _).
  { eapply Forall_impl; [apply indices_from_lt|].
    simpl. intros j Hj. unfold top' in Hj. rewrite length_map in Hj. lia. }
  exists m.
  destruct (negb (forallb row_sums_to_one m)) eqn:W1,
           (negb (forallb row_has_one_1 m)) eqn:W2; eexists.
  all: split; [exact Hm|].
  all: unfold apply_cg_mapping; rewrite Hd.
  all: unfold bind at 1; unfold modify at 1.
  all: unfold bind at 1; unfold attr at 1; cbn [top_dataframe set_embedding_dict].
  all: rewrite Htop; fold top'.
  all: do 3 (unfold bind at 1; unfold modify at 1).
  all: unfold bind at 1; unfold attr at 1.
  all: cbn [input_traj set_embedding_dict set_top_dataframe set_cg_atom_indices
            set_cg_dataframe].
  all: rewrite Htraj.
  all: unfold bind at 1; unfold lift at 1; rewrite Hm.
  all: unfold bind, when, emit, modify, ret; rewrite W1, W2.
  all: cbn [app]; f_equal; f_equal.
  all: apply sample_ext; try reflexivity.
  all: cbn [input_traj set_C_term set_N_term set_cg_map set_cg_dataframe
            set_cg_atom_indices set_top_dataframe set_embedding_dict]; exact Htraj.
Qed.

End WithCollaborators.
End MappingProofs.


(** ** Residue renumbering *)

Module RenumberProofs.

Lemma elem_of_insert_desc e l x :
  x ∈ insert_desc e l <-> x = e \/ x ∈ l.
Proof.
  induction l as [|y l IH]; simpl.
  - rewrite elem_of_cons. reflexivity.
  - destruct (snd y <? snd e)%nat; [apply elem_of_cons|].
    rewrite !elem_of_cons, IH. tauto.
Qed.

Lemma elem_of_sort_desc l x : x ∈ sort_desc l <-> x ∈ l.
Proof.
  induction l as [|y l IH]; simpl; [reflexivity|].
  rewrite elem_of_insert_desc, elem_of_cons, IH. reflexivity.
Qed.

Lemma length_insert_desc e l : length (insert_desc e l) = S (length l).
Proof.
  induction l as [|y l IH]; simpl; [reflexivity|].
  destruct (snd y <? snd e)%nat; simpl; congruence.
Qed.

Lemma length_sort_desc l : length (sort_desc l) = length l.
Proof.
  induction l as [|y l IH]; simpl; [reflexivity|].
  rewrite length_insert_desc. congruence.
Qed.

Lemma elem_of_insert_asc k l x :
  x ∈ insert_asc k l <-> x = k \/ x ∈ l.
Proof.
  induction l as [|y l IH]; simpl.
  - rewrite elem_of_cons. reflexivity.
  - destruct (k <=? y)%nat; [apply elem_of_cons|].
    rewrite !elem_of_cons, IH. tauto.
Qed.

Lemma elem_of_sort_asc l x : x ∈ sort_asc l <-> x ∈ l.
Proof.
  induction l as [|y l IH]; simpl; [reflexivity|].
  rewrite elem_of_insert_asc, elem_of_cons, IH. reflexivity.
Qed.

Lemma length_insert_asc k l : length (insert_asc k l) = S (length l).
Proof.
  induction l as [|y l IH]; simpl; [reflexivity|].
  destruct (k <=? y)%nat; simpl; congruence.
Qed.

Lemma length_sort_asc l : length (sort_asc l) = length l.
Proof.
  induction l as [|y l IH]; simpl; [reflexivity|].
  rewrite length_insert_asc. congruence.
Qed.

Lemma elem_of_unique_from seen l x :
  x ∈ unique_from seen l <-> x ∈ l /\ x ∉ seen.
Proof.
  revert seen. induction l as [|y l IH]; intros seen; simpl.
  - split; [intros H; inversion H|intros [H _]; inversion H].
  - case_bool_decide as Hy.
    + rewrite IH, elem_of_cons. split; [tauto|].
      intros [[->|?] ?]; [contradiction|tauto].
    + rewrite !elem_of_cons, IH, not_elem_of_cons.
      destruct (decide (x = y)) as [->|]; tauto.
Qed.

Lemma elem_of_unique l x : x ∈ unique l <-> x ∈ l.
Proof.
  unfold unique. rewrite elem_of_unique_from. split; [tauto|].
  intros H. split; [exact H|]. intros H'. inversion H'.
Qed.

(** The table of counts has one entry per chain present. *)
Lemma length_value_counts cs : length (value_counts cs) = length (unique cs).
Proof.
  unfold value_counts. rewrite length_sort_desc, length_map, length_sort_asc.
  reflexivity.
Qed.

(** Every count in the table is the number of rows of a chain present. *)
Lemma value_counts_entries cs x :
  x ∈ map snd (value_counts cs) -> exists k, k ∈ cs /\ x = count_of k cs.
Proof.
  intros H. rewrite list_elem_of_In, in_map_iff in H.
  destruct H as ([k c] & <- & H).
  rewrite <- list_elem_of_In in H. unfold value_counts in H.
  rewrite elem_of_sort_desc, list_elem_of_In, in_map_iff in H.
  destruct H as (k' & Hk & H).
  rewrite <- list_elem_of_In, elem_of_sort_asc, elem_of_unique in H.
  simplify_eq. eauto.
Qed.

Lemma sum_nat_nonneg l : 0 <= sum_nat l.
Proof. induction l; simpl; lia. Qed.

(** Between two positions of a table of counts that are all at least [w],
    the prefix sums differ by at least [w]. *)
Lemma prefix_sums_apart (w : Z) (l : list nat) (c d : nat) :
  (forall x, x ∈ l -> w <= Z.of_nat x) ->
  (c < d <= length l)%nat ->
  sum_nat (take c l) + w <= sum_nat (take d l).
Proof.
  revert c d. induction l as [|x l IH]; intros c d Hall Hcd; simpl in Hcd; [lia|].
  destruct d as [|d]; [lia|]. destruct c as [|c]; simpl.
  - pose proof (Hall x ltac:(left)). pose proof (sum_nat_nonneg (take d l)). lia.
  - assert (sum_nat (take c l) + w <= sum_nat (take d l)); [|lia].
    apply IH; [|lia]. intros y Hy. apply Hall. right. exact Hy.
Qed.

(** The offsets of two chains that are both numbered below the number of
    chains present differ by at least [w], when every chain has at least
    [w] rows. *)
Lemma chain_offsets_apart (w : Z) (cs : list nat) (c d : nat) :
  (forall k, k ∈ cs -> w <= Z.of_nat (count_of k cs)) ->
  (c < d < length (unique cs))%nat ->
  chain_offset cs c + w <= chain_offset cs d.
Proof.
  intros Hall Hcd. unfold chain_offset.
  rewrite <- !firstn_map.
  change firstn with (@take nat).
  apply prefix_sums_apart.
  - intros x Hx. apply value_counts_entries in Hx as (k & Hk & ->).
    apply Hall, Hk.
  - rewrite length_map, length_value_counts. lia.
Qed.

Lemma imap_chainID (f : nat -> atom_row -> atom_row) (l : list atom_row) :
  (forall i r, chainID (f i r) = chainID r) ->
  map chainID (imap f l) = map chainID l.
Proof.
  revert f. induction l as [|x l IH]; intros f Hf; simpl; [reflexivity|].
  rewrite Hf. f_equal. apply IH. intros i r. apply Hf.
Qed.

Lemma renumber_serial_chainID l :
  map chainID (renumber_serial l) = map chainID l.
Proof. apply imap_chainID. reflexivity. Qed.

(** A row of the renumbered table is a row of the table it was made from,
    with its residue number shifted by its chain's offset. *)
Lemma elem_of_renumbered (rows : list atom_row) (r : atom_row) :
  r ∈ renumber_resSeq (renumber_serial rows) ->
  exists r0, r0 ∈ rows
    /\ chainID r = chainID r0
    /\ name r = name r0
    /\ resSeq r = resSeq r0 + chain_offset (map chainID rows) (chainID r0).
Proof.
  unfold renumber_resSeq. rewrite renumber_serial_chainID.
  intros H. rewrite list_elem_of_In, in_map_iff in H.
  destruct H as (r1 & <- & H).
  rewrite <- list_elem_of_In in H. unfold renumber_serial in H.
  rewrite elem_of_lookup_imap in H. destruct H as (i & r0 & -> & H).
  exists r0. split; [eapply list_elem_of_lookup_2; exact H|].
  repeat split.
Qed.

End RenumberProofs.


(** ** Terminal embeddings *)

Module TerminalProofs.
Import Sample.

(** *** Extremes of a column *)

Lemma fold_max_spec (l : list Z) (a : Z) :
  (fold_left Z.max l a = a \/ fold_left Z.max l a ∈ l)
  /\ a <= fold_left Z.max l a
  /\ forall x, x ∈ l -> x <= fold_left Z.max l a.
Proof.
  revert a. induction l as [|y l IH]; intros a; simpl.
  - split; [left; reflexivity|]. split; [lia|]. intros x Hx. inversion Hx.
  - destruct (IH (Z.max a y)) as (H1 & H2 & H3). split; [|split].
    + destruct H1 as [H1|H1].
      * rewrite H1. destruct (Z.max_spec a y) as [[_ ->]|[_ ->]];
          [right; left|left]; reflexivity.
      * right. right. exact H1.
    + lia.
    + intros x Hx. apply elem_of_cons in Hx as [->|Hx]; [lia|apply H3, Hx].
Qed.

Lemma fold_min_spec (l : list Z) (a : Z) :
  (fold_left Z.min l a = a \/ fold_left Z.min l a ∈ l)
  /\ fold_left Z.min l a <= a
  /\ forall x, x ∈ l -> fold_left Z.min l a <= x.
Proof.
  revert a. induction l as [|y l IH]; intros a; simpl.
  - split; [left; reflexivity|]. split; [lia|]. intros x Hx. inversion Hx.
  - destruct (IH (Z.min a y)) as (H1 & H2 & H3). split; [|split].
    + destruct H1 as [H1|H1].
      * rewrite H1. destruct (Z.min_spec a y) as [[_ ->]|[_ ->]];
          [left|right; left]; reflexivity.
      * right. right. exact H1.
    + lia.
    + intros x Hx. apply elem_of_cons in Hx as [->|Hx]; [lia|apply H3, Hx].
Qed.

(** [column_max] answers the greatest entry, and nothing only on an empty
    column. *)
Lemma column_max_spec (l : list Z) (m : Z) :
  column_max l = Some m <-> m ∈ l /\ forall x, x ∈ l -> x <= m.
Proof.
  destruct l as [|a l]; simpl.
  - split; [discriminate|]. intros [H _]. inversion H.
  - destruct (fold_max_spec l a) as (H1 & H2 & H3). split.
    + intros [= <-]. split.
      * destruct H1 as [->|H1]; [left|right; exact H1].
      * intros x Hx. apply elem_of_cons in Hx as [->|Hx]; [exact H2|apply H3, Hx].
    + intros [Hm Hall]. f_equal. apply Z.le_antisymm.
      * apply Hall. destruct H1 as [->|H1]; [left|right; exact H1].
      * apply elem_of_cons in Hm as [->|Hm]; [exact H2|apply H3, Hm].
Qed.

Lemma column_min_spec (l : list Z) (m : Z) :
  column_min l = Some m <-> m ∈ l /\ forall x, x ∈ l -> m <= x.
Proof.
  destruct l as [|a l]; simpl.
  - split; [discriminate|]. intros [H _]. inversion H.
  - destruct (fold_min_spec l a) as (H1 & H2 & H3). split.
    + intros [= <-]. split.
      * destruct H1 as [->|H1]; [left|right; exact H1].
      * intros x Hx. apply elem_of_cons in Hx as [->|Hx]; [exact H2|apply H3, Hx].
    + intros [Hm Hall]. f_equal. apply Z.le_antisymm.
      * apply elem_of_cons in Hm as [->|Hm]; [exact H2|apply H3, Hm].
      * apply Hall. destruct H1 as [->|H1]; [left|right; exact H1].
Qed.

(** *** The greatest code of a dictionary *)

Lemma dict_max_spec (d : gmap string Z) (m : Z) :
  dict_max d = Ok m <->
  (exists k, d !! k = Some m) /\ forall k v, d !! k = Some v -> v <= m.
Proof.
  unfold dict_max.
  assert (Hin : forall v, v ∈ (map_to_list d).*2 <-> exists k, d !! k = Some v).
  { intros v. rewrite list_elem_of_fmap. split.
    - intros ([k v'] & -> & H). exists k. apply elem_of_map_to_list in H. exact H.
    - intros [k H]. exists (k, v). split; [reflexivity|].
      apply elem_of_map_to_list. exact H. }
  destruct (column_max _) as [m'|] eqn:E.
  - apply column_max_spec in E as [E1 E2]. split.
    + intros [= <-]. split; [apply Hin, E1|].
      intros k v Hk. apply E2, Hin. eauto.
    + intros [[k Hk] Hall]. f_equal. apply Z.le_antisymm.
      * apply Hin in E1 as [k' Hk']. eapply Hall, Hk'.
      * apply E2, Hin. eauto.
  - split; [discriminate|]. intros [[k Hk] _]. exfalso.
    assert (Hm : m ∈ (map_to_list d).*2) by (apply Hin; eauto).
    destruct ((map_to_list d).*2); [inversion Hm|discriminate].
Qed.

(** After a fresh key received the greatest code plus one, that code is the
    greatest. *)
Lemma dict_max_insert (d : gmap string Z) (key : string) (m : Z) :
  dict_max d = Ok m -> d !! key = None ->
  dict_max (<[key := m + 1]> d) = Ok (m + 1).
Proof.
  intros Hm Hk. apply dict_max_spec in Hm as [_ Hall].
  apply dict_max_spec. split.
  - exists key. apply lookup_insert_eq.
  - intros k v. destruct (decide (key = k)) as [->|Hne].
    + rewrite lookup_insert_eq. intros [= <-]. lia.
    + rewrite lookup_insert_ne by exact Hne. intros H. apply Hall in H. lia.
Qed.

End TerminalProofs.

Module TerminalRows.
Import Sample.

Lemma elem_of_indices_from {A} (p : A -> bool) (l : list A) (i j : nat) :
  j ∈ indices_from p i l <->
  exists k x, j = (i + k)%nat /\ l !! k = Some x /\ p x = true.
Proof.
  revert i. induction l as [|y l IH]; intros i; simpl.
  - split; [intros H; inversion H|]. intros (k & x & _ & H & _). discriminate.
  - assert (Hrest : j ∈ indices_from p (S i) l <->
              exists k x, j = (i + S k)%nat /\ l !! k = Some x /\ p x = true).
    { rewrite IH. split; intros (k & x & -> & H); exists k, x;
        (split; [lia|exact H]). }
    destruct (p y) eqn:Hy.
    + rewrite elem_of_cons, Hrest. split.
      * intros [->|(k & x & -> & H)].
        -- exists 0%nat, y. split; [lia|]. split; [reflexivity|exact Hy].
        -- exists (S k), x. split; [reflexivity|exact H].
      * intros ([|k] & x & -> & H1 & H2).
        -- left. lia.
        -- right. exists k, x. split; [reflexivity|]. split; assumption.
    + rewrite Hrest. split.
      * intros (k & x & -> & H). exists (S k), x. split; [reflexivity|exact H].
      * intros ([|k] & x & -> & H1 & H2).
        -- simpl in H1. injection H1 as ->. congruence.
        -- exists k, x. split; [reflexivity|]. split; assumption.
Qed.

(** A position is among the terminal atoms exactly when its row is the
    terminal row of its own chain. *)
Lemma elem_of_terminal_atoms pick nm (df : list atom_row) (i : nat) :
  i ∈ terminal_atoms pick nm df <->
  exists r, df !! i = Some r /\ is_terminal pick nm df (chainID r) r = true.
Proof.
  unfold terminal_atoms.
  rewrite list_elem_of_In, in_flat_map. split.
  - intros (chain & _ & H). rewrite <- list_elem_of_In in H.
    apply elem_of_indices_from in H as (k & r & -> & Hk & Hr).
    exists r. split; [exact Hk|].
    assert (chainID r = chain) as ->; [|exact Hr].
    unfold is_terminal in Hr. rewrite !andb_true_iff in Hr.
    destruct Hr as [_ Hr]. apply bool_decide_eq_true in Hr. exact Hr.
  - intros (r & Hi & Hr). exists (chainID r). split.
    + rewrite <- list_elem_of_In. apply RenumberProofs.elem_of_unique.
      apply list_elem_of_fmap. exists r. split; [reflexivity|].
      eapply list_elem_of_lookup_2, Hi.
    + rewrite <- list_elem_of_In. apply elem_of_indices_from.
      exists i, r. split; [reflexivity|]. split; assumption.
Qed.

(** *** Overwriting codes position by position *)

Lemma with_type_idem c r : with_type c (with_type c r) = with_type c r.
Proof. reflexivity. Qed.

Lemma lookup_set_types (c : Z) (idx : list nat) (df : list atom_row) (i : nat) :
  set_types c idx df !! i =
  if bool_decide (i ∈ idx) then with_type c <$> df !! i else df !! i.
Proof.
  unfold set_types. revert df.
  induction idx as [|j idx IH]; intros df; cbn [fold_left].
  - rewrite bool_decide_eq_false_2; [reflexivity|]. intros H; inversion H.
  - rewrite IH. destruct (decide (i = j)) as [->|Hne].
    + rewrite (bool_decide_eq_true_2 (j ∈ j :: idx)) by left.
      rewrite list_lookup_alter_eq.
      destruct (bool_decide (j ∈ idx)); [|reflexivity].
      destruct (df !! j); reflexivity.
    + rewrite list_lookup_alter_ne by congruence.
      destruct (bool_decide_reflect (i ∈ idx)) as [H|H].
      * rewrite bool_decide_eq_true_2 by (right; exact H). reflexivity.
      * rewrite bool_decide_eq_false_2; [reflexivity|].
        intros H'. apply elem_of_cons in H' as [?|?]; contradiction.
Qed.

Lemma length_set_types c idx df : length (set_types c idx df) = length df.
Proof.
  unfold set_types. revert df. induction idx as [|j idx IH]; intros df; simpl;
    [reflexivity|]. rewrite IH. apply length_alter.
Qed.

(** Overwriting codes changes none of the columns the selection reads. *)
Lemma set_types_columns c idx df :
  (fun r => (resSeq r, name r, chainID r)) <$> set_types c idx df
  = (fun r => (resSeq r, name r, chainID r)) <$> df.
Proof.
  apply list_eq. intros i. rewrite !list_lookup_fmap, lookup_set_types.
  destruct (bool_decide (i ∈ idx)); [|reflexivity].
  destruct (df !! i); reflexivity.
Qed.

Lemma columns_chain_resSeq (df1 df2 : list atom_row) (chain : nat) :
  (fun r => (resSeq r, name r, chainID r)) <$> df1
  = (fun r => (resSeq r, name r, chainID r)) <$> df2 ->
  resSeq <$> filter (fun x => chainID x = chain) df1
  = resSeq <$> filter (fun x => chainID x = chain) df2.
Proof.
  revert df2. induction df1 as [|a l1 IH]; intros [|b l2] H; simpl in H;
    try discriminate; [reflexivity|].
  injection H as H1 H2 H3 H. rewrite !filter_cons, <- H3.
  destruct (decide (chainID a = chain)); rewrite ?fmap_cons, (IH l2 H); congruence.
Qed.

Lemma columns_indices_from (p q : atom_row -> bool) (df1 df2 : list atom_row) (i : nat) :
  (fun r => (resSeq r, name r, chainID r)) <$> df1
  = (fun r => (resSeq r, name r, chainID r)) <$> df2 ->
  (forall a b, resSeq a = resSeq b -> name a = name b -> chainID a = chainID b ->
               p a = q b) ->
  indices_from p i df1 = indices_from q i df2.
Proof.
  intros H Hpq. revert df2 i H.
  induction df1 as [|a l1 IH]; intros [|b l2] i H; simpl in H;
    try discriminate; [reflexivity|].
  injection H as H1 H2 H3 H. simpl. rewrite (Hpq a b H1 H2 H3), (IH l2 (S i) H).
  reflexivity.
Qed.

(** So the selection made after the first overwrite is the one the table
    gave before it. *)
Lemma terminal_atoms_columns pick nm (df1 df2 : list atom_row) :
  (fun r => (resSeq r, name r, chainID r)) <$> df1
  = (fun r => (resSeq r, name r, chainID r)) <$> df2 ->
  terminal_atoms pick nm df1 = terminal_atoms pick nm df2.
Proof.
  intros H. unfold terminal_atoms.
  assert (Hc : chainID <$> df1 = chainID <$> df2).
  { apply (f_equal (fmap snd)) in H. rewrite <- !list_fmap_compose in H. exact H. }
  rewrite Hc. apply flat_map_ext. intros chain.
  apply columns_indices_from; [exact H|].
  intros a b H1 H2 H3. unfold is_terminal.
  rewrite (columns_chain_resSeq df1 df2 chain H), H1, H2, H3. reflexivity.
Qed.

End TerminalRows.

Module TerminalRun.
Import Sample SampleProofs MappingProofs TerminalProofs TerminalRows.

Section WithCollaborators.
Context {ext : Collaborators}.

(** One terminus: the dictionary gets the key if it lacks it, and the rows
    selected get the code. *)
Lemma assign_terminal_run key pick term (st : SampleCollection) df d m :
  cg_dataframe st = Some df ->
  embedding_dict st = Some d ->
  dict_max d = Ok m ->
  assign_terminal key pick term st =
  (Ok tt,
   set_cg_dataframe (rows_after pick term (code_of key d m) df)
     (set_embedding_dict (dict_after key term d m) st),
   []).
Proof.
  intros Hdf Hd Hm. unfold assign_terminal, rows_after, dict_after, code_of.
  destruct term as [nm|].
  - unfold terminal_code, bind, attr, lift, modify, ret. rewrite Hd.
    destruct (d !! key) as [c|] eqn:Hk.
    + rewrite Hdf. cbn [app default]. f_equal. f_equal.
      apply sample_ext; try reflexivity. exact Hd.
    + rewrite Hm. cbn [cg_dataframe set_embedding_dict]. rewrite Hdf.
      reflexivity.
  - unfold ret. f_equal. f_equal.
    destruct (d !! key); apply sample_ext; try reflexivity; assumption.
Qed.

Lemma dict_after_other key term (d : gmap string Z) m k :
  k <> key -> dict_after key term d m !! k = d !! k.
Proof.
  intros Hk. unfold dict_after. destruct term; [|reflexivity].
  destruct (d !! key); [reflexivity|]. apply lookup_insert_ne. congruence.
Qed.

Lemma dict_after_key key nm (d : gmap string Z) m :
  dict_after key (Some nm) d m !! key = Some (code_of key d m).
Proof.
  unfold dict_after, code_of. destruct (d !! key) as [c|] eqn:E.
  - rewrite E. reflexivity.
  - apply lookup_insert_eq.
Qed.

Lemma dict_after_None key (d : gmap string Z) m : dict_after key None d m = d.
Proof. reflexivity. Qed.

(** The dictionary after one terminus still has a greatest code. *)
Lemma dict_after_max key term d m :
  dict_max d = Ok m ->
  exists m', dict_max (dict_after key term d m) = Ok m'
    /\ m <= m' <= m + 1
    /\ (forall nm, term = Some nm -> code_of key d m <= m').
Proof.
  intros Hm. unfold dict_after, code_of.
  destruct term as [nm|]; [destruct (d !! key) as [c|] eqn:Hk|].
  - exists m. split; [exact Hm|]. split; [lia|]. intros _ _. simpl.
    apply dict_max_spec in Hm as [_ Hall]. eapply Hall, Hk.
  - exists (m + 1). split; [apply dict_max_insert; assumption|].
    split; [lia|]. intros _ _. simpl. lia.
  - exists m. split; [destruct (d !! key); exact Hm|]. split; [lia|].
    intros nm H. discriminate.
Qed.

(** The whole method. *)
Lemma add_terminal_embeddings_run N C (st : SampleCollection) df d m :
  cg_dataframe st = Some df ->
  embedding_dict st = Some d ->
  dict_max d = Ok m ->
  exists m1,
    dict_max (dict_after "N_term" N d m) = Ok m1
    /\ m <= m1 <= m + 1
    /\ (forall nm, N = Some nm -> code_of "N_term" d m <= m1)
    /\ add_terminal_embeddings N C st =
       (Ok tt,
        set_cg_dataframe
          (rows_after column_max C (code_of "C_term" (dict_after "N_term" N d m) m1)
             (rows_after column_min N (code_of "N_term" d m) df))
          (set_embedding_dict
             (dict_after "C_term" C (dict_after "N_term" N d m) m1)
             (set_cg_dataframe (rows_after column_min N (code_of "N_term" d m) df)
                (set_embedding_dict (dict_after "N_term" N d m)
                   (set_C_term C (set_N_term N st))))),
        []).
Proof.
  intros Hdf Hd Hm.
  destruct (dict_after_max "N_term" N d m Hm) as (m1 & Hm1 & Hb & Hc).
  exists m1. split; [exact Hm1|]. split; [exact Hb|]. split; [exact Hc|].
  unfold add_terminal_embeddings.
  rewrite (bind_ok _ _ st df st []) by (unfold attr; rewrite Hdf; reflexivity).
  rewrite (bind_ok _ _ st tt (set_N_term N st) []) by reflexivity.
  rewrite (bind_ok _ _ _ tt (set_C_term C (set_N_term N st)) []) by reflexivity.
  erewrite bind_ok; cycle 1.
  { apply (assign_terminal_run _ _ _ _ df d m); [exact Hdf|exact Hd|exact Hm]. }
  erewrite (assign_terminal_run _ _ _ _ _ _ m1); [reflexivity|reflexivity|reflexivity|].
  exact Hm1.
Qed.

End WithCollaborators.
End TerminalRun.

Module TerminalSpec.
Import Sample TerminalProofs TerminalRows.

Lemma elem_of_chain_resSeq (df : list atom_row) (chain : nat) (x : Z) :
  x ∈ resSeq <$> filter (fun r => chainID r = chain) df <->
  exists r, r ∈ df /\ chainID r = chain /\ resSeq r = x.
Proof.
  rewrite list_elem_of_fmap. split.
  - intros (r & -> & Hr). apply list_elem_of_filter in Hr as [Hc Hr]. eauto.
  - intros (r & Hr & Hc & <-). exists r. split; [reflexivity|].
    apply list_elem_of_filter. split; assumption.
Qed.

(** The N-terminal rows: the requested name, at the least residue number
    of their chain. *)
Lemma chain_terminal_min (df : list atom_row) (r : atom_row) (nm : string) :
  r ∈ df ->
  chain_terminal column_min (Some nm) df r = true <->
  name r = nm
  /\ forall r2, r2 ∈ df -> chainID r2 = chainID r -> resSeq r <= resSeq r2.
Proof.
  intros Hr. unfold chain_terminal, is_terminal.
  rewrite !andb_true_iff, !bool_decide_eq_true. split.
  - intros [[Hm Hn] _]. split; [exact Hn|]. symmetry in Hm.
    apply column_min_spec in Hm as [_ Hall].
    intros r2 H2 Hc. apply Hall, elem_of_chain_resSeq. eauto.
  - intros [Hn Hall]. split; [split; [|exact Hn]|reflexivity].
    symmetry. apply column_min_spec. split.
    + apply elem_of_chain_resSeq. eauto.
    + intros x Hx. apply elem_of_chain_resSeq in Hx as (r2 & H2 & Hc & <-).
      apply Hall; assumption.
Qed.

(** The C-terminal rows: the requested name, at the greatest residue
    number of their chain. *)
Lemma chain_terminal_max (df : list atom_row) (r : atom_row) (nm : string) :
  r ∈ df ->
  chain_terminal column_max (Some nm) df r = true <->
  name r = nm
  /\ forall r2, r2 ∈ df -> chainID r2 = chainID r -> resSeq r2 <= resSeq r.
Proof.
  intros Hr. unfold chain_terminal, is_terminal.
  rewrite !andb_true_iff, !bool_decide_eq_true. split.
  - intros [[Hm Hn] _]. split; [exact Hn|]. symmetry in Hm.
    apply column_max_spec in Hm as [_ Hall].
    intros r2 H2 Hc. apply Hall, elem_of_chain_resSeq. eauto.
  - intros [Hn Hall]. split; [split; [|exact Hn]|reflexivity].
    symmetry. apply column_max_spec. split.
    + apply elem_of_chain_resSeq. eauto.
    + intros x Hx. apply elem_of_chain_resSeq in Hx as (r2 & H2 & Hc & <-).
      apply Hall; assumption.
Qed.

(** A row after one terminus, read against the table that made the
    selection. *)
Lemma rows_after_lookup pick term c (df0 df : list atom_row) i r0 r :
  (fun r => (resSeq r, name r, chainID r)) <$> df0
  = (fun r => (resSeq r, name r, chainID r)) <$> df ->
  df0 !! i = Some r0 -> df !! i = Some r ->
  rows_after pick term c df0 !! i =
  Some (if chain_terminal pick term df r then with_type c r0 else r0).
Proof.
  intros Hcol H0 H. unfold rows_after, chain_terminal.
  destruct term as [nm|]; [|exact H0].
  rewrite lookup_set_types, (terminal_atoms_columns pick nm df0 df Hcol), H0.
  destruct (is_terminal pick nm df (chainID r) r) eqn:E.
  - rewrite bool_decide_eq_true_2; [reflexivity|].
    apply elem_of_terminal_atoms. eauto.
  - rewrite bool_decide_eq_false_2; [reflexivity|].
    intros Hin. apply elem_of_terminal_atoms in Hin as (r' & Hr' & Ht).
    congruence.
Qed.

Lemma rows_after_columns pick term c (df : list atom_row) :
  (fun r => (resSeq r, name r, chainID r)) <$> rows_after pick term c df
  = (fun r => (resSeq r, name r, chainID r)) <$> df.
Proof.
  unfold rows_after. destruct term; [apply set_types_columns|reflexivity].
Qed.

Lemma rows_after_length pick term c (df : list atom_row) :
  length (rows_after pick term c df) = length df.
Proof.
  unfold rows_after. destruct term; [apply length_set_types|reflexivity].
Qed.

(** Both termini, one after the other. *)
Lemma rows_after_both (N C : option string) (cN cC : Z) (df : list atom_row) i r :
  df !! i = Some r ->
  rows_after column_max C cC (rows_after column_min N cN df) !! i =
  Some (with_type (if chain_terminal column_max C df r then cC
                   else if chain_terminal column_min N df r then cN
                   else type r) r).
Proof.
  intros H.
  rewrite (rows_after_lookup column_max C cC _ df i
             (if chain_terminal column_min N df r then with_type cN r else r) r).
  - destruct (chain_terminal column_max C df r),
             (chain_terminal column_min N df r); destruct r; reflexivity.
  - apply rows_after_columns.
  - apply rows_after_lookup; [reflexivity|exact H|exact H].
  - exact H.
Qed.

(** The column of embedding codes after both termini, and the other
    columns. *)
Lemma rows_after_both_types (N C : option string) (cN cC : Z) (df : list atom_row) :
  type <$> rows_after column_max C cC (rows_after column_min N cN df)
  = (fun r => if chain_terminal column_max C df r then cC
              else if chain_terminal column_min N df r then cN
              else type r) <$> df.
Proof.
  apply list_eq. intros i. rewrite !list_lookup_fmap.
  destruct (df !! i) as [r|] eqn:E.
  - rewrite (rows_after_both N C cN cC df i r E). reflexivity.
  - apply lookup_ge_None in E.
    rewrite (proj2 (lookup_ge_None _ _)); [reflexivity|].
    rewrite !rows_after_length. exact E.
Qed.

Lemma rows_after_both_kept (N C : option string) (cN cC : Z) (df : list atom_row) :
  (fun r => (serial r, name r, resSeq r, resName r, chainID r, mapped r))
    <$> rows_after column_max C cC (rows_after column_min N cN df)
  = (fun r => (serial r, name r, resSeq r, resName r, chainID r, mapped r)) <$> df.
Proof.
  apply list_eq. intros i. rewrite !list_lookup_fmap.
  destruct (df !! i) as [r|] eqn:E.
  - rewrite (rows_after_both N C cN cC df i r E). reflexivity.
  - apply lookup_ge_None in E.
    rewrite (proj2 (lookup_ge_None _ _)); [reflexivity|].
    rewrite !rows_after_length. exact E.
Qed.

End TerminalSpec.


(** ** Bond repair *)

Module RepairProofs.
Import Sample.

Lemma consecutive_cons2 a b l :
  consecutive (a :: b :: l) = (a, b) :: consecutive (b :: l).
Proof. reflexivity. Qed.

Lemma bond_chain_spec (t : Topology) (ch : list Atom) :
  chains (bond_chain t ch) = chains t
  /\ bonds (bond_chain t ch) = bonds t ++ map bond_of (consecutive ch).
Proof.
  unfold bond_chain. generalize (consecutive ch) as ps. intros ps. revert t.
  induction ps as [|p ps IH]; intros t; simpl.
  - rewrite app_nil_r. split; reflexivity.
  - destruct (IH (add_bond (fst p) (snd p) t)) as [H1 H2].
    rewrite H1, H2. split; [reflexivity|].
    unfold add_bond at 1. cbn [bonds]. rewrite <- app_assoc.
    destruct p; reflexivity.
Qed.

Lemma fold_bond_chain (chs : list (list Atom)) (t : Topology) :
  chains (fold_left bond_chain chs t) = chains t
  /\ bonds (fold_left bond_chain chs t)
     = bonds t ++ flat_map (fun ch => map bond_of (consecutive ch)) chs.
Proof.
  revert t. induction chs as [|ch chs IH]; intros t; simpl.
  - rewrite app_nil_r. split; reflexivity.
  - destruct (IH (bond_chain t ch)) as [H1 H2].
    destruct (bond_chain_spec t ch) as [H3 H4].
    rewrite H1, H2, H3, H4, <- app_assoc. split; reflexivity.
Qed.

(** The guard of the repair: there are atoms and all are called CA. *)
Lemma only_CA (t : Topology) :
  atoms t <> [] -> (forall a, a ∈ atoms t -> a_name a = "CA") ->
  unique_atom_types t = {["CA"]}.
Proof.
  intros Hne Hall. unfold unique_atom_types. apply set_eq. intros x.
  rewrite elem_of_list_to_set, elem_of_singleton, list_elem_of_fmap. split.
  - intros (a & -> & Ha). apply Hall, Ha.
  - intros ->. destruct (atoms t) as [|a l] eqn:E; [contradiction|].
    exists a. split; [symmetry; apply Hall|]; left.
Qed.

(** Atoms numbered in a row give bonds from each index to the next. *)
Lemma consecutive_in_a_row (ch : list Atom) (first : nat) :
  a_index <$> ch = seq first (length ch) ->
  map bond_of (consecutive ch)
  = (fun k => (first + k, S (first + k))%nat) <$> seq 0 (length ch - 1).
Proof.
  revert first. induction ch as [|a ch IH]; intros first H; [reflexivity|].
  destruct ch as [|b l]; [reflexivity|].
  rewrite consecutive_cons2. cbn [map].
  cbn [fmap list_fmap length seq] in H. injection H as Ha Hb Hl.
  rewrite (IH (S first)) by (cbn [fmap list_fmap length seq]; congruence).
  cbn [length]. replace (S (S (length l)) - 1)%nat with (S (length l)) by lia.
  replace (S (length l) - 1)%nat with (length l) by lia.
  cbn [seq fmap list_fmap]. f_equal.
  - unfold bond_of. cbn [fst snd]. rewrite Ha, Hb.
    rewrite (proj2 (Nat.ltb_lt first (S first))) by lia.
    f_equal; lia.
  - rewrite <- seq_shift.
    change (map S (seq 0 (length l))) with (S <$> seq 0 (length l)).
    rewrite <- list_fmap_compose. apply list_fmap_ext. intros _ k _. simpl.
    f_equal; lia.
Qed.

Lemma seq_middle {A} (f : A -> nat) (l1 l2 l3 : list A) (s n : nat) :
  f <$> (l1 ++ l2 ++ l3) = seq s n ->
  f <$> l1 = seq s (length l1)
  /\ f <$> l2 = seq (s + length l1) (length l2)
  /\ f <$> l3 = seq (s + length l1 + length l2) (length l3).
Proof.
  intros H.
  assert (Hn : n = (length l1 + (length l2 + length l3))%nat).
  { apply (f_equal length) in H.
    rewrite length_fmap, !length_app, length_seq in H. lia. }
  rewrite Hn, !fmap_app, !seq_app in H.
  apply app_inj_1 in H as [H1 H]; [|rewrite length_fmap, length_seq; reflexivity].
  apply app_inj_1 in H as [H2 H3]; [|rewrite length_fmap, length_seq; reflexivity].
  repeat split; assumption.
Qed.

(** The bonds made for chains numbered in a row from [s] stay within the
    indices of those chains. *)
Lemma repaired_bonds_range (chs : list (list Atom)) (s : nat) (b : nat * nat) :
  a_index <$> concat chs = seq s (length (concat chs)) ->
  b ∈ flat_map (fun ch => map bond_of (consecutive ch)) chs ->
  (s <= fst b /\ snd b < s + length (concat chs))%nat.
Proof.
  revert s. induction chs as [|ch chs IH]; intros s H Hb; [inversion Hb|].
  cbn [flat_map concat] in *.
  destruct (seq_middle a_index [] ch (concat chs) s _ H) as (_ & Hch & Hrest).
  cbn [length] in Hch, Hrest. rewrite Nat.add_0_r in Hch, Hrest.
  rewrite length_app. apply elem_of_app in Hb as [Hb|Hb].
  - rewrite (consecutive_in_a_row ch s Hch) in Hb.
    apply list_elem_of_fmap in Hb as (k & -> & Hk).
    apply elem_of_seq in Hk. cbn [fst snd]. lia.
  - destruct (IH _ Hrest Hb). lia.
Qed.

Lemma filter_none {A} (P : A -> Prop) `{forall x, Decision (P x)} (l : list A) :
  (forall x, x ∈ l -> ~ P x) -> filter P l = [].
Proof.
  induction l as [|x l IH]; intros Hall; [reflexivity|].
  rewrite filter_cons_False by (apply Hall; left).
  apply IH. intros y Hy. apply Hall. right. exact Hy.
Qed.

Lemma filter_all {A} (P : A -> Prop) `{forall x, Decision (P x)} (l : list A) :
  (forall x, x ∈ l -> P x) -> filter P l = l.
Proof.
  induction l as [|x l IH]; intros Hall; [reflexivity|].
  rewrite filter_cons_True by (apply Hall; left).
  f_equal. apply IH. intros y Hy. apply Hall. right. exact Hy.
Qed.

End RepairProofs.

(** * The stated properties *)

Import Strides Batch StridesProofs BatchProofs WindowFacts.

(** [get_strides] keeps the batch size in a [float64] array: a batch size
    above 2^53 is rounded, and the windows no longer end with the frames. *)
Example get_strides_rounds_large_batch :
  get_strides (2 ^ 53 + 1) (2 ^ 53 + 1) = Ok [(0, 2 ^ 53)].
Proof. vm_compute. reflexivity. Qed.

(** C7. For n > 0 retained frames and a batch size b with 0 < b <= n that a
    [float64] holds exactly (b <= 2^53), the batch object cuts the strided
    frames into the ranges [start, end) that start at 0, follow one another
    without gap or overlap and end at n; every range holds b frames, except
    that the last one holds n mod b frames when b does not divide n; the
    length of the object is the number of ranges, the ceiling of n / b. *)
Theorem C7_batch_windows_tile_frames {frame embeds nls : Type}
    (coords forces : list frame) (emb : embeds) (nl : nls)
    (b str : Z) (w : option (list tval)) (concat : bool) :
  0 < str ->
  let n := Z.of_nat (length (kept str coords)) in
  0 < n -> 0 < b <= n -> b <= 2 ^ 53 ->
  exists obj,
    init coords forces emb nl b str w concat = Ok obj
    /\ cg_coords obj = kept str coords
    /\ batch_size obj = b
    /\ len obj = length (strides obj)
    /\ Z.of_nat (len obj) = (n + b - 1) / b
    /\ (exists e, strides obj !! 0%nat = Some (0, e))
    /\ (forall i s e s' e',
          strides obj !! i = Some (s, e) ->
          strides obj !! S i = Some (s', e') -> s' = e)
    /\ (exists s, last (strides obj) = Some (s, n))
    /\ (forall i s e,
          strides obj !! i = Some (s, e) ->
          0 <= s < e /\ e <= n
          /\ ((S i < len obj)%nat -> e - s = b)
          /\ (S i = len obj -> e - s = if n mod b =? 0 then b else n mod b)).
Proof.
  intros Hs n Hn Hb Hb53.
  assert (Hcap : (if n <? b then n else b) = b).
  { destruct (Z.ltb_spec n b); lia. }
  pose proof (get_strides_closed n b ltac:(lia) Hb53 ltac:(lia)) as Hst.
  pose proof (n_windows_pos n b ltac:(lia) Hn) as Hk.
  eexists. split.
  { apply init_ok; [exact Hs|]. fold n. rewrite Hcap. exact Hst. }
  fold n. cbn [cg_coords batch_size strides len n_elem].
  rewrite length_map, length_seq.
  split; [reflexivity|]. split; [exact Hcap|]. split; [reflexivity|].
  split. { unfold n_windows. apply Z2Nat.id. apply Z.div_pos; lia. }
  split. { eexists. apply lookup_windows. split; [exact Hk|reflexivity]. }
  split.
  { intros i s e s' e' H1 H2.
    apply lookup_windows in H1 as [_ H1], H2 as [Hi H2].
    pose proof (window_full n b i ltac:(lia) ltac:(lia) Hi).
    unfold window in H1, H2. rewrite Z.min_l in H1 by lia.
    inversion H1; inversion H2; subst. lia. }
  split.
  { destruct (n_windows n b) as [|k] eqn:E; [lia|].
    rewrite last_windows.
    pose proof (window_size n b k ltac:(lia) Hn ltac:(lia)) as Hw.
    destruct (window n b k) as [s e]. destruct Hw as (_ & _ & _ & Hl).
    destruct (Hl ltac:(lia)) as [-> _]. eexists; reflexivity. }
  intros i s e H. apply lookup_windows in H as [Hi H].
  pose proof (window_size n b i ltac:(lia) Hn Hi) as Hw.
  rewrite <- H in Hw. destruct Hw as (H1 & H2 & H3 & H4).
  split; [lia|]. split; [lia|]. split; [exact H3|].
  intros Hl. apply H4, Hl.
Qed.

(** A batch object over 5 frames in batches of 2: windows (0,2), (2,4), (4,5). *)
Lemma C7_batch_windows_witness :
  exists obj,
    init [tt; tt; tt; tt; tt] [tt; tt; tt; tt; tt] tt tt 2 1 None false = Ok obj
    /\ strides obj = [(0, 2); (2, 4); (4, 5)] /\ len obj = 3%nat.
Proof.
  destruct (C7_batch_windows_tile_frames
              [tt; tt; tt; tt; tt] [tt; tt; tt; tt; tt] tt tt 2 1 None false)
    as (obj & Hobj & _); [lia | simpl; lia | simpl; lia | lia |].
  exists obj. split; [exact Hobj|].
  vm_compute in Hobj. injection Hobj as <-. split; reflexivity.
Defined.

(** C10 as stated fails when no frame is retained: the batch size is capped
    to 0 and the object holds no batch at all. *)
Lemma C10_no_frames_no_batch :
  exists obj,
    init ([] : list unit) [] tt tt 1 1 None false = Ok obj
    /\ Z.of_nat (length (cg_coords obj)) < 1
    /\ batch_size obj = 0
    /\ strides obj = []
    /\ len obj <> 1%nat.
Proof.
  eexists. split; [reflexivity|]. cbn. repeat split; try lia; discriminate.
Qed.

(** C10 (amended). When at least one frame is retained and the requested
    batch size exceeds the number n of retained frames (a number that a
    [float64] holds exactly, n <= 2^53), the effective batch size is n and
    the object holds exactly one batch, the range [0, n) of all retained
    frames. *)
Theorem C10_oversized_batch_is_capped {frame embeds nls : Type}
    (coords forces : list frame) (emb : embeds) (nl : nls)
    (b str : Z) (w : option (list tval)) (concat : bool) :
  0 < str ->
  let n := Z.of_nat (length (kept str coords)) in
  0 < n -> n <= 2 ^ 53 -> n < b ->
  exists obj,
    init coords forces emb nl b str w concat = Ok obj
    /\ cg_coords obj = kept str coords
    /\ batch_size obj = n
    /\ strides obj = [(0, n)]
    /\ len obj = 1%nat.
Proof.
  intros Hs n Hn Hn53 Hb.
  assert (Hcap : (if n <? b then n else b) = n).
  { destruct (Z.ltb_spec n b); lia. }
  pose proof (get_strides_closed n n Hn Hn53 ltac:(lia)) as Hst.
  assert (Hk : n_windows n n = 1%nat).
  { unfold n_windows. replace ((n + n - 1) / n) with 1; [reflexivity|].
    apply (Z.div_unique _ _ 1 (n - 1)); lia. }
  rewrite Hk in Hst. cbn [seq map] in Hst. unfold window in Hst.
  change (Z.of_nat 0 * n) with 0 in Hst. rewrite Z.min_l in Hst by lia.
  eexists. split.
  { apply init_ok; [exact Hs|]. fold n. rewrite Hcap. exact Hst. }
  fold n. cbn. rewrite Hcap. repeat split.
Qed.

(** Three frames, batches of 8 requested: one batch (0, 3). *)
Lemma C10_oversized_batch_witness :
  exists obj,
    init [tt; tt; tt] [tt; tt; tt] tt tt 8 1 None false = Ok obj
    /\ batch_size obj = 3 /\ strides obj = [(0, 3)] /\ len obj = 1%nat.
Proof.
  destruct (C10_oversized_batch_is_capped [tt; tt; tt] [tt; tt; tt] tt tt 8 1 None false)
    as (obj & H1 & _ & H2 & H3 & H4); [lia | simpl; lia | simpl; lia | simpl; lia |].
  exists obj. repeat split; assumption.
Defined.


(** The sum of an int64 tensor wraps around: of the weights
    [2^62, 0, 2^62, 0] a stride of 2 retains [2^62, 2^62], whose sum in
    int64 is -2^63, and the stored weights are -1/2 twice. *)
Example int64_weights_sum_wraps :
  exists obj q,
    init [tt; tt; tt; tt] [tt; tt; tt; tt] tt tt 2 2
         (Some [Int (2 ^ 62); Int 0; Int (2 ^ 62); Int 0]) false = Ok obj
    /\ weights obj = Some [Fin q; Fin q]
    /\ q == - (1 # 2).
Proof. eexists. eexists. split; [reflexivity|]. split; reflexivity. Qed.



Import Sample SampleProofs.

Section SaveProperties.
Context {ext : Collaborators}.

(** C8. When [apply_cg_mapping] has not run (the object has no
    [cg_atom_indices]) and the output directory exists or can be created,
    [save_cg_output] prints that the CG mapping must be applied first and
    returns: whatever its other arguments, the object is unchanged and
    nothing is saved; at most the output directory is created. *)
Theorem C8_save_before_mapping_reports (st : SampleCollection) (save_dir : string)
    (save_coord_force save_cg_maps : bool) (cg_coords_arg cg_forces_arg : option ndarray) :
  cg_atom_indices st = None ->
  path_exists save_dir = true \/ makedirs_error save_dir = None ->
  exists log,
    save_cg_output save_dir save_coord_force save_cg_maps cg_coords_arg cg_forces_arg st
    = (Ok tt, st, log)
    /\ log = (if path_exists save_dir then [] else [MakeDirs save_dir])
             ++ [Print "CG mapping must be applied before outputs can be saved."]
    /\ Forall (fun e => is_save e = false) log.
Proof.
  intros H Hdir. eexists. split; [|split; [reflexivity|]].
  - unfold save_cg_output.
    rewrite (bind_ok _ _ st tt st (if path_exists save_dir then [] else [MakeDirs save_dir]))
      by (apply output_dir_ready, Hdir).
    rewrite (bind_ok _ _ st false st []) by (apply (hasattr_None _ _ H)).
    cbn [negb]. unfold emit. rewrite app_nil_l. reflexivity.
  - destruct (path_exists save_dir); repeat constructor.
Qed.

(** C9. Once the mapping has been applied, and when the output directory
    exists or can be created and the files of the object can be written in
    it, [save_cg_output] called with [save_coord_force] true and no explicit
    arrays returns normally and writes the CG structure and the embeddings;
    for coordinates and for forces it writes the stored array when there is
    one and otherwise prints which part is missing; with [save_cg_maps] it
    does the same for the coordinate map and the force map.  The log below
    is the whole effect. *)
Theorem C9_save_skips_missing_parts (st : SampleCollection) (save_dir : string)
    (save_cg_maps : bool) (idx : list nat) (traj : Trajectory) (df : list atom_row) :
  cg_atom_indices st = Some idx ->
  input_traj st = Some traj ->
  cg_dataframe st = Some df ->
  let templ := path_join save_dir (get_output_tag [sc_tag st; sc_name st] "before") in
  path_exists save_dir = true \/ makedirs_error save_dir = None ->
  (forall name, write_error (templ +:+ name) = None) ->
  save_cg_output save_dir true save_cg_maps None None st =
  (Ok tt, st,
   (if path_exists save_dir then [] else [MakeDirs save_dir])
   ++ [SavePdb (templ +:+ "cg_structure.pdb") (atom_slice_xyz traj idx) df;
       SaveEmbeds (templ +:+ "cg_embeds.npy") (type <$> df);
       match cg_coords st with
       | Some a => SaveArray (templ +:+ "cg_coords.npy") a
       | None => Print "No coordinates found; only CG structure, embeddings and loaded forces will be saved."
       end;
       match cg_forces st with
       | Some a => SaveArray (templ +:+ "cg_forces.npy") a
       | None => Print "No forces found;  only CG structure, embeddings, and loaded coordinates will be saved."
       end]
   ++ (if save_cg_maps
       then [match cg_map st with
             | Some m => SaveMatrix (templ +:+ "cg_coord_map.npy") m
             | None => Print "No cg coordinate map found. Skipping save."
             end;
             match force_map st with
             | Some m => SaveMatrix (templ +:+ "cg_force_map.npy") m
             | None => Print "No cg force map found. Skipping save."
             end]
       else [])).
Proof.
  intros Hidx Htraj Hdf templ Hdir Hw.
  rewrite (save_cg_output_mapped st save_dir true save_cg_maps idx traj df
             Hidx Htraj Hdf Hdir Hw).
  reflexivity.
Qed.

End SaveProperties.

Import MappingProofs RenumberProofs.

Section MappingProperties.
Context {ext : Collaborators}.

(** Where the renumbering does separate the chains.  Let the retained
    particles carry chain numbers below the number of chains present, and
    let all their residue numbers lie in one window [lo, lo + w) that is no
    wider than the number of retained particles of any chain, as for a
    homodimer numbered without a gap.  Then [apply_cg_mapping] returns, and
    in the CG table no two particles of different chains share a residue
    number. *)
Lemma renumbering_separates_compact_chains (st : SampleCollection)
    (cg_atoms : list string) (ef nm : string) (d : gmap string Z)
    (skip : option (list string)) (top : list atom_row) (traj : Trajectory)
    (lo w : Z) :
  embedding_maps nm = Some d ->
  top_dataframe st = Some top ->
  input_traj st = Some traj ->
  (length top <= n_atoms traj)%nat ->
  let rows := mapped_rows cg_atoms ef skip top in
  (forall r, r ∈ rows ->
     (chainID r < length (unique (map chainID rows)))%nat
     /\ lo <= resSeq r < lo + w
     /\ w <= Z.of_nat (count_of (chainID r) (map chainID rows))) ->
  exists st' log df,
    apply_cg_mapping cg_atoms ef (inl nm) skip st = (Ok tt, st', log)
    /\ cg_dataframe st' = Some df
    /\ length df = length rows
    /\ forall r1 r2, r1 ∈ df -> r2 ∈ df ->
         chainID r1 <> chainID r2 -> resSeq r1 <> resSeq r2.
Proof.
  intros Hd Htop Htraj Hlen rows Hrows.
  destruct (apply_cg_mapping_ok st cg_atoms ef nm d skip top traj Hd Htop Htraj Hlen)
    as (m & log & Hrun).
  eexists. exists log. eexists. split; [exact Hrun|].
  split; [reflexivity|]. fold rows. split.
  { unfold renumber_resSeq, renumber_serial.
    rewrite length_map, length_imap. reflexivity. }
  assert (Hcount : forall k, k ∈ map chainID rows ->
            w <= Z.of_nat (count_of k (map chainID rows))).
  { intros k Hk. rewrite list_elem_of_In, in_map_iff in Hk.
    destruct Hk as (r & <- & Hr).
    rewrite <- list_elem_of_In in Hr. apply Hrows, Hr. }
  intros r1 r2 H1 H2 Hne.
  apply elem_of_renumbered in H1 as (a & Ha & Hc1 & _ & ->).
  apply elem_of_renumbered in H2 as (b & Hb & Hc2 & _ & ->).
  rewrite Hc1, Hc2 in Hne.
  destruct (Hrows a Ha) as (Hka & Hra & _).
  destruct (Hrows b Hb) as (Hkb & Hrb & _).
  destruct (Nat.lt_total (chainID a) (chainID b)) as [Hlt|[Heq|Hgt]];
    [|contradiction|].
  - pose proof (chain_offsets_apart w _ (chainID a) (chainID b) Hcount ltac:(lia)).
    lia.
  - pose proof (chain_offsets_apart w _ (chainID b) (chainID a) Hcount ltac:(lia)).
    lia.
Qed.

(** C4 (amended). [apply_cg_mapping] replaces the embedding dictionary, the
    tables, the indices, the slice matrix and the terminal names, and leaves
    the projected coordinates, the projected forces and the force map of the
    object as they are.  Run again after a projection it still returns, and
    a following [save_cg_output] (coordinates and forces requested, no
    explicit arrays; the directory exists or can be created and the files
    can be written) writes the structure and the embeddings of the new
    mapping, then the coordinates and forces of the earlier projection, and
    with [save_cg_maps] the new slice matrix and the earlier force map. *)
Theorem C4_remapping_keeps_projected_arrays (st : SampleCollection)
    (cg_atoms : list string) (ef nm : string) (d : gmap string Z)
    (skip : option (list string)) (top : list atom_row) (traj : Trajectory)
    (c f : ndarray) (save_dir : string) (save_cg_maps : bool) :
  embedding_maps nm = Some d ->
  top_dataframe st = Some top ->
  input_traj st = Some traj ->
  (length top <= n_atoms traj)%nat ->
  cg_coords st = Some c ->
  cg_forces st = Some f ->
  let top' := map (map_cg_topology cg_atoms ef skip) top in
  let idx := indices_from mapped 0 top' in
  let df := renumber_resSeq (renumber_serial (mapped_rows cg_atoms ef skip top)) in
  let templ := path_join save_dir (get_output_tag [sc_tag st; sc_name st] "before") in
  path_exists save_dir = true \/ makedirs_error save_dir = None ->
  (forall name, write_error (templ +:+ name) = None) ->
  exists st' log m,
    apply_cg_mapping cg_atoms ef (inl nm) skip st = (Ok tt, st', log)
    /\ cg_coords st' = Some c
    /\ cg_forces st' = Some f
    /\ force_map st' = force_map st
    /\ embedding_dict st' = Some d
    /\ top_dataframe st' = Some top'
    /\ cg_dataframe st' = Some df
    /\ cg_atom_indices st' = Some idx
    /\ slice_matrix (n_atoms traj) idx = Ok m
    /\ cg_map st' = Some m
    /\ N_term st' = Some None
    /\ C_term st' = Some None
    /\ save_cg_output save_dir true save_cg_maps None None st'
       = (Ok tt, st',
          (if path_exists save_dir then [] else [MakeDirs save_dir])
          ++ [SavePdb (templ +:+ "cg_structure.pdb") (atom_slice_xyz traj idx) df;
              SaveEmbeds (templ +:+ "cg_embeds.npy") (type <$> df);
              SaveArray (templ +:+ "cg_coords.npy") c;
              SaveArray (templ +:+ "cg_forces.npy") f]
          ++ (if save_cg_maps
              then [SaveMatrix (templ +:+ "cg_coord_map.npy") m;
                    match force_map st with
                    | Some fm => SaveMatrix (templ +:+ "cg_force_map.npy") fm
                    | None => Print "No cg force map found. Skipping save."
                    end]
              else [])).
Proof.
  intros Hd Htop Htraj Hlen Hc Hf top' idx df templ Hdir Hw.
  destruct (apply_cg_mapping_run st cg_atoms ef nm d skip top traj Hd Htop Htraj Hlen)
    as (m & log & Hm & Hrun).
  match type of Hrun with _ = (_, ?s, _) => set (st' := s) in * end.
  exists st', log, m.
  split; [exact Hrun|].
  split; [exact Hc|]. split; [exact Hf|].
  do 4 (split; [reflexivity|]). split; [reflexivity|].
  split; [exact Hm|]. do 3 (split; [reflexivity|]).
  rewrite (save_cg_output_mapped st' save_dir true save_cg_maps idx traj df
             eq_refl eq_refl eq_refl Hdir Hw).
  change (sc_tag st') with (sc_tag st). change (sc_name st') with (sc_name st).
  change (cg_coords st') with (cg_coords st).
  change (cg_forces st') with (cg_forces st).
  change (cg_map st') with (Some m). change (force_map st') with (force_map st).
  rewrite Hc, Hf. reflexivity.
Qed.

(** C5. With arrays of different shapes [process_coords_forces] warns,
    returns nothing and leaves the object as it was, so that [cg_coords],
    [cg_forces] and [force_map] are not set by the call.  With arrays of
    one shape, a mapped object and a projection that succeeds, it stores the
    projected coordinates, the projected forces and the force map, and
    returns the projected coordinates and forces. *)
Theorem C5_process_coords_forces_shapes (st : SampleCollection)
    (coords forces : ndarray) (mapping : string) (force_stride : Z)
    (batch_size : option Z) :
  (shape coords <> shape forces ->
   process_coords_forces coords forces mapping force_stride batch_size st =
   (Ok None, st,
    [Warn "Cannot process coordinates and forces: mismatch between array shapes."]))
  /\ (shape coords = shape forces ->
      forall m cgc cgf fm,
        cg_map st = Some m ->
        slice_coord_forces coords forces m mapping force_stride batch_size
        = Ok (cgc, cgf, fm) ->
        exists st',
          process_coords_forces coords forces mapping force_stride batch_size st
          = (Ok (Some (cgc, cgf)), st', [])
          /\ cg_coords st' = Some cgc
          /\ cg_forces st' = Some cgf
          /\ force_map st' = Some fm
          /\ st' = set_cg_forces cgf (set_cg_coords cgc (set_force_map fm st))).
Proof.
  split.
  - intros Hne. unfold process_coords_forces.
    rewrite bool_decide_eq_false_2 by exact Hne. reflexivity.
  - intros Heq m cgc cgf fm Hm Hs. eexists. split.
    + unfold process_coords_forces.
      rewrite bool_decide_eq_true_2 by exact Heq. cbn [negb].
      unfold bind at 1. unfold attr. rewrite Hm.
      unfold bind at 1. unfold lift. rewrite Hs.
      reflexivity.
    + repeat split.
Qed.

End MappingProperties.

Import Demo.

(** An object that was never mapped: only the message. *)
Lemma C8_save_before_mapping_witness :
  exists log,
    save_cg_output "out" true true None None dimer_loaded = (Ok tt, dimer_loaded, log)
    /\ log = [Print "CG mapping must be applied before outputs can be saved."]
    /\ Forall (fun e => is_save e = false) log.
Proof.
  exact (C8_save_before_mapping_reports dimer_loaded "out" true true None None eq_refl
           (or_introl eq_refl)).
Defined.

(** A mapped object without projection: structure, embeddings and the
    coordinate map are written, three parts are reported missing. *)
Lemma C9_save_skips_missing_witness :
  save_cg_output "out" true true None None dimer_mapped =
  (Ok tt, dimer_mapped,
   [SavePdb "out/tag_mol_cg_structure.pdb" (mkArray [1; 4; 3]%nat [])
      [mkRow 1 "CA" 1 "ALA" 0 true 2; mkRow 2 "CA" 2 "ALA" 0 true 2;
       mkRow 3 "CA" 3 "ALA" 1 true 2; mkRow 4 "CA" 4 "ALA" 1 true 2];
    SaveEmbeds "out/tag_mol_cg_embeds.npy" [2; 2; 2; 2];
    Print "No coordinates found; only CG structure, embeddings and loaded forces will be saved.";
    Print "No forces found;  only CG structure, embeddings, and loaded coordinates will be saved.";
    SaveMatrix "out/tag_mol_cg_coord_map.npy"
      (default [] (cg_map dimer_mapped));
    Print "No cg force map found. Skipping save."]).
Proof.
  exact (C9_save_skips_missing_parts dimer_mapped "out" true
           [1; 4; 7; 10]%nat (mkTraj 12 (mkTopology [] []))
           [mkRow 1 "CA" 1 "ALA" 0 true 2; mkRow 2 "CA" 2 "ALA" 0 true 2;
            mkRow 3 "CA" 3 "ALA" 1 true 2; mkRow 4 "CA" 4 "ALA" 1 true 2]
           eq_refl eq_refl eq_refl (or_introl eq_refl) (fun _ => eq_refl)).
Defined.

(** C1. The renumbering does not keep the chains apart, as the comment
    above it and the claim say it does: the offset of a chain is a number of
    retained particles, taken from the count-sorted [value_counts], not a
    span of residue numbers.  A homodimer of CA atoms whose chains are both
    numbered 1, 3 (residue 2 is missing from the structure) gets the offset
    2 for chain 1: its particles are renumbered 3 and 5, and residue number 3
    occurs in chain 0 and in chain 1. *)
Theorem C1_homodimer_with_gap_collides :
  let run := apply_cg_mapping ["CA"] "embedding" (inl "demo_dict") None in
  let df := default [] (cg_dataframe (run_state run (loaded gapped_dimer_top 4))) in
  fst (fst (run (loaded gapped_dimer_top 4))) = Ok tt
  /\ (fun r => (chainID r, resSeq r)) <$> gapped_dimer_top
     = [(0%nat, 1); (0%nat, 3); (1%nat, 1); (1%nat, 3)]
  /\ (fun r => (chainID r, resSeq r)) <$> df
     = [(0%nat, 1); (0%nat, 3); (1%nat, 3); (1%nat, 5)]
  /\ exists r1 r2,
       r1 ∈ df /\ r2 ∈ df /\ chainID r1 <> chainID r2 /\ resSeq r1 = resSeq r2.
Proof.
  split; [vm_compute; reflexivity|]. split; [reflexivity|].
  split; [vm_compute; reflexivity|].
  exists (mkRow 2 "CA" 3 "ALA" 0 true 2), (mkRow 3 "CA" 3 "ALA" 1 true 2).
  split; [vm_compute; apply list_elem_of_further, list_elem_of_here|].
  split; [vm_compute; do 2 apply list_elem_of_further; apply list_elem_of_here|].
  split; [discriminate|reflexivity].
Qed.

(** The same for two chains numbered differently: a particle of residue 2
    in chain 0 and a particle of residue 1 in chain 1 both end with residue
    number 2. *)
Example two_chains_share_a_residue_number :
  let run := apply_cg_mapping ["CA"] "embedding" (inl "demo_dict") None in
  exists r1 r2,
    fst (fst (run (loaded two_chain_top 2))) = Ok tt
    /\ cg_dataframe (run_state run (loaded two_chain_top 2)) = Some [r1; r2]
    /\ chainID r1 <> chainID r2
    /\ resSeq r1 = resSeq r2.
Proof.
  exists (mkRow 1 "CA" 2 "ALA" 0 true 2), (mkRow 2 "CA" 2 "ALA" 1 true 2).
  split; [vm_compute; reflexivity|].
  split; [vm_compute; reflexivity|].
  split; [discriminate|reflexivity].
Qed.

(** The offsets follow the counts in descending order, not the chains: with
    chains of 5, 10 and 3 single-particle residues numbered from 1, chain 1
    is moved by 10 and chain 2 by 15, and residues 16 to 18 occur twice. *)
Example three_chains_offsets :
  let cs := (repeat 0 5 ++ repeat 1 10 ++ repeat 2 3)%nat in
  value_counts cs = [(1, 10); (0, 5); (2, 3)]%nat
  /\ chain_offset cs 1 = 10 /\ chain_offset cs 2 = 15
  /\ 6 + chain_offset cs 1 = 1 + chain_offset cs 2.
Proof. vm_compute. repeat split. Qed.

(** The same on the method: residues 16, 17 and 18 of chain 2 meet residues
    6, 7 and 8 of chain 1. *)
Example three_chains_renumbered :
  resSeq <$> default []
    (cg_dataframe
       (run_state (apply_cg_mapping ["CA"] "embedding" (inl "demo_dict") None)
          (loaded three_chain_top 18)))
  = [1; 2; 3; 4; 5; 11; 12; 13; 14; 15; 16; 17; 18; 19; 20; 16; 17; 18].
Proof. vm_compute. reflexivity. Qed.

(** The homodimer mapped to its CA atoms: residues 1, 2 in both chains, two
    particles per chain, and no gap. *)
Example renumbering_separates_homodimer :
  exists st' log df,
    apply_cg_mapping ["CA"] "embedding" (inl "demo_dict") None dimer_loaded
    = (Ok tt, st', log)
    /\ cg_dataframe st' = Some df
    /\ length df = length (mapped_rows ["CA"] "embedding" None homodimer_top)
    /\ forall r1 r2, r1 ∈ df -> r2 ∈ df ->
         chainID r1 <> chainID r2 -> resSeq r1 <> resSeq r2.
Proof.
  apply (renumbering_separates_compact_chains dimer_loaded ["CA"] "embedding" "demo_dict"
           demo_dict None homodimer_top (mkTraj 12 (mkTopology [] [])) 1 2);
    [reflexivity | reflexivity | reflexivity | vm_compute; lia |].
  intros r Hr.
  assert (Hb : forallb (fun r =>
            (chainID r <? 2)%nat && (1 <=? resSeq r) && (resSeq r <? 3)
            && (2 <=? Z.of_nat (count_of (chainID r) [0; 0; 1; 1]%nat)))
            (mapped_rows ["CA"] "embedding" None homodimer_top) = true)
    by (vm_compute; reflexivity).
  rewrite forallb_forall in Hb. rewrite list_elem_of_In in Hr.
  specialize (Hb r Hr). rewrite !andb_true_iff in Hb.
  destruct Hb as [[[H1 H2] H3] H4].
  apply Nat.ltb_lt in H1. apply Z.leb_le in H2. apply Z.ltb_lt in H3.
  apply Z.leb_le in H4.
  change (map chainID (mapped_rows ["CA"] "embedding" None homodimer_top))
    with [0; 0; 1; 1]%nat.
  change (length (unique [0; 0; 1; 1]%nat)) with 2%nat.
  repeat split; assumption.
Qed.

(** C4 as stated fails: the homodimer is mapped to its 4 CA atoms and
    projected, which leaves arrays of 4 particles; after a second mapping to
    12 atoms the object still holds these arrays, and [save_cg_output]
    writes them next to the structure of 12 particles. *)
Lemma C4_stale_arrays_are_saved :
  let save := save_cg_output "out" true true None None in
  let cgc := slice_atoms (default [] (cg_map dimer_mapped)) some_coords in
  let cgf := slice_atoms (default [] (cg_map dimer_mapped)) some_forces in
  cg_atom_indices dimer_projected = Some [1; 4; 7; 10]%nat
  /\ cg_coords dimer_projected = Some cgc
  /\ shape cgc = [2; 4; 3]%nat
  /\ shape cgf = [2; 4; 3]%nat
  /\ cg_atom_indices dimer_remapped = Some (seq 0 12)
  /\ cg_coords dimer_remapped = Some cgc
  /\ cg_forces dimer_remapped = Some cgf
  /\ fst (fst (save dimer_remapped)) = Ok tt
  /\ (exists df,
        cg_dataframe dimer_remapped = Some df /\ length df = 12%nat
        /\ SavePdb "out/tag_mol_cg_structure.pdb" (mkArray [1; 12; 3]%nat []) df
           ∈ run_log save dimer_remapped)
  /\ SaveArray "out/tag_mol_cg_coords.npy" cgc ∈ run_log save dimer_remapped
  /\ SaveArray "out/tag_mol_cg_forces.npy" cgf ∈ run_log save dimer_remapped.
Proof.
  do 8 (split; [vm_compute; reflexivity|]).
  split.
  { eexists. split; [vm_compute; reflexivity|]. split; [reflexivity|].
    vm_compute. apply list_elem_of_here. }
  split; vm_compute; do 2 apply list_elem_of_further.
  - apply list_elem_of_here.
  - apply list_elem_of_further, list_elem_of_here.
Qed.

(** The projected homodimer, mapped again. *)
Lemma C4_remapping_witness :
  let cgc := slice_atoms (default [] (cg_map dimer_mapped)) some_coords in
  let cgf := slice_atoms (default [] (cg_map dimer_mapped)) some_forces in
  exists st' log m written,
    apply_cg_mapping ["N"; "CA"; "C"] "embedding" (inl "demo_dict") None dimer_projected
    = (Ok tt, st', log)
    /\ cg_coords st' = Some cgc
    /\ cg_forces st' = Some cgf
    /\ force_map st' = force_map dimer_projected
    /\ cg_atom_indices st' = Some (seq 0 12)
    /\ cg_map st' = Some m
    /\ save_cg_output "out" true true None None st' = (Ok tt, st', written)
    /\ SaveArray "out/tag_mol_cg_coords.npy" cgc ∈ written
    /\ SaveArray "out/tag_mol_cg_forces.npy" cgf ∈ written.
Proof.
  intros cgc cgf.
  destruct (C4_remapping_keeps_projected_arrays dimer_projected ["N"; "CA"; "C"]
              "embedding" "demo_dict" demo_dict None
              (map (map_cg_topology ["CA"] "embedding" None) homodimer_top)
              (mkTraj 12 (mkTopology [] [])) cgc cgf "out" true
              eq_refl eq_refl eq_refl
              (le_n 12) eq_refl eq_refl (or_introl eq_refl) (fun _ => eq_refl))
    as (st' & log & m & H1 & H2 & H3 & H4 & _ & _ & _ & H5 & _ & H6 & _ & _ & H7).
  exists st', log, m. eexists.
  split; [exact H1|]. split; [exact H2|]. split; [exact H3|]. split; [exact H4|].
  split; [exact H5|]. split; [exact H6|]. split; [exact H7|].
  split.
  - cbn [app]. do 2 apply list_elem_of_further. apply list_elem_of_here.
  - cbn [app]. do 3 apply list_elem_of_further. apply list_elem_of_here.
Defined.

(** Arrays of different shapes on the mapped homodimer, then arrays of one
    shape. *)
Lemma C5_process_coords_forces_witness :
  let m := default [] (cg_map dimer_mapped) in
  process_coords_forces some_coords short_forces "slice_aggregate" 100 None dimer_mapped
  = (Ok None, dimer_mapped,
     [Warn "Cannot process coordinates and forces: mismatch between array shapes."])
  /\ exists st',
       process_coords_forces some_coords some_forces "slice_aggregate" 100 None dimer_mapped
       = (Ok (Some (slice_atoms m some_coords, slice_atoms m some_forces)), st', [])
       /\ cg_coords st' = Some (slice_atoms m some_coords)
       /\ cg_forces st' = Some (slice_atoms m some_forces)
       /\ force_map st' = cg_map dimer_mapped.
Proof.
  intros m.
  destruct (C5_process_coords_forces_shapes dimer_mapped some_coords short_forces
              "slice_aggregate" 100 None) as [Hbad _].
  destruct (C5_process_coords_forces_shapes dimer_mapped some_coords some_forces
              "slice_aggregate" 100 None) as [_ Hgood].
  split; [apply Hbad; discriminate|].
  destruct (Hgood eq_refl m (slice_atoms m some_coords) (slice_atoms m some_forces) m
              eq_refl eq_refl) as (st' & H1 & H2 & H3 & H4 & _).
  exists st'. repeat split; assumption.
Defined.

Import TerminalProofs TerminalRows TerminalRun TerminalSpec.

Section TerminalProperties.
Context {ext : Collaborators}.

(** C3. On a mapped object whose embedding dictionary has a greatest code
    [m], [add_terminal_embeddings] returns and leaves a table [df'] that
    differs from the table [df] only in the embedding codes of the rows that
    carry the N-terminal name at the least residue number of their chain and
    of the rows that carry the C-terminal name at the greatest residue number
    of their chain: the embedding code of these rows is [cN] and [cC] (the
    C-terminal code where both selections meet), every other row keeps its
    code, and every row keeps its other columns.  A code that the dictionary lacks is allocated as the greatest
    code of the dictionary plus one, above every code present before; with
    [None] for a terminus, no row is selected for it and its dictionary
    entry is left as it was. *)
Theorem C3_terminal_embeddings (st : SampleCollection) (N C : option string)
    (df : list atom_row) (d : gmap string Z) (m : Z) :
  cg_dataframe st = Some df ->
  embedding_dict st = Some d ->
  dict_max d = Ok m ->
  exists st' df' d' cN cC,
    add_terminal_embeddings N C st = (Ok tt, st', [])
    /\ cg_dataframe st' = Some df'
    /\ embedding_dict st' = Some d'
    /\ length df' = length df
    /\ type <$> df'
       = (fun r => if chain_terminal column_max C df r then cC
                   else if chain_terminal column_min N df r then cN
                   else type r) <$> df
    /\ (forall i r, df !! i = Some r ->
          exists r',
            df' !! i = Some r'
            /\ type r' = (if chain_terminal column_max C df r then cC
                          else if chain_terminal column_min N df r then cN
                          else type r)
            /\ serial r' = serial r /\ name r' = name r /\ resSeq r' = resSeq r
            /\ resName r' = resName r /\ chainID r' = chainID r
            /\ mapped r' = mapped r)
    /\ (forall r nm, r ∈ df ->
          (chain_terminal column_min (Some nm) df r = true <->
           name r = nm
           /\ forall r2, r2 ∈ df -> chainID r2 = chainID r -> resSeq r <= resSeq r2)
          /\ (chain_terminal column_max (Some nm) df r = true <->
              name r = nm
              /\ forall r2, r2 ∈ df -> chainID r2 = chainID r -> resSeq r2 <= resSeq r))
    /\ (forall nm, N = Some nm ->
          d' !! "N_term" = Some cN
          /\ (d !! "N_term" = None ->
              cN = m + 1 /\ forall k v, d !! k = Some v -> v < cN))
    /\ (forall nm, C = Some nm ->
          d' !! "C_term" = Some cC
          /\ (d !! "C_term" = None ->
              (exists m1, dict_max (dict_after "N_term" N d m) = Ok m1 /\ cC = m1 + 1)
              /\ (forall k v, d !! k = Some v -> v < cC)
              /\ (forall nt, N = Some nt -> cN < cC)))
    /\ (N = None -> d' !! "N_term" = d !! "N_term")
    /\ (C = None -> d' !! "C_term" = d !! "C_term")
    /\ (forall k, k <> "N_term" -> k <> "C_term" -> d' !! k = d !! k).
Proof.
  intros Hdf Hd Hm.
  destruct (add_terminal_embeddings_run N C st df d m Hdf Hd Hm)
    as (m1 & Hm1 & Hb & Hc & Hrun).
  pose proof (proj2 (proj1 (dict_max_spec d m) Hm)) as Hall.
  set (d1 := dict_after "N_term" N d m) in *.
  assert (Hd1C : d1 !! "C_term" = d !! "C_term")
    by (apply dict_after_other; discriminate).
  eexists. eexists. eexists.
  exists (code_of "N_term" d m), (code_of "C_term" d1 m1).
  split; [exact Hrun|].
  cbn [cg_dataframe embedding_dict set_cg_dataframe set_embedding_dict].
  split; [reflexivity|]. split; [reflexivity|].
  split; [rewrite !rows_after_length; reflexivity|].
  split; [apply rows_after_both_types|].
  split.
  { intros i r Hi. eexists. split; [apply rows_after_both, Hi|].
    repeat split. }
  split.
  { intros r nm Hr. split; [apply chain_terminal_min|apply chain_terminal_max];
      exact Hr. }
  split.
  { intros nm ->. split.
    - rewrite dict_after_other by discriminate. apply dict_after_key.
    - intros E. unfold code_of. rewrite E. cbn [default].
      split; [reflexivity|]. intros k v Hk. apply Hall in Hk. lia. }
  split.
  { intros nm ->. split; [apply dict_after_key|].
    intros E. rewrite <- Hd1C in E. unfold code_of. rewrite E. cbn [default].
    split; [exists m1; split; [exact Hm1|reflexivity]|].
    split.
    - intros k v Hk. apply Hall in Hk. lia.
    - intros nt HN. specialize (Hc nt HN). unfold code_of in Hc. lia. }
  split.
  { intros ->. rewrite dict_after_other by discriminate. reflexivity. }
  split.
  { intros ->. exact Hd1C. }
  intros k HkN HkC. rewrite dict_after_other by exact HkC.
  apply dict_after_other, HkN.
Qed.

End TerminalProperties.

(** The homodimer with N-terminus "N" and no C-terminus: the new code 4 goes
    to two particles, the N of the first residue of each chain. *)
Example homodimer_N_terminus :
  let st' := run_state (add_terminal_embeddings (Some "N") None) dimer_full in
  add_terminal_embeddings (Some "N") None dimer_full = (Ok tt, st', [])
  /\ type <$> default [] (cg_dataframe st') = [4; 2; 3; 1; 2; 3; 4; 2; 3; 1; 2; 3]
  /\ (fun r => (chainID r, resSeq r, name r))
       <$> filter (fun r => type r = 4) (default [] (cg_dataframe st'))
     = [(0%nat, 1, "N"); (1%nat, 7, "N")]
  /\ embedding_dict st' = Some (<["N_term" := 4]> demo_dict).
Proof. repeat split; vm_compute; reflexivity. Qed.

(** The same call through the general statement. *)
Lemma C3_terminal_embeddings_witness :
  exists st' df' d' cN,
    add_terminal_embeddings (Some "N") None dimer_full = (Ok tt, st', [])
    /\ cg_dataframe st' = Some df'
    /\ embedding_dict st' = Some d'
    /\ length df' = 12%nat
    /\ d' !! "N_term" = Some cN
    /\ cN = 4
    /\ type <$> default [] (cg_dataframe dimer_full)
       = [1; 2; 3; 1; 2; 3; 1; 2; 3; 1; 2; 3]
    /\ type <$> df' = [4; 2; 3; 1; 2; 3; 4; 2; 3; 1; 2; 3].
Proof.
  destruct (C3_terminal_embeddings dimer_full (Some "N") None
              (default [] (cg_dataframe dimer_full)) demo_dict 3
              eq_refl eq_refl eq_refl)
    as (st' & df' & d' & cN & cC & Hrun & Hdf & Hd & Hlen & Htypes & _ & _ & HN & _).
  exists st', df', d', cN.
  destruct (HN "N" eq_refl) as [H1 H2]. destruct (H2 eq_refl) as [H3 _].
  do 6 (split; [assumption|]). split; [reflexivity|].
  rewrite Htypes, H3. vm_compute. reflexivity.
Defined.

Import RepairProofs.

(** C2 as stated fails for a single name other than CA: five particles
    that are all called CB, in one chain and without bonds, get no bond. *)
Lemma C2_single_name_CB_gets_no_bond :
  let t := five_beads "CB" in
  (forall a, a ∈ atoms t -> a_name a = "CB")
  /\ bonds t = []
  /\ length (atoms t) = 5%nat
  /\ bonds (prior_topology (mkTraj 5 t) (seq 0 5)) = [].
Proof.
  split; [|split; [reflexivity|split; [reflexivity|vm_compute; reflexivity]]].
  intros a Ha. vm_compute in Ha.
  repeat (apply elem_of_cons in Ha as [->|Ha]; [reflexivity|]).
  inversion Ha.
Qed.

Section RepairProperties.
Context {ext : Collaborators}.

(** C2 (amended). When the retained particles are all called CA, the
    topology that [get_prior_nls] builds its neighbour lists from has the
    same chains and, after the bonds that were there, for every chain on its
    own the bonds from each particle of the chain to the next one: index i
    to index i + 1, n - 1 new bonds for a chain of n particles, and these
    are all the bonds of a chain that had none (atoms numbered 0, 1, ... in
    chain order, as mdtraj numbers them). *)
Theorem C2_ca_chains_get_sequential_bonds (traj : Trajectory) (idx : list nat) :
  let t := atom_slice_topology traj idx in
  atoms t <> [] ->
  (forall a, a ∈ atoms t -> a_name a = "CA") ->
  a_index <$> atoms t = seq 0 (length (atoms t)) ->
  let t' := prior_topology traj idx in
  chains t' = chains t
  /\ bonds t' = bonds t ++ flat_map (fun ch => map bond_of (consecutive ch)) (chains t)
  /\ forall pre ch post,
       chains t = pre ++ ch :: post ->
       let first := length (concat pre) in
       bonds_within ch t'
       = bonds_within ch t
         ++ ((fun k => (first + k, S (first + k))%nat) <$> seq 0 (length ch - 1))
       /\ (bonds_within ch t = [] ->
           length (bonds_within ch t') = (length ch - 1)%nat).
Proof.
  intros t Hne Hca Hix t'.
  assert (Ht' : t' = fold_left bond_chain (chains t) t).
  { unfold t', prior_topology, repair_ca_bonds. fold t.
    rewrite bool_decide_eq_true_2 by (apply only_CA; assumption). reflexivity. }
  destruct (fold_bond_chain (chains t) t) as [Hc Hbonds].
  rewrite <- Ht' in Hc, Hbonds.
  split; [exact Hc|]. split; [exact Hbonds|].
  intros pre ch post Hsplit first.
  assert (Hfilter : bonds_within ch t'
            = bonds_within ch t
              ++ ((fun k => (first + k, S (first + k))%nat) <$> seq 0 (length ch - 1))).
  { unfold atoms in Hix. rewrite Hsplit, concat_app in Hix. cbn [concat] in Hix.
    destruct (seq_middle a_index _ _ _ 0 _ Hix) as (Hpre & Hch & Hpost).
    cbn [Nat.add] in Hch, Hpost. fold first in Hch, Hpost.
    unfold bonds_within. rewrite Hbonds, Hsplit, flat_map_app. cbn [flat_map].
    rewrite !filter_app, Hch. f_equal.
    rewrite (filter_none _ (flat_map _ pre)), (filter_none _ (flat_map _ post)).
    - rewrite app_nil_l, app_nil_r, (consecutive_in_a_row ch first Hch).
      apply filter_all. intros b Hin.
      apply list_elem_of_fmap in Hin as (k & -> & Hk). apply elem_of_seq in Hk.
      cbn [fst snd]. rewrite !elem_of_seq. lia.
    - intros b Hin [H1 _].
      apply (repaired_bonds_range post (first + length ch)) in Hin;
        [|exact Hpost].
      apply elem_of_seq in H1. lia.
    - intros b Hin [_ H2].
      apply (repaired_bonds_range pre 0) in Hin; [|exact Hpre].
      apply elem_of_seq in H2. fold first in Hin. lia. }
  split; [exact Hfilter|].
  intros Hnone. rewrite Hfilter, Hnone, app_nil_l, length_fmap, length_seq.
  reflexivity.
Qed.

End RepairProperties.

(** Two chains of five CA particles without bonds: four bonds in each
    chain, from every index to the next. *)
Lemma C2_ca_chains_witness :
  let t' := prior_topology (mkTraj 10 two_chains_of_five) (seq 0 10) in
  bonds t' = [(0, 1); (1, 2); (2, 3); (3, 4); (5, 6); (6, 7); (7, 8); (8, 9)]%nat
  /\ bonds_within (bead_chain "CA" 0) t' = [(0, 1); (1, 2); (2, 3); (3, 4)]%nat
  /\ bonds_within (bead_chain "CA" 5) t' = [(5, 6); (6, 7); (7, 8); (8, 9)]%nat
  /\ length (bonds_within (bead_chain "CA" 5) t') = 4%nat.
Proof.
  destruct (C2_ca_chains_get_sequential_bonds
              (ext := demo_ext) (mkTraj 10 two_chains_of_five) (seq 0 10))
    as (_ & Hb & Hch).
  - discriminate.
  - intros a Ha. vm_compute in Ha.
    repeat (apply elem_of_cons in Ha as [->|Ha]; [reflexivity|]).
    inversion Ha.
  - reflexivity.
  - destruct (Hch [] (bead_chain "CA" 0) [bead_chain "CA" 5] eq_refl) as [H0 _].
    destruct (Hch [bead_chain "CA" 0] (bead_chain "CA" 5) [] eq_refl) as [H5 H5n].
    split; [exact Hb|]. split; [exact H0|]. split; [exact H5|exact (H5n eq_refl)].
Defined.

(** * Further properties of the module *)

(** ** [get_strides] and the constructor at the edges *)

Module StrideEdges.
Import Strides Batch StridesProofs BatchProofs.

Lemma strided_aux_lookup {A} (k : nat) (a : list A) (j i : nat) :
  (0 < k)%nat -> strided_aux k j a !! i = a !! (j + i * k)%nat.
Proof.
  intros Hk. revert j i. induction a as [|x t IH]; intros j i; [reflexivity|].
  destruct j as [|j]; cbn [strided_aux].
  - destruct i as [|i]; [reflexivity|].
    cbn [lookup list_lookup]. rewrite IH.
    replace (0 + S i * k)%nat with (S (k - 1 + i * k)) by lia. reflexivity.
  - rewrite IH. reflexivity.
Qed.

Lemma strided_aux_length {A} (k : nat) (a : list A) :
  (0 < k)%nat -> length (strided_aux k 0 a) = ((length a + k - 1) / k)%nat.
Proof.
  intros Hk. set (L := length (strided_aux k 0 a)). set (n := length a).
  assert (Hiff : forall i, (i < L)%nat <-> (i * k < n)%nat).
  { intros i. unfold L, n. rewrite <- !lookup_lt_is_Some, strided_aux_lookup by exact Hk.
    reflexivity. }
  assert (H1 : (n <= L * k)%nat).
  { destruct (Nat.le_gt_cases n (L * k)) as [|H]; [assumption|].
    apply Hiff in H. lia. }
  assert (H2 : (L = 0 \/ (L - 1) * k < n)%nat).
  { destruct L as [|L']; [left; reflexivity|right]. apply Hiff. lia. }
  apply (Nat.div_unique _ _ _ (n + k - 1 - k * L)); nia.
Qed.

Lemma kept_one {A} (a : list A) : kept 1 a = a.
Proof.
  unfold kept. change (Z.to_nat 1) with 1%nat.
  induction a as [|x t IH]; [reflexivity|]. cbn [strided_aux Nat.sub]. congruence.
Qed.

(** Whenever the constructor returns, the object is the record the source
    fills in. *)
Lemma init_inv_record {frame embeds nls : Type}
    (coords forces : list frame) (emb : embeds) (nl : nls)
    (bsize str : Z) (w : option (list tval)) (concat : bool) obj :
  0 < str ->
  init coords forces emb nl bsize str w concat = Ok obj ->
  let n := Z.of_nat (length (kept str coords)) in
  exists st,
    get_strides n (if n <? bsize then n else bsize) = Ok st
    /\ obj = {| batch_size := if n <? bsize then n else bsize;
                stride := str; concat_forces := concat;
                cg_coords := kept str coords; cg_forces := kept str forces;
                cg_embeds := emb; cg_prior_nls := nl;
                weights := stored_weights str w; n_structure := n;
                strides := st; n_elem := length st |}.
Proof.
  intros Hs H n.
  destruct (get_strides n (if n <? bsize then n else bsize)) as [st|e] eqn:E.
  - exists st. split; [reflexivity|].
    rewrite (init_ok _ _ _ _ _ _ _ _ st Hs E) in H. injection H as <-. reflexivity.
  - exfalso. unfold init, strided in H.
    destruct (Z.eqb_spec str 0) as [|_]; [lia|].
    destruct (Z.ltb_spec str 0) as [|_]; [lia|]. cbn [rbind] in H.
    unfold n, kept in E. destruct w as [wa|]; cbn [rbind] in H;
      rewrite E in H; discriminate H.
Qed.

End StrideEdges.

Import Strides Batch StridesProofs BatchProofs StrideEdges.

(** X1. For a negative batch size [get_strides] yields no window: it fails
    its assertion when the batch size does not divide the number of frames,
    fails in [np.zeros] when the quotient is below -1, and otherwise
    returns the empty list. *)
Theorem X1_get_strides_negative_batch (n b : Z) :
  0 <= n -> b < 0 ->
  (n mod b <> 0 -> get_strides n b = Raise AssertionError)
  /\ (n mod b = 0 -> n / b < -1 -> get_strides n b = Raise ValueError)
  /\ (n mod b = 0 -> -1 <= n / b -> get_strides n b = Ok []).
Proof.
  intros Hn Hb. unfold get_strides, np_divmod.
  destruct (Z.eqb_spec b 0) as [|_]; [lia|].
  pose proof (Z.mod_neg_bound n b Hb) as Hr.
  pose proof (Z.div_mod n b ltac:(lia)) as Hdm.
  split; [|split].
  - intros Hne. destruct (Z.ltb_spec (-1) (n mod b)); [lia|reflexivity].
  - intros H0 Hq. rewrite H0. cbn [Z.ltb Z.compare negb Z.eqb].
    unfold np_zeros. destruct (Z.ltb_spec (n / b + 1) 0); [reflexivity|lia].
  - intros H0 Hq. rewrite H0. cbn [Z.ltb Z.compare negb Z.eqb].
    assert (Hcase : n / b = -1 \/ n / b = 0) by nia.
    destruct Hcase as [-> | ->]; reflexivity.
Qed.

Lemma X1_get_strides_negative_witness :
  get_strides 5 (-2) = Raise AssertionError
  /\ get_strides 6 (-2) = Raise ValueError
  /\ get_strides 4 (-4) = Ok [].
Proof.
  destruct (X1_get_strides_negative_batch 5 (-2)) as (H1 & _); [lia|lia|].
  destruct (X1_get_strides_negative_batch 6 (-2)) as (_ & H2 & _); [lia|lia|].
  destruct (X1_get_strides_negative_batch 4 (-4)) as (_ & _ & H3); [lia|lia|].
  split; [apply H1; discriminate|].
  split; [apply H2; [reflexivity|reflexivity]|apply H3; [reflexivity|discriminate]].
Defined.

Import BatchItems BatchIteration.

Lemma py_index_out_of_range {A} (a : list A) (idx : Z) :
  Z.of_nat (length a) <= idx \/ idx < - Z.of_nat (length a) ->
  py_index a idx = Raise IndexError.
Proof.
  intros H. unfold py_index.
  set (i := if idx <? 0 then idx + Z.of_nat (length a) else idx).
  assert (Hi : i < 0 \/ Z.of_nat (length a) <= i).
  { unfold i. destruct (Z.ltb_spec idx 0); lia. }
  replace ((0 <=? i) && (i <? Z.of_nat (length a))) with false; [reflexivity|].
  symmetry. apply andb_false_iff.
  destruct Hi; [left; apply Z.leb_gt|right; apply Z.ltb_ge]; assumption.
Qed.

Lemma py_index_ok {A} (a : list A) (i : nat) (x : A) :
  a !! i = Some x -> py_index a (Z.of_nat i) = Ok x.
Proof.
  intros H. pose proof (lookup_lt_Some _ _ _ H) as Hlt. unfold py_index.
  destruct (Z.ltb_spec (Z.of_nat i) 0); [lia|].
  destruct (Z.leb_spec 0 (Z.of_nat i)); [|lia].
  destruct (Z.ltb_spec (Z.of_nat i) (Z.of_nat (length a))); [|lia].
  cbn [andb]. rewrite Nat2Z.id, H. reflexivity.
Qed.

(** X2. A batch size of 0 raises no exception ([np.divmod] by zero gives
    (0, 0); numpy only issues a RuntimeWarning, which the model of the
    constructor does not record): for any frames and any positive stride the
    constructor returns an object that holds the retained frames but no
    batch; its length is 0 and every index is out of range. *)
Theorem X2_batch_size_zero_gives_no_batch {frame embeds nls : Type}
    (coords forces : list frame) (emb : embeds) (nl : nls)
    (str : Z) (w : option (list tval)) (concat : bool) :
  0 < str ->
  exists obj,
    init coords forces emb nl 0 str w concat = Ok obj
    /\ cg_coords obj = kept str coords
    /\ batch_size obj = 0
    /\ strides obj = []
    /\ len obj = 0%nat
    /\ forall idx, getitem obj idx = Raise IndexError.
Proof.
  intros Hs. set (n := Z.of_nat (length (kept str coords))).
  assert (Hcap : (if n <? 0 then n else 0) = 0).
  { destruct (Z.ltb_spec n 0); [lia|reflexivity]. }
  eexists. split.
  { apply init_ok; [exact Hs|]. fold n. rewrite Hcap. reflexivity. }
  fold n. cbn [cg_coords batch_size strides len n_elem length].
  split; [reflexivity|]. split; [exact Hcap|]. split; [reflexivity|].
  split; [reflexivity|].
  intros idx. unfold getitem. cbn [strides].
  rewrite py_index_out_of_range; [reflexivity|]. simpl. destruct (Z.le_gt_cases 0 idx); [left|right]; lia.
Qed.

Lemma X2_batch_size_zero_witness :
  exists obj,
    init [tt; tt; tt] [tt; tt; tt] tt tt 0 1 None false = Ok obj
    /\ cg_coords obj = [tt; tt; tt]
    /\ len obj = 0%nat
    /\ getitem obj 0 = Raise IndexError.
Proof.
  destruct (X2_batch_size_zero_gives_no_batch [tt; tt; tt] [tt; tt; tt] tt tt 1 None false)
    as (obj & H1 & H2 & _ & _ & H3 & H4); [lia|].
  exists obj. split; [exact H1|]. split; [exact H2|]. split; [exact H3|apply H4].
Defined.

(** X3. With a positive stride the object keeps the frames at positions 0,
    stride, 2 stride, ...: frame i of the object is frame i * stride of the
    input, and the number of frames kept is the input's number of frames
    divided by the stride, rounded up.  Forces are subsampled the same
    way. *)
Theorem X3_stride_keeps_every_nth_frame {frame embeds nls : Type}
    (coords forces : list frame) (emb : embeds) (nl : nls)
    (b str : Z) (w : option (list tval)) (concat : bool) obj :
  0 < str ->
  init coords forces emb nl b str w concat = Ok obj ->
  (forall i : nat, cg_coords obj !! i = coords !! (i * Z.to_nat str)%nat)
  /\ (forall i : nat, cg_forces obj !! i = forces !! (i * Z.to_nat str)%nat)
  /\ n_structure obj = (Z.of_nat (length coords) + str - 1) / str
  /\ length (cg_coords obj) = Z.to_nat (n_structure obj).
Proof.
  intros Hs H.
  destruct (init_inv_record _ _ _ _ _ _ _ _ _ Hs H) as (st & _ & ->).
  cbn [cg_coords cg_forces n_structure]. unfold kept.
  assert (Hk : (0 < Z.to_nat str)%nat) by lia.
  assert (Hlen : Z.of_nat (length (strided_aux (Z.to_nat str) 0 coords))
                 = (Z.of_nat (length coords) + str - 1) / str).
  { rewrite strided_aux_length by exact Hk. rewrite Nat2Z.inj_div.
    replace (Z.of_nat (length coords + Z.to_nat str - 1))
      with (Z.of_nat (length coords) + str - 1) by lia.
    replace (Z.of_nat (Z.to_nat str)) with str by lia. reflexivity. }
  split; [intros i; apply (strided_aux_lookup _ _ 0 i Hk)|].
  split; [intros i; apply (strided_aux_lookup _ _ 0 i Hk)|].
  split; [exact Hlen|]. rewrite Nat2Z.id. reflexivity.
Qed.

Lemma X3_stride_witness :
  exists obj,
    init [1; 2; 3; 4; 5; 6; 7] [10; 20; 30; 40; 50; 60; 70] tt tt 2 3 None false = Ok obj
    /\ cg_coords obj = [1; 4; 7]
    /\ cg_forces obj = [10; 40; 70]
    /\ n_structure obj = 3.
Proof.
  assert (H : exists obj,
             init [1; 2; 3; 4; 5; 6; 7] [10; 20; 30; 40; 50; 60; 70] tt tt 2 3 None false
             = Ok obj) by (eexists; reflexivity).
  destruct H as [obj Hobj]. exists obj. split; [exact Hobj|].
  destruct (X3_stride_keeps_every_nth_frame
              [1; 2; 3; 4; 5; 6; 7] [10; 20; 30; 40; 50; 60; 70] tt tt 2 3 None false
              obj eq_refl Hobj)
    as (_ & _ & H3 & _).
  vm_compute in Hobj. injection Hobj as <-.
  split; [reflexivity|]. split; [reflexivity|exact H3].
Defined.

(** X4. With stride 1 nothing is subsampled and the weights are stored as
    they are given: they are not renormalised, whatever they sum to. *)
Theorem X4_stride_one_keeps_weights {frame embeds nls : Type}
    (coords forces : list frame) (emb : embeds) (nl : nls)
    (b : Z) (wa : list tval) (concat : bool) obj :
  init coords forces emb nl b 1 (Some wa) concat = Ok obj ->
  weights obj = Some wa /\ cg_coords obj = coords /\ cg_forces obj = forces.
Proof.
  intros H.
  destruct (init_inv_record coords forces emb nl b 1 (Some wa) concat obj eq_refl H)
    as (st & _ & ->).
  cbn [weights cg_coords cg_forces stored_weights Z.eqb Pos.eqb negb].
  rewrite !kept_one. repeat split.
Qed.

Lemma X4_stride_one_witness :
  exists obj,
    init [tt; tt] [tt; tt] tt tt 2 1 (Some [Fin 2; Fin 2]) false = Ok obj
    /\ weights obj = Some [Fin 2; Fin 2].
Proof.
  assert (H : exists obj,
             init [tt; tt] [tt; tt] tt tt 2 1 (Some [Fin 2; Fin 2]) false = Ok obj)
    by (eexists; reflexivity).
  destruct H as [obj Hobj]. exists obj. split; [exact Hobj|].
  exact (proj1 (X4_stride_one_keeps_weights _ _ _ _ _ _ _ obj Hobj)).
Defined.

(** ** The batches of an object *)

Module BatchCover.
Import Strides Batch StridesProofs BatchProofs WindowFacts BatchItems BatchIteration
       BatchData.

Section Cover.
Context {frame embeds nls : Type}.
Implicit Types (b : @CGDataBatch frame embeds nls).

Lemma all_data_lookup b (g : nat) d :
  all_data b !! g = Some d <->
  exists p f w,
    cg_coords b !! g = Some p /\ frame_forces b !! g = Some f
    /\ frame_weights b !! g = Some w
    /\ d = mkDatum p (cg_embeds b) (cg_prior_nls b) f w.
Proof.
  unfold all_data. rewrite lookup_zip_with_Some. split.
  - intros (p & [f w] & -> & Hp & Hfw). apply lookup_zip_with_Some in Hfw
      as (f' & w' & Heq & Hf & Hw). injection Heq as -> ->.
    exists p, f', w'. repeat split; assumption.
  - intros (p & f & w & Hp & Hf & Hw & ->). exists p, (f, w).
    split; [reflexivity|]. split; [exact Hp|].
    apply lookup_zip_with_Some. exists f, w. repeat split; assumption.
Qed.

Lemma frame_datum_ok b (g : nat) d :
  all_data b !! g = Some d -> frame_datum b (Z.of_nat g) = Ok d.
Proof.
  intros H. apply all_data_lookup in H as (p & f & w & Hp & Hf & Hw & ->).
  unfold frame_datum. rewrite (py_index_ok _ _ _ Hp). cbn [rbind].
  unfold frame_forces in Hf. unfold frame_weights in Hw.
  destruct (concat_forces b).
  - rewrite list_lookup_fmap in Hf.
    destruct (cg_forces b !! g) as [f0|] eqn:Ef; [|discriminate].
    injection Hf as <-. rewrite (py_index_ok _ _ _ Ef). cbn [rbind].
    destruct (weights b) as [ws|].
    + rewrite list_lookup_fmap in Hw.
      destruct (ws !! g) as [w0|] eqn:Ew; [|discriminate].
      injection Hw as <-. rewrite (py_index_ok _ _ _ Ew). reflexivity.
    + rewrite list_lookup_fmap, Hp in Hw. injection Hw as <-. reflexivity.
  - rewrite list_lookup_fmap, Hp in Hf. injection Hf as <-. cbn [rbind].
    destruct (weights b) as [ws|].
    + rewrite list_lookup_fmap in Hw.
      destruct (ws !! g) as [w0|] eqn:Ew; [|discriminate].
      injection Hw as <-. rewrite (py_index_ok _ _ _ Ew). reflexivity.
    + rewrite list_lookup_fmap, Hp in Hw. injection Hw as <-. reflexivity.
Qed.

Lemma frame_data_ok b (m s : nat) :
  (s + m <= length (all_data b))%nat ->
  frame_data b (seqZ (Z.of_nat s) (Z.of_nat m)) = Ok (take m (drop s (all_data b))).
Proof.
  revert s. induction m as [|m IH]; intros s Hlen.
  - rewrite seqZ_nil by lia. reflexivity.
  - rewrite seqZ_cons by lia. cbn [frame_data].
    destruct (all_data b !! s) as [d|] eqn:Ed;
      [|apply lookup_ge_None in Ed; lia].
    rewrite (frame_datum_ok b s d Ed). cbn [rbind].
    replace (Z.succ (Z.of_nat s)) with (Z.of_nat (S s)) by lia.
    replace (Z.pred (Z.of_nat (S m))) with (Z.of_nat m) by lia.
    rewrite IH by lia. cbn [rbind].
    rewrite (drop_S _ _ _ Ed). reflexivity.
Qed.

Lemma getitem_ok b (i : nat) (w : Z * Z) :
  strides b !! i = Some w ->
  0 <= fst w < snd w -> snd w <= Z.of_nat (length (all_data b)) ->
  getitem b (Z.of_nat i) = Ok (window_data b w) /\ window_data b w <> [].
Proof.
  intros Hw Hlt Hle. unfold getitem. rewrite (py_index_ok _ _ _ Hw). cbn [rbind].
  replace (fst w) with (Z.of_nat (Z.to_nat (fst w))) at 1 by lia.
  replace (snd w - fst w) with (Z.of_nat (Z.to_nat (snd w - fst w))) by lia.
  rewrite frame_data_ok by lia. cbn [rbind]. fold (window_data b w).
  assert (Hne : window_data b w <> []).
  { intros E. apply (f_equal length) in E. unfold window_data in E.
    rewrite length_take, length_drop in E. cbn [length] in E. lia. }
  split; [|exact Hne]. destruct (window_data b w); [contradiction|reflexivity].
Qed.

Lemma getitems_ok b (idxs : list nat) (f : nat -> Z * Z) :
  (forall i, i ∈ idxs ->
      strides b !! i = Some (f i) /\ 0 <= fst (f i) < snd (f i)
      /\ snd (f i) <= Z.of_nat (length (all_data b))) ->
  getitems b idxs = Ok (map (fun i => window_data b (f i)) idxs).
Proof.
  induction idxs as [|i idxs IH]; intros H; [reflexivity|].
  destruct (H i ltac:(left)) as (Hw & Hlt & Hle).
  cbn [getitems map]. rewrite (proj1 (getitem_ok b i (f i) Hw Hlt Hle)). cbn [rbind].
  rewrite IH by (intros j Hj; apply H; right; exact Hj). reflexivity.
Qed.

Lemma zip_columns (P : list frame) (F : list (option frame)) (W : list (option tval))
    (e : embeds) (n : nls) :
  length F = length P -> length W = length P ->
  let D := zip_with (fun p fw => mkDatum p e n (fst fw) (snd fw)) P (zip F W) in
  length D = length P
  /\ d_pos <$> D = P /\ d_forces <$> D = F /\ d_weights <$> D = W.
Proof.
  revert F W. induction P as [|p P IH]; intros F W HF HW.
  - destruct F; [|discriminate]. destruct W; [|discriminate]. repeat split.
  - destruct F as [|f F]; [discriminate|]. destruct W as [|w W]; [discriminate|].
    cbn [length] in HF, HW.
    destruct (IH F W ltac:(lia) ltac:(lia)) as (H1 & H2 & H3 & H4).
    cbn zeta in *. unfold zip in *. cbn [zip_with length fst snd].
    rewrite !fmap_cons. cbn [d_pos d_forces d_weights].
    rewrite H1, H2, H3, H4. repeat split.
Qed.

(** With forces and weights for every frame, the data of all frames line up
    with the stored arrays. *)
Lemma all_data_columns b :
  length (frame_forces b) = length (cg_coords b) ->
  length (frame_weights b) = length (cg_coords b) ->
  length (all_data b) = length (cg_coords b)
  /\ d_pos <$> all_data b = cg_coords b
  /\ d_forces <$> all_data b = frame_forces b
  /\ d_weights <$> all_data b = frame_weights b.
Proof.
  intros HF HW. exact (zip_columns _ _ _ (cg_embeds b) (cg_prior_nls b) HF HW).
Qed.

(** The windows of [get_strides] cut a list of [n] entries into pieces that
    give the list back when put together. *)
Lemma windows_tile {A} (D : list A) (n bs : Z) (j : nat) :
  0 < bs -> 0 < n -> (j <= n_windows n bs)%nat ->
  concat (map (fun i =>
                 take (Z.to_nat (snd (window n bs i) - fst (window n bs i)))
                      (drop (Z.to_nat (fst (window n bs i))) D))
              (seq 0 j))
  = take (Z.to_nat (Z.min (Z.of_nat j * bs) n)) D.
Proof.
  intros Hb Hn. induction j as [|j IH]; intros Hj.
  - cbn [seq map concat]. rewrite Z.min_l by lia. reflexivity.
  - rewrite seq_S, map_app, concat_app, IH by lia. cbn [map concat Nat.add].
    rewrite app_nil_r.
    pose proof (window_size n bs j Hb Hn ltac:(lia)) as Hw.
    unfold window in *. cbn [fst snd] in *.
    destruct Hw as (H1 & H2 & _).
    rewrite (Z.min_l (Z.of_nat j * bs) n) by lia.
    rewrite take_take_drop. f_equal.
    replace (Z.of_nat (S j) * bs) with (Z.of_nat j * bs + bs) by lia. lia.
Qed.

End Cover.
End BatchCover.

Import WindowFacts BatchData BatchCover.

(** X5. With a positive stride and a positive batch size, of which the
    batch size or the number of retained frames is at most 2^53 (so that the
    effective batch size is held exactly by a [float64]), and with forces
    (when they are requested) and weights (when they are given) for as many
    frames as there are coordinates, every batch of the object can be read,
    no batch is empty or larger than the batch size, and the batches put
    together hold every retained frame exactly once and in order: positions,
    forces only when [concat_forces] is set, the stored weight of the frame
    only when there are weights. *)
Theorem X5_batches_hold_every_frame_once {frame embeds nls : Type}
    (coords forces : list frame) (emb : embeds) (nl : nls)
    (b str : Z) (w : option (list tval)) (concat : bool) :
  0 < str -> 0 < b ->
  b <= 2 ^ 53 \/ Z.of_nat (length (kept str coords)) <= 2 ^ 53 ->
  (concat = true -> length forces = length coords) ->
  (forall wa, w = Some wa -> length wa = length coords) ->
  exists obj bs,
    init coords forces emb nl b str w concat = Ok obj
    /\ all_batches obj = Ok bs
    /\ length bs = len obj
    /\ Forall (fun ds => ds <> [] /\ Z.of_nat (length ds) <= batch_size obj) bs
    /\ d_pos <$> List.concat bs = cg_coords obj
    /\ d_forces <$> List.concat bs
       = (if concat then Some <$> cg_forces obj else (fun _ => None) <$> cg_coords obj)
    /\ d_weights <$> List.concat bs
       = match weights obj with
         | Some ws => Some <$> ws
         | None => (fun _ => None) <$> cg_coords obj
         end.
Proof.
  intros Hs Hb H53 Hf Hw.
  set (n := Z.of_nat (length (kept str coords))) in *.
  set (b' := if n <? b then n else b).
  assert (Hb53 : b' <= 2 ^ 53) by (unfold b'; destruct (Z.ltb_spec n b); lia).
  destruct (CappedStrides.get_strides_capped_ok n b ltac:(lia) Hb) as [st Hst].
  fold b' in Hst.
  pose proof (init_ok coords forces emb nl b str w concat st Hs Hst) as Hinit.
  fold n b' in Hinit.
  set (obj := {| batch_size := b'; stride := str; concat_forces := concat;
                 cg_coords := kept str coords; cg_forces := kept str forces;
                 cg_embeds := emb; cg_prior_nls := nl;
                 weights := stored_weights str w; n_structure := n;
                 strides := st; n_elem := length st |}) in *.
  assert (Hk : (0 < Z.to_nat str)%nat) by lia.
  assert (HF : length (frame_forces obj) = length (cg_coords obj)).
  { unfold frame_forces. cbn [concat_forces cg_forces cg_coords obj].
    destruct concat; rewrite length_fmap; [|reflexivity].
    unfold kept. rewrite !strided_aux_length, (Hf eq_refl) by exact Hk. reflexivity. }
  assert (HW : length (frame_weights obj) = length (cg_coords obj)).
  { unfold frame_weights. cbn [weights cg_coords obj]. unfold stored_weights.
    destruct w as [wa|]; [|apply length_fmap].
    rewrite length_fmap.
    assert (Hl : length (kept str wa) = length (kept str coords)).
    { unfold kept. rewrite !strided_aux_length, (Hw wa eq_refl) by exact Hk.
      reflexivity. }
    destruct (negb (str =? 1)); [rewrite length_map|]; exact Hl. }
  destruct (all_data_columns obj HF HW) as (HL & Hpos & Hfor & Hwei).
  assert (Hcover : exists bs,
            all_batches obj = Ok bs /\ length bs = len obj
            /\ Forall (fun ds => ds <> [] /\ Z.of_nat (length ds) <= b') bs
            /\ List.concat bs = all_data obj).
  { destruct (Z.eq_dec n 0) as [Hn0|Hn0].
    - assert (Hb' : b' = 0) by (unfold b'; destruct (Z.ltb_spec n b); lia).
      rewrite Hn0, Hb' in Hst. cbn in Hst. injection Hst as <-.
      exists []. split; [reflexivity|]. split; [reflexivity|].
      split; [constructor|].
      cbn [List.concat]. symmetry. apply nil_length_inv.
      rewrite HL. cbn [cg_coords obj]. lia.
    - assert (Hn : 0 < n) by lia.
      assert (Hb' : 0 < b') by (unfold b'; destruct (Z.ltb_spec n b); lia).
      rewrite (get_strides_closed n b' Hb' Hb53 ltac:(lia)) in Hst.
      injection Hst as <-.
      set (k := n_windows n b') in *.
      assert (Hwin : forall i, i ∈ seq 0 k ->
                strides obj !! i = Some (window n b' i)
                /\ 0 <= fst (window n b' i) < snd (window n b' i)
                /\ snd (window n b' i) <= Z.of_nat (length (all_data obj))).
      { intros i Hi. apply elem_of_seq in Hi.
        pose proof (window_size n b' i Hb' Hn ltac:(lia)) as Hsz.
        split; [apply lookup_windows; split; [lia|reflexivity]|].
        destruct (window n b' i) as [s e]. cbn [fst snd].
        rewrite HL. cbn [cg_coords obj]. fold n. lia. }
      exists (map (fun i => window_data obj (window n b' i)) (seq 0 k)).
      split.
      { unfold all_batches, len. cbn [n_elem obj].
        rewrite length_map, length_seq. fold k. apply getitems_ok, Hwin. }
      split.
      { unfold len. cbn [n_elem obj]. rewrite !length_map, !length_seq. reflexivity. }
      split.
      { apply Forall_forall. intros ds Hds.
        apply list_elem_of_In, in_map_iff in Hds as (i & <- & Hi).
        apply list_elem_of_In in Hi.
        destruct (Hwin i Hi) as (Hw' & Hlt & Hle).
        split; [exact (proj2 (getitem_ok obj i _ Hw' Hlt Hle))|].
        apply elem_of_seq in Hi.
        pose proof (window_size n b' i Hb' Hn ltac:(lia)) as Hsz.
        unfold window_data. rewrite length_take, length_drop.
        destruct (window n b' i) as [s e] eqn:E. cbn [fst snd] in *.
        unfold window in E. injection E as <- <-. lia. }
      unfold window_data.
      rewrite (windows_tile (all_data obj) n b' k Hb' Hn (le_n k)).
      apply take_ge. rewrite HL. cbn [cg_coords obj]. fold n.
      pose proof (n_windows_pos n b' Hb' Hn) as Hkpos. fold k in Hkpos.
      pose proof (window_last n b' (k - 1) Hb' Hn ltac:(unfold k in *; lia)) as Hl.
      assert (Hkb : Z.of_nat k * b' = Z.of_nat (k - 1) * b' + b') by nia.
      rewrite Hkb, Z.min_r by lia. lia. }
  destruct Hcover as (bs & Hall & Hlen & Hsize & Hcat).
  exists obj, bs. split; [exact Hinit|]. split; [exact Hall|].
  split; [exact Hlen|]. split; [exact Hsize|].
  rewrite Hcat. split; [exact Hpos|]. split; [exact Hfor|exact Hwei].
Qed.

Lemma X5_batches_witness :
  exists obj bs,
    init [1; 2; 3; 4; 5] [10; 20; 30; 40; 50] tt tt 2 1 None true = Ok obj
    /\ all_batches obj = Ok bs
    /\ length bs = 3%nat
    /\ d_pos <$> List.concat bs = [1; 2; 3; 4; 5]
    /\ d_forces <$> List.concat bs = [Some 10; Some 20; Some 30; Some 40; Some 50].
Proof.
  destruct (X5_batches_hold_every_frame_once
              [1; 2; 3; 4; 5] [10; 20; 30; 40; 50] tt tt 2 1 None true)
    as (obj & bs & H1 & H2 & H3 & _ & H4 & H5 & _);
    [lia | lia | left; lia | reflexivity | discriminate |].
  exists obj, bs. split; [exact H1|]. split; [exact H2|].
  vm_compute in H1. injection H1 as <-.
  split; [exact H3|]. split; [exact H4|exact H5].
Defined.

(** ** Reading a batch that lacks forces *)

Module BatchFailure.
Import Strides Batch BatchItems.

Lemma py_index_raises {A} (a : list A) (idx : Z) (e : exn) :
  py_index a idx = Raise e -> e = IndexError.
Proof.
  unfold py_index. destruct (_ && _); [|congruence].
  destruct (a !! _); congruence.
Qed.

Section Failure.
Context {frame embeds nls : Type}.
Implicit Types (b : @CGDataBatch frame embeds nls).

Lemma frame_datum_raises b ii e : frame_datum b ii = Raise e -> e = IndexError.
Proof.
  unfold frame_datum.
  destruct (py_index (cg_coords b) ii) as [p|e1] eqn:E1; cbn [rbind];
    [|intros [= <-]; eapply py_index_raises, E1].
  destruct (concat_forces b).
  - destruct (py_index (cg_forces b) ii) as [f|e2] eqn:E2; cbn [rbind];
      [|intros [= <-]; eapply py_index_raises, E2].
    destruct (weights b) as [ws|]; cbn [rbind]; [|discriminate].
    destruct (py_index ws ii) as [x|e3] eqn:E3; cbn [rbind];
      [discriminate|intros [= <-]; eapply py_index_raises, E3].
  - cbn [rbind]. destruct (weights b) as [ws|]; cbn [rbind]; [|discriminate].
    destruct (py_index ws ii) as [x|e3] eqn:E3; cbn [rbind];
      [discriminate|intros [= <-]; eapply py_index_raises, E3].
Qed.

Lemma frame_data_raises b (l : list Z) (ii : Z) :
  ii ∈ l -> frame_datum b ii = Raise IndexError ->
  frame_data b l = Raise IndexError.
Proof.
  intros Hin Hii. induction l as [|x l IH]; [inversion Hin|].
  cbn [frame_data]. destruct (frame_datum b x) as [d|e] eqn:E; cbn [rbind].
  - apply elem_of_cons in Hin as [->|Hin]; [congruence|].
    rewrite (IH Hin). reflexivity.
  - f_equal. eapply frame_datum_raises, E.
Qed.

Lemma frame_datum_no_forces b (g : nat) :
  concat_forces b = true ->
  (g < length (cg_coords b))%nat -> (length (cg_forces b) <= g)%nat ->
  frame_datum b (Z.of_nat g) = Raise IndexError.
Proof.
  intros Hc Hg Hf. unfold frame_datum.
  destruct (cg_coords b !! g) as [p|] eqn:Ep;
    [|apply lookup_ge_None in Ep; lia].
  rewrite (py_index_ok _ _ _ Ep). cbn [rbind]. rewrite Hc.
  rewrite py_index_out_of_range by lia. reflexivity.
Qed.

End Failure.
End BatchFailure.

Import BatchFailure.

(** X6. The constructor does not compare the number of force frames with
    the number of coordinate frames.  With [concat_forces] set and fewer
    retained force frames than coordinate frames the object is still built,
    and reading its last batch fails with an [IndexError] (for a batch size
    or a number of retained frames of at most 2^53, so that the last batch
    ends with the last coordinate frame). *)
Theorem X6_missing_force_frames_fail_late {frame embeds nls : Type}
    (coords forces : list frame) (emb : embeds) (nl : nls)
    (b str : Z) (w : option (list tval)) :
  0 < str -> 0 < b ->
  b <= 2 ^ 53 \/ Z.of_nat (length (kept str coords)) <= 2 ^ 53 ->
  (length (kept str forces) < length (kept str coords))%nat ->
  exists obj,
    init coords forces emb nl b str w true = Ok obj
    /\ (0 < len obj)%nat
    /\ getitem obj (Z.of_nat (len obj - 1)) = Raise IndexError.
Proof.
  intros Hs Hb H53 Hlt.
  set (n := Z.of_nat (length (kept str coords))) in *.
  set (b' := if n <? b then n else b).
  assert (Hn : 0 < n) by lia.
  assert (Hb' : 0 < b') by (unfold b'; destruct (Z.ltb_spec n b); lia).
  assert (Hb53 : b' <= 2 ^ 53) by (unfold b'; destruct (Z.ltb_spec n b); lia).
  pose proof (get_strides_closed n b' Hb' Hb53 ltac:(lia)) as Hst.
  pose proof (init_ok coords forces emb nl b str w true _ Hs Hst) as Hinit.
  pose proof (n_windows_pos n b' Hb' Hn) as Hk.
  eexists. split; [exact Hinit|].
  unfold len. cbn [n_elem]. rewrite length_map, length_seq.
  split; [exact Hk|].
  set (k := n_windows n b') in *.
  pose proof (window_size n b' (k - 1) Hb' Hn ltac:(lia)) as Hsz.
  unfold getitem. cbn [strides].
  rewrite (py_index_ok _ (k - 1) (window n b' (k - 1)))
    by (apply lookup_windows; split; [lia|reflexivity]).
  cbn [rbind]. destruct (window n b' (k - 1)) as [s e]. cbn [fst snd].
  destruct Hsz as (H1 & H2 & _ & H4). destruct (H4 ltac:(lia)) as [He _].
  rewrite (frame_data_raises _ _ (Z.of_nat (length (kept str coords) - 1)));
    [reflexivity| |].
  - apply list_elem_of_lookup. exists (Z.to_nat (n - 1 - s)).
    rewrite lookup_seqZ_lt by lia. f_equal. lia.
  - apply frame_datum_no_forces; [reflexivity| |]; cbn [cg_coords cg_forces]; lia.
Qed.

Lemma X6_missing_force_frames_witness :
  exists obj,
    init [1; 2; 3; 4] [10; 20] tt tt 2 1 None true = Ok obj
    /\ (0 < len obj)%nat
    /\ getitem obj (Z.of_nat (len obj - 1)) = Raise IndexError.
Proof.
  apply (X6_missing_force_frames_fail_late [1; 2; 3; 4] [10; 20] tt tt 2 1 None);
    [lia | lia | left; lia | simpl; lia].
Defined.

(** ** More on [apply_cg_mapping] *)

Module MappingMore.
Import Sample SampleProofs MappingProofs.

Lemma Qsum_zeros (n : nat) : Qsum (repeat 0%Q n) == 0.
Proof.
  induction n as [|n IH]; simpl; [reflexivity|]. rewrite IH. reflexivity.
Qed.

Lemma Qsum_one_hot (n j : nat) :
  (j < n)%nat -> Qsum (<[j := 1%Q]> (repeat 0%Q n)) == 1.
Proof.
  revert j. induction n as [|n IH]; intros j Hj; [lia|].
  destruct j as [|j]; simpl.
  - rewrite Qsum_zeros. reflexivity.
  - rewrite IH by lia. reflexivity.
Qed.

Lemma count_ones_zeros (n : nat) :
  filter (fun x => Qeq_bool x 1 = true) (repeat 0%Q n) = [].
Proof.
  induction n as [|n IH]; [reflexivity|]. cbn [repeat].
  rewrite filter_cons_False by (vm_compute; discriminate). exact IH.
Qed.

Lemma count_ones_one_hot (n j : nat) :
  (j < n)%nat ->
  length (filter (fun x => Qeq_bool x 1 = true) (<[j := 1%Q]> (repeat 0%Q n))) = 1%nat.
Proof.
  revert j. induction n as [|n IH]; intros j Hj; [lia|].
  destruct j as [|j]; cbn [repeat insert list_insert].
  - rewrite filter_cons_True by reflexivity. cbn [length].
    rewrite count_ones_zeros. reflexivity.
  - rewrite filter_cons_False by (vm_compute; discriminate). apply IH. lia.
Qed.

(** The slice matrix has one row per retained atom, with its single 1 in
    the column of that atom; both checks of the method pass on it. *)
Lemma slice_matrix_spec (n : nat) (idx : list nat) (m : matrix) :
  slice_matrix n idx = Ok m ->
  Forall2 (fun j row => (j < n)%nat /\ row = <[j := 1%Q]> (repeat 0%Q n)) idx m
  /\ forallb row_sums_to_one m = true
  /\ forallb row_has_one_1 m = true.
Proof.
  revert m. induction idx as [|j idx IH]; intros m H; cbn [slice_matrix] in H.
  - injection H as <-. split; [constructor|split; reflexivity].
  - unfold one_hot in H. destruct (Nat.ltb_spec j n) as [Hj|]; [|discriminate].
    cbn [rbind] in H. destruct (slice_matrix n idx) as [rows|] eqn:E; [|discriminate].
    cbn [rbind] in H. injection H as <-.
    destruct (IH rows eq_refl) as (H1 & H2 & H3).
    split; [constructor; [split; [exact Hj|reflexivity]|exact H1]|].
    cbn [forallb]. rewrite H2, H3. split; apply andb_true_iff; split; try reflexivity.
    + unfold row_sums_to_one. apply Qeq_bool_iff, Qsum_one_hot, Hj.
    + unfold row_has_one_1. rewrite count_ones_one_hot by exact Hj. reflexivity.
Qed.

Lemma slice_matrix_out_of_range (n : nat) (idx : list nat) :
  Exists (fun j => (n <= j)%nat) idx -> slice_matrix n idx = Raise IndexError.
Proof.
  induction idx as [|j idx IH]; intros H; [inversion H|].
  cbn [slice_matrix]. unfold one_hot.
  destruct (Nat.ltb_spec j n) as [Hj|Hj]; [|reflexivity].
  cbn [rbind]. inversion H as [? ? Hh|? ? Ht]; subst; [lia|].
  rewrite (IH Ht). reflexivity.
Qed.

Section WithCollaborators.
Context {ext : Collaborators}.

(** The state in which the method leaves the object once the tables and
    the indices are assigned and before the slice matrix exists. *)
Lemma apply_cg_mapping_steps (st : SampleCollection) cg_atoms ef nm d skip top :
  embedding_maps nm = Some d ->
  top_dataframe st = Some top ->
  let top' := map (map_cg_topology cg_atoms ef skip) top in
  let idx := indices_from mapped 0 top' in
  let st1 :=
    set_cg_dataframe (renumber_resSeq (renumber_serial (mapped_rows cg_atoms ef skip top)))
      (set_cg_atom_indices idx (set_top_dataframe top' (set_embedding_dict d st))) in
  apply_cg_mapping cg_atoms ef (inl nm) skip st =
  match input_traj st with
  | None => (Raise AttributeError, st1, [])
  | Some traj =>
      match slice_matrix (n_atoms traj) idx with
      | Raise e => (Raise e, st1, [])
      | Ok m =>
          (Ok tt, set_C_term None (set_N_term None (set_cg_map m st1)),
           (if negb (forallb row_sums_to_one m)
            then [Warn "WARNING: Slice mapping matrix is not unique."] else [])
           ++ (if negb (forallb row_has_one_1 m)
               then [Warn "WARNING: Slice mapping matrix is not linear."] else []))
      end
  end.
Proof.
  intros Hd Htop top' idx st1.
  unfold apply_cg_mapping. rewrite Hd.
  unfold bind at 1. unfold modify at 1.
  unfold bind at 1. unfold attr at 1. cbn [top_dataframe set_embedding_dict].
  rewrite Htop. fold top'. fold idx.
  do 3 (unfold bind at 1; unfold modify at 1).
  unfold bind at 1. unfold attr at 1.
  cbn [input_traj set_embedding_dict set_top_dataframe set_cg_atom_indices
       set_cg_dataframe].
  unfold mapped_rows in st1. fold top' in st1. fold st1.
  destruct (input_traj st) as [traj|]; [|reflexivity].
  unfold bind at 1. unfold lift at 1.
  destruct (slice_matrix (n_atoms traj) idx) as [m|e]; [|reflexivity].
  unfold bind, when, emit, modify, ret.
  destruct (negb (forallb row_sums_to_one m)), (negb (forallb row_has_one_1 m));
    reflexivity.
Qed.

End WithCollaborators.
End MappingMore.

Module TableFacts.
Import Sample RenumberProofs.

Lemma indices_from_filter {A} (p : A -> bool) (l : list A) (k : nat) :
  Forall2 (fun j x => (k <= j)%nat /\ l !! (j - k)%nat = Some x)
    (indices_from p k l) (filter (fun x => p x = true) l).
Proof.
  revert k. induction l as [|x t IH]; intros k; [constructor|].
  assert (Ht : Forall2 (fun j y => (k <= j)%nat /\ (x :: t) !! (j - k)%nat = Some y)
                 (indices_from p (S k) t) (filter (fun y => p y = true) t)).
  { eapply Forall2_impl; [apply (IH (S k))|].
    intros j y [Hj Hy]. split; [lia|].
    replace (j - k)%nat with (S (j - S k)) by lia. exact Hy. }
  cbn [indices_from]. destruct (p x) eqn:E.
  - rewrite filter_cons_True by exact E. constructor; [|exact Ht].
    split; [lia|]. rewrite Nat.sub_diag. reflexivity.
  - rewrite filter_cons_False by congruence. exact Ht.
Qed.

Lemma indices_from_increasing {A} (p : A -> bool) (l : list A) (k : nat) :
  forall i1 i2 j1 j2,
    (i1 < i2)%nat ->
    indices_from p k l !! i1 = Some j1 -> indices_from p k l !! i2 = Some j2 ->
    (k <= j1 < j2)%nat.
Proof.
  revert k. induction l as [|x t IH]; intros k i1 i2 j1 j2 Hlt H1 H2;
    [discriminate|].
  cbn [indices_from] in H1, H2. destruct (p x).
  - destruct i2 as [|i2]; [lia|]. cbn in H2.
    destruct i1 as [|i1].
    + injection H1 as <-.
      assert (j2 ∈ indices_from p (S k) t) as Hin
        by (eapply list_elem_of_lookup_2, H2).
      apply TerminalRows.elem_of_indices_from in Hin as (k' & y & -> & _). lia.
    + cbn in H1. destruct (IH (S k) i1 i2 j1 j2 ltac:(lia) H1 H2). lia.
  - destruct (IH (S k) i1 i2 j1 j2 Hlt H1 H2). lia.
Qed.

Lemma sum_nat_take_mono (l : list nat) (c d : nat) :
  (c <= d)%nat -> sum_nat (take c l) <= sum_nat (take d l).
Proof.
  revert c d. induction l as [|x l IH]; intros c d H.
  - rewrite !take_nil. lia.
  - destruct c as [|c]; [cbn [take]; apply sum_nat_nonneg|].
    destruct d as [|d]; [lia|]. cbn [take].
    change (sum_nat (x :: take c l)) with (Z.of_nat x + sum_nat (take c l)).
    change (sum_nat (x :: take d l)) with (Z.of_nat x + sum_nat (take d l)).
    specialize (IH c d ltac:(lia)). lia.
Qed.

Lemma chain_offset_mono (cs : list nat) (c d : nat) :
  (c <= d)%nat -> chain_offset cs c <= chain_offset cs d.
Proof.
  intros H. unfold chain_offset. rewrite <- !firstn_map.
  change firstn with (@take nat). apply sum_nat_take_mono, H.
Qed.

Lemma chain_offset_0 (cs : list nat) : chain_offset cs 0 = 0.
Proof. reflexivity. Qed.

(** Row [i] of the renumbered table, from row [i] of the table it is made
    from. *)
Lemma renumbered_lookup (rows : list atom_row) (i : nat) (r0 : atom_row) :
  rows !! i = Some r0 ->
  renumber_resSeq (renumber_serial rows) !! i =
  Some (mkRow (Z.of_nat i + 1) (name r0)
          (resSeq r0 + chain_offset (map chainID rows) (chainID r0))
          (resName r0) (chainID r0) (mapped r0) (type r0)).
Proof.
  intros H. unfold renumber_resSeq. rewrite renumber_serial_chainID.
  change (map ?f ?l) with (f <$> l) at 1.
  rewrite list_lookup_fmap. unfold renumber_serial.
  rewrite list_lookup_imap, H. reflexivity.
Qed.

End TableFacts.

Import Sample SampleProofs MappingProofs RenumberProofs MappingMore TableFacts.

Section MappingMoreProperties.
Context {ext : Collaborators}.

(** X7. When the trajectory has at least as many atoms as the table has
    rows, [apply_cg_mapping] returns without any warning: the slice matrix
    it stores has one row per retained atom, all zeros except a single 1 in
    the column of that atom, so neither check of the matrix can fail.  The
    terminal names are reset to [None]. *)
Theorem X7_slice_matrix_is_one_hot (st : SampleCollection)
    (cg_atoms : list string) (ef nm : string) (d : gmap string Z)
    (skip : option (list string)) (top : list atom_row) (traj : Trajectory) :
  embedding_maps nm = Some d ->
  top_dataframe st = Some top ->
  input_traj st = Some traj ->
  (length top <= n_atoms traj)%nat ->
  exists st' m idx,
    apply_cg_mapping cg_atoms ef (inl nm) skip st = (Ok tt, st', [])
    /\ cg_map st' = Some m
    /\ cg_atom_indices st' = Some idx
    /\ N_term st' = Some None /\ C_term st' = Some None
    /\ length m = length idx
    /\ forall i j, idx !! i = Some j ->
         (j < n_atoms traj)%nat
         /\ m !! i = Some (<[j := 1%Q]> (repeat 0%Q (n_atoms traj))).
Proof.
  intros Hd Htop Htraj Hlen.
  set (top' := map (map_cg_topology cg_atoms ef skip) top).
  destruct (slice_matrix_ok (n_atoms traj) (indices_from mapped 0 top')) as (m & Hm & Hl).
  { eapply Forall_impl; [apply indices_from_lt|].
    simpl. intros j Hj. unfold top' in Hj. rewrite length_map in Hj. lia. }
  destruct (slice_matrix_spec _ _ _ Hm) as (Hrows & W1 & W2).
  eexists. exists m, (indices_from mapped 0 top').
  split.
  { rewrite (apply_cg_mapping_steps st cg_atoms ef nm d skip top Hd Htop).
    rewrite Htraj. fold top'. rewrite Hm, W1, W2. reflexivity. }
  cbn [cg_map cg_atom_indices N_term C_term set_C_term set_N_term set_cg_map
       set_cg_dataframe set_cg_atom_indices].
  split; [reflexivity|]. split; [reflexivity|].
  split; [reflexivity|]. split; [reflexivity|].
  split; [exact Hl|].
  intros i j Hi. destruct (Forall2_lookup_l _ _ _ _ _ Hrows Hi) as (row & Hrow & Hj & ->).
  split; assumption.
Qed.

(** X8. The CG table is the order-preserving selection of the mapped rows:
    it has one row per retained atom index, row i carries serial i + 1 and
    the name, residue name, chain and embedding code of the mapped row of
    the atomistic table at the i-th retained index, and the retained
    indices increase strictly. *)
Theorem X8_cg_table_is_dense_selection (st : SampleCollection)
    (cg_atoms : list string) (ef nm : string) (d : gmap string Z)
    (skip : option (list string)) (top : list atom_row) (traj : Trajectory) :
  embedding_maps nm = Some d ->
  top_dataframe st = Some top ->
  input_traj st = Some traj ->
  (length top <= n_atoms traj)%nat ->
  exists st' log top' idx df,
    apply_cg_mapping cg_atoms ef (inl nm) skip st = (Ok tt, st', log)
    /\ top_dataframe st' = Some top'
    /\ cg_atom_indices st' = Some idx
    /\ cg_dataframe st' = Some df
    /\ length df = length idx
    /\ (forall i r, df !! i = Some r ->
          serial r = Z.of_nat i + 1
          /\ exists j r0,
               idx !! i = Some j /\ top' !! j = Some r0 /\ mapped r0 = true
               /\ name r = name r0 /\ resName r = resName r0
               /\ chainID r = chainID r0 /\ type r = type r0)
    /\ (forall i1 i2 j1 j2,
          (i1 < i2)%nat -> idx !! i1 = Some j1 -> idx !! i2 = Some j2 ->
          (j1 < j2)%nat).
Proof.
  intros Hd Htop Htraj Hlen.
  destruct (apply_cg_mapping_ok st cg_atoms ef nm d skip top traj Hd Htop Htraj Hlen)
    as (m & log & Hrun).
  set (top' := map (map_cg_topology cg_atoms ef skip) top) in *.
  pose proof (indices_from_filter mapped top' 0) as Hsel.
  fold (mapped_rows cg_atoms ef skip top) in Hsel.
  eexists. exists log, top', (indices_from mapped 0 top'). eexists.
  split; [exact Hrun|].
  cbn [top_dataframe cg_atom_indices cg_dataframe].
  split; [reflexivity|]. split; [reflexivity|]. split; [reflexivity|].
  split.
  { unfold renumber_resSeq, renumber_serial. rewrite length_map, length_imap.
    symmetry. eapply Forall2_length, Hsel. }
  split.
  - intros i r Hi.
    destruct (mapped_rows cg_atoms ef skip top !! i) as [r0|] eqn:E0.
    + rewrite (renumbered_lookup _ _ _ E0) in Hi. injection Hi as <-.
      split; [reflexivity|].
      destruct (Forall2_lookup_r _ _ _ _ _ Hsel E0) as (j & Hj & _ & Hr0).
      rewrite Nat.sub_0_r in Hr0. exists j, r0.
      split; [exact Hj|]. split; [exact Hr0|].
      split; [|repeat split].
      assert (Hin : r0 ∈ mapped_rows cg_atoms ef skip top)
        by (eapply list_elem_of_lookup_2, E0).
      unfold mapped_rows in Hin. apply list_elem_of_filter in Hin as [Hm _]. exact Hm.
    + exfalso. apply lookup_ge_None in E0.
      apply lookup_lt_Some in Hi.
      unfold renumber_resSeq, renumber_serial in Hi.
      rewrite length_map, length_imap in Hi. lia.
  - intros i1 i2 j1 j2 Hlt H1 H2.
    destruct (indices_from_increasing mapped top' 0 i1 i2 j1 j2 Hlt H1 H2). lia.
Qed.

(** X9. The renumbering adds to every residue number the offset of the
    particle's chain and nothing else: residue numbers never decrease, a
    particle of chain 0 keeps its number, two particles of one chain keep
    their distance, and a chain with a higher number is shifted at least as
    far as a chain with a lower one. *)
Theorem X9_renumbering_shifts_whole_chains (st : SampleCollection)
    (cg_atoms : list string) (ef nm : string) (d : gmap string Z)
    (skip : option (list string)) (top : list atom_row) (traj : Trajectory) :
  embedding_maps nm = Some d ->
  top_dataframe st = Some top ->
  input_traj st = Some traj ->
  (length top <= n_atoms traj)%nat ->
  let rows := mapped_rows cg_atoms ef skip top in
  exists st' log df,
    apply_cg_mapping cg_atoms ef (inl nm) skip st = (Ok tt, st', log)
    /\ cg_dataframe st' = Some df
    /\ (forall i a, rows !! i = Some a ->
          exists r, df !! i = Some r
            /\ chainID r = chainID a
            /\ resSeq a <= resSeq r
            /\ (chainID a = 0%nat -> resSeq r = resSeq a))
    /\ (forall i1 i2 a1 a2 r1 r2,
          rows !! i1 = Some a1 -> rows !! i2 = Some a2 ->
          df !! i1 = Some r1 -> df !! i2 = Some r2 ->
          (chainID a1 = chainID a2 -> resSeq r1 - resSeq r2 = resSeq a1 - resSeq a2)
          /\ ((chainID a1 <= chainID a2)%nat ->
              resSeq r1 - resSeq a1 <= resSeq r2 - resSeq a2)).
Proof.
  intros Hd Htop Htraj Hlen rows.
  destruct (apply_cg_mapping_ok st cg_atoms ef nm d skip top traj Hd Htop Htraj Hlen)
    as (m & log & Hrun).
  eexists. exists log. eexists. split; [exact Hrun|].
  cbn [cg_dataframe]. split; [reflexivity|]. fold rows. split.
  - intros i a Ha. rewrite (renumbered_lookup _ _ _ Ha). eexists.
    split; [reflexivity|]. cbn [chainID resSeq]. split; [reflexivity|].
    pose proof (chain_offset_mono (map chainID rows) 0 (chainID a) ltac:(lia)) as H0.
    rewrite chain_offset_0 in H0. split; [lia|].
    intros ->. rewrite chain_offset_0. lia.
  - intros i1 i2 a1 a2 r1 r2 Ha1 Ha2 Hr1 Hr2.
    rewrite (renumbered_lookup _ _ _ Ha1) in Hr1.
    rewrite (renumbered_lookup _ _ _ Ha2) in Hr2.
    injection Hr1 as <-. injection Hr2 as <-. cbn [resSeq]. split.
    + intros ->. lia.
    + intros Hle. pose proof (chain_offset_mono (map chainID rows) _ _ Hle). lia.
Qed.

(** X10. Without a trajectory [apply_cg_mapping] fails halfway: it raises
    an [AttributeError] after the tables and [cg_atom_indices] have been
    assigned and before the slice matrix is.  [save_cg_output] (with an
    output directory that exists or can be created) then does not print
    that the mapping must be applied: it raises an [AttributeError] too,
    before it has written any file. *)
Theorem X10_mapping_without_trajectory (st : SampleCollection)
    (cg_atoms : list string) (ef nm : string) (d : gmap string Z)
    (skip : option (list string)) (top : list atom_row) :
  embedding_maps nm = Some d ->
  top_dataframe st = Some top ->
  input_traj st = None ->
  exists st' idx df,
    apply_cg_mapping cg_atoms ef (inl nm) skip st = (Raise AttributeError, st', [])
    /\ cg_atom_indices st' = Some idx
    /\ cg_dataframe st' = Some df
    /\ cg_map st' = cg_map st
    /\ forall save_dir scf scm cc cf,
         path_exists save_dir = true \/ makedirs_error save_dir = None ->
         exists log,
           save_cg_output save_dir scf scm cc cf st' = (Raise AttributeError, st', log)
           /\ Forall (fun e => is_save e = false) log.
Proof.
  intros Hd Htop Htraj.
  eexists. eexists. eexists. split.
  { rewrite (apply_cg_mapping_steps st cg_atoms ef nm d skip top Hd Htop).
    rewrite Htraj. reflexivity. }
  set (st' := set_cg_dataframe _ _).
  split; [reflexivity|]. split; [reflexivity|]. split; [reflexivity|].
  intros save_dir scf scm cc cf Hdir.
  exists (if path_exists save_dir then [] else [MakeDirs save_dir]). split.
  - unfold save_cg_output.
    rewrite (bind_ok _ _ st' tt st' (if path_exists save_dir then [] else [MakeDirs save_dir]))
      by (apply output_dir_ready, Hdir).
    rewrite (bind_ok _ _ st' true st' [])
      by (eapply hasattr_Some; reflexivity).
    cbn [negb]. rewrite (bind_ok _ _ st' st' st' []) by reflexivity.
    rewrite (bind_raise _ _ st' AttributeError st' []).
    + rewrite !app_nil_r. reflexivity.
    + unfold attr. assert (E : input_traj st' = None) by exact Htraj.
      rewrite E. reflexivity.
  - destruct (path_exists save_dir); repeat constructor.
Qed.

(** X11. When the table has a mapped row at a position that the
    trajectory does not have, [apply_cg_mapping] raises an [IndexError]
    while it fills the slice matrix: the tables and the indices are
    assigned, the slice matrix and the terminal names are not. *)
Theorem X11_mapped_atom_beyond_trajectory (st : SampleCollection)
    (cg_atoms : list string) (ef nm : string) (d : gmap string Z)
    (skip : option (list string)) (top : list atom_row) (traj : Trajectory)
    (j : nat) (r : atom_row) :
  embedding_maps nm = Some d ->
  top_dataframe st = Some top ->
  input_traj st = Some traj ->
  map (map_cg_topology cg_atoms ef skip) top !! j = Some r ->
  mapped r = true ->
  (n_atoms traj <= j)%nat ->
  exists st' idx,
    apply_cg_mapping cg_atoms ef (inl nm) skip st = (Raise IndexError, st', [])
    /\ cg_atom_indices st' = Some idx /\ j ∈ idx
    /\ cg_map st' = cg_map st
    /\ N_term st' = N_term st /\ C_term st' = C_term st.
Proof.
  intros Hd Htop Htraj Hj Hm Hge.
  set (top' := map (map_cg_topology cg_atoms ef skip) top) in *.
  assert (Hin : j ∈ indices_from mapped 0 top').
  { apply TerminalRows.elem_of_indices_from. exists j, r. repeat split; assumption. }
  eexists. exists (indices_from mapped 0 top'). split.
  { rewrite (apply_cg_mapping_steps st cg_atoms ef nm d skip top Hd Htop).
    rewrite Htraj. fold top'. rewrite slice_matrix_out_of_range; [reflexivity|].
    apply Exists_exists. exists j. split; [exact Hin|exact Hge]. }
  split; [reflexivity|]. split; [exact Hin|]. repeat split.
Qed.

End MappingMoreProperties.

Import Demo DemoMore.

Lemma X7_slice_matrix_witness :
  exists st' m idx,
    apply_cg_mapping ["CA"] "embedding" (inl "demo_dict") None dimer_loaded
    = (Ok tt, st', [])
    /\ cg_map st' = Some m
    /\ cg_atom_indices st' = Some idx
    /\ length m = length idx.
Proof.
  destruct (X7_slice_matrix_is_one_hot dimer_loaded ["CA"] "embedding" "demo_dict"
              demo_dict None homodimer_top (mkTraj 12 (mkTopology [] []))
              eq_refl eq_refl eq_refl (le_n 12))
    as (st' & m & idx & H1 & H2 & H3 & _ & _ & H4 & _).
  exists st', m, idx. repeat split; assumption.
Defined.

Lemma X8_cg_table_witness :
  exists st' log idx df,
    apply_cg_mapping ["CA"] "embedding" (inl "demo_dict") None dimer_loaded
    = (Ok tt, st', log)
    /\ cg_atom_indices st' = Some idx
    /\ cg_dataframe st' = Some df
    /\ length df = length idx.
Proof.
  destruct (X8_cg_table_is_dense_selection dimer_loaded ["CA"] "embedding" "demo_dict"
              demo_dict None homodimer_top (mkTraj 12 (mkTopology [] []))
              eq_refl eq_refl eq_refl (le_n 12))
    as (st' & log & top' & idx & df & H1 & _ & H2 & H3 & H4 & _).
  exists st', log, idx, df. repeat split; assumption.
Defined.

Lemma X9_renumbering_witness :
  exists st' log df,
    apply_cg_mapping ["CA"] "embedding" (inl "demo_dict") None dimer_loaded
    = (Ok tt, st', log)
    /\ cg_dataframe st' = Some df.
Proof.
  destruct (X9_renumbering_shifts_whole_chains dimer_loaded ["CA"] "embedding"
              "demo_dict" demo_dict None homodimer_top (mkTraj 12 (mkTopology [] []))
              eq_refl eq_refl eq_refl (le_n 12))
    as (st' & log & df & H1 & H2 & _).
  exists st', log, df. split; assumption.
Defined.

Lemma X10_mapping_without_trajectory_witness :
  exists st' idx,
    apply_cg_mapping ["CA"] "embedding" (inl "demo_dict") None (table_only two_chain_top)
    = (Raise AttributeError, st', [])
    /\ cg_atom_indices st' = Some idx
    /\ exists log,
         save_cg_output "out" true true None None st' = (Raise AttributeError, st', log)
         /\ Forall (fun e => is_save e = false) log.
Proof.
  destruct (X10_mapping_without_trajectory (table_only two_chain_top) ["CA"] "embedding"
              "demo_dict" demo_dict None two_chain_top eq_refl eq_refl eq_refl)
    as (st' & idx & df & H1 & H2 & _ & _ & H3).
  exists st', idx. split; [exact H1|]. split; [exact H2|].
  exact (H3 "out" true true None None (or_introl eq_refl)).
Defined.

Lemma X11_mapped_atom_beyond_trajectory_witness :
  exists st' idx,
    apply_cg_mapping ["CA"] "embedding" (inl "demo_dict") None (loaded two_chain_top 1)
    = (Raise IndexError, st', [])
    /\ cg_atom_indices st' = Some idx /\ 1%nat ∈ idx.
Proof.
  destruct (X11_mapped_atom_beyond_trajectory (loaded two_chain_top 1) ["CA"] "embedding"
              "demo_dict" demo_dict None two_chain_top (mkTraj 1 (mkTopology [] []))
              1 (mkRow 0 "CA" 1 "ALA" 1 true 2)
              eq_refl eq_refl eq_refl eq_refl eq_refl (le_n 1))
    as (st' & idx & H1 & H2 & H3 & _).
  exists st', idx. repeat split; assumption.
Defined.

(** ** More on [add_terminal_embeddings] *)

Module TerminalMore.
Import Sample SampleProofs MappingProofs TerminalProofs TerminalRows TerminalRun
       TerminalSpec.

Lemma chain_terminal_columns pick term (df1 df2 : list atom_row) (r1 r2 : atom_row) :
  (fun r => (resSeq r, name r, chainID r)) <$> df1
  = (fun r => (resSeq r, name r, chainID r)) <$> df2 ->
  resSeq r1 = resSeq r2 -> name r1 = name r2 -> chainID r1 = chainID r2 ->
  chain_terminal pick term df1 r1 = chain_terminal pick term df2 r2.
Proof.
  intros H H1 H2 H3. unfold chain_terminal, is_terminal. destruct term; [|reflexivity].
  rewrite H3, (columns_chain_resSeq df1 df2 (chainID r2) H), H1, H2. reflexivity.
Qed.

(** Assigning both terminal codes a second time changes nothing. *)
Lemma rows_after_twice (N C : option string) (cN cC : Z) (df : list atom_row) :
  let df' := rows_after column_max C cC (rows_after column_min N cN df) in
  rows_after column_max C cC (rows_after column_min N cN df') = df'.
Proof.
  intros df'.
  assert (Hcol : (fun r => (resSeq r, name r, chainID r)) <$> df'
                 = (fun r => (resSeq r, name r, chainID r)) <$> df).
  { unfold df'. rewrite !rows_after_columns. reflexivity. }
  apply list_eq. intros i.
  destruct (df !! i) as [r|] eqn:E.
  - pose proof (rows_after_both N C cN cC df i r E) as H'. fold df' in H'.
    rewrite (rows_after_both N C cN cC df' i _ H'), H'. f_equal.
    rewrite (chain_terminal_columns column_max C df' df _ r Hcol)
      by reflexivity.
    rewrite (chain_terminal_columns column_min N df' df _ r Hcol)
      by reflexivity.
    destruct (chain_terminal column_max C df r),
             (chain_terminal column_min N df r); reflexivity.
  - assert (Hlen : length df' = length df)
      by (unfold df'; rewrite !rows_after_length; reflexivity).
    apply lookup_ge_None in E.
    rewrite !(proj2 (lookup_ge_None _ _)); [reflexivity|lia|].
    rewrite !rows_after_length. lia.
Qed.

Lemma dict_max_empty : dict_max ∅ = Raise ValueError.
Proof. reflexivity. Qed.

Lemma dict_after_present key nm (d : gmap string Z) m c :
  d !! key = Some c ->
  dict_after key (Some nm) d m = d /\ code_of key d m = c.
Proof.
  intros H. unfold dict_after, code_of. rewrite H. split; reflexivity.
Qed.

End TerminalMore.

Import TerminalProofs TerminalRows TerminalRun TerminalSpec TerminalMore.

Section TerminalMoreProperties.
Context {ext : Collaborators}.

Lemma second_pass key pick term (d' : gmap string Z) m' c :
  (forall nm, term = Some nm -> d' !! key = Some c) ->
  dict_after key term d' m' = d'
  /\ forall df, rows_after pick term (code_of key d' m') df = rows_after pick term c df.
Proof.
  intros H. destruct term as [nm|]; [|split; reflexivity].
  destruct (dict_after_present key nm d' m' c (H nm eq_refl)) as [H1 H2].
  split; [exact H1|]. intros df. rewrite H2. reflexivity.
Qed.

(** X12. [add_terminal_embeddings] is idempotent: on a mapped object
    whose dictionary is not empty, a second call with the same arguments
    returns and leaves the object exactly as the first call left it; no
    further code is allocated and no embedding code changes. *)
Theorem X12_terminal_embeddings_idempotent (st : SampleCollection)
    (N C : option string) (df : list atom_row) (d : gmap string Z) (m : Z) :
  cg_dataframe st = Some df ->
  embedding_dict st = Some d ->
  dict_max d = Ok m ->
  exists st',
    add_terminal_embeddings N C st = (Ok tt, st', [])
    /\ add_terminal_embeddings N C st' = (Ok tt, st', []).
Proof.
  intros Hdf Hd Hm.
  destruct (add_terminal_embeddings_run N C st df d m Hdf Hd Hm)
    as (m1 & Hm1 & _ & _ & Hrun).
  set (d1 := dict_after "N_term" N d m) in *.
  set (cN := code_of "N_term" d m) in *.
  set (cC := code_of "C_term" d1 m1) in *.
  set (d2 := dict_after "C_term" C d1 m1) in *.
  set (df2 := rows_after column_max C cC (rows_after column_min N cN df)) in *.
  destruct (dict_after_max "C_term" C d1 m1 Hm1) as (m2 & Hm2 & _ & _).
  fold d2 in Hm2.
  eexists. split; [exact Hrun|].
  match goal with |- add_terminal_embeddings N C ?s = _ => set (st' := s) end.
  destruct (add_terminal_embeddings_run N C st' df2 d2 m2 eq_refl eq_refl Hm2)
    as (m3 & Hm3 & _ & _ & Hrun2).
  rewrite Hrun2. f_equal. f_equal.
  assert (HN : forall nm, N = Some nm -> d2 !! "N_term" = Some cN).
  { intros nm ->. unfold d2. rewrite dict_after_other by discriminate.
    apply dict_after_key. }
  destruct (second_pass "N_term" column_min N d2 m2 cN HN) as [Hd1' Hrows1].
  assert (HC : forall nm, C = Some nm ->
                 dict_after "N_term" N d2 m2 !! "C_term" = Some cC).
  { intros nm ->. rewrite Hd1'. apply dict_after_key. }
  destruct (second_pass "C_term" column_max C _ m3 cC HC) as [Hd2' Hrows2].
  subst st'. apply sample_ext; try reflexivity.
  all: cbn [embedding_dict cg_dataframe set_cg_dataframe set_embedding_dict
            set_C_term set_N_term].
  - cbn [embedding_dict set_cg_dataframe set_embedding_dict].
    rewrite Hd2', Hd1'. reflexivity.
  - cbn [cg_dataframe set_cg_dataframe]. f_equal.
    rewrite Hrows2, Hrows1. apply rows_after_twice.
Qed.

(** X13. [add_terminal_embeddings] on an object that was never mapped
    raises an [AttributeError] and changes nothing.  On a mapped object
    with an empty embedding dictionary a requested terminus raises a
    [ValueError] (the greatest of no codes): the terminal names are already
    recorded, the table and the dictionary are untouched. *)
Theorem X13_terminal_embeddings_failures (st : SampleCollection)
    (N C : option string) :
  (cg_dataframe st = None ->
   add_terminal_embeddings N C st = (Raise AttributeError, st, []))
  /\ (forall df,
        cg_dataframe st = Some df ->
        embedding_dict st = Some ∅ ->
        N <> None \/ C <> None ->
        exists st',
          add_terminal_embeddings N C st = (Raise ValueError, st', [])
          /\ N_term st' = Some N /\ C_term st' = Some C
          /\ cg_dataframe st' = Some df
          /\ embedding_dict st' = Some ∅).
Proof.
  split.
  - intros H. unfold add_terminal_embeddings.
    apply bind_raise. unfold attr. rewrite H. reflexivity.
  - intros df Hdf Hd Hreq.
    set (st0 := set_C_term C (set_N_term N st)).
    assert (Hempty : forall key pick nm,
              assign_terminal key pick (Some nm) st0 = (Raise ValueError, st0, [])).
    { intros key pick nm. unfold assign_terminal. apply bind_raise.
      unfold terminal_code, bind, attr, lift.
      replace (embedding_dict st0) with (Some (∅ : gmap string Z))
        by (symmetry; exact Hd).
      rewrite lookup_empty. reflexivity. }
    assert (Hboth : bind (assign_terminal "N_term" column_min N)
                      (fun _ => assign_terminal "C_term" column_max C) st0
                    = (Raise ValueError, st0, [])).
    { destruct N as [nt|]; [apply bind_raise, Hempty|].
      destruct C as [ct|]; [|destruct Hreq; congruence].
      rewrite (bind_ok _ _ st0 tt st0 []) by reflexivity.
      rewrite Hempty. reflexivity. }
    exists st0. split.
    + unfold add_terminal_embeddings.
      rewrite (bind_ok _ _ st df st []) by (unfold attr; rewrite Hdf; reflexivity).
      rewrite (bind_ok _ _ st tt (set_N_term N st) []) by reflexivity.
      rewrite (bind_ok _ _ _ tt st0 []) by reflexivity.
      rewrite Hboth. reflexivity.
    + unfold st0.
      cbn [N_term C_term cg_dataframe embedding_dict set_C_term set_N_term].
      repeat split; assumption.
Qed.

(** X14. When both termini are requested and the dictionary, with greatest
    code m, has neither terminal key, the N-terminal code is m + 1 and the
    C-terminal code is m + 2, and the dictionary gains exactly these two
    entries.  In the table the rows that carry the C-terminal name at the
    greatest residue number of their chain end with the embedding code
    m + 2, the other rows that carry the N-terminal name at the least
    residue number of their chain end with m + 1, and every other row keeps
    its code; no other column changes. *)
Theorem X14_terminal_codes_are_consecutive (st : SampleCollection)
    (nt ct : string) (df : list atom_row) (d : gmap string Z) (m : Z) :
  cg_dataframe st = Some df ->
  embedding_dict st = Some d ->
  dict_max d = Ok m ->
  d !! "N_term" = None -> d !! "C_term" = None ->
  exists st' df',
    add_terminal_embeddings (Some nt) (Some ct) st = (Ok tt, st', [])
    /\ embedding_dict st' = Some (<["C_term" := m + 2]> (<["N_term" := m + 1]> d))
    /\ cg_dataframe st' = Some df'
    /\ type <$> df'
       = (fun r => if chain_terminal column_max (Some ct) df r then m + 2
                   else if chain_terminal column_min (Some nt) df r then m + 1
                   else type r) <$> df
    /\ (fun r => (serial r, name r, resSeq r, resName r, chainID r, mapped r)) <$> df'
       = (fun r => (serial r, name r, resSeq r, resName r, chainID r, mapped r)) <$> df
    /\ (forall r, r ∈ df ->
          (chain_terminal column_min (Some nt) df r = true <->
           name r = nt
           /\ forall r2, r2 ∈ df -> chainID r2 = chainID r -> resSeq r <= resSeq r2)
          /\ (chain_terminal column_max (Some ct) df r = true <->
              name r = ct
              /\ forall r2, r2 ∈ df -> chainID r2 = chainID r -> resSeq r2 <= resSeq r)).
Proof.
  intros Hdf Hd Hm HnN HnC.
  destruct (add_terminal_embeddings_run (Some nt) (Some ct) st df d m Hdf Hd Hm)
    as (m1 & Hm1 & _ & _ & Hrun).
  assert (Hd1 : dict_after "N_term" (Some nt) d m = <["N_term" := m + 1]> d).
  { unfold dict_after. rewrite HnN. reflexivity. }
  assert (HcN : code_of "N_term" d m = m + 1).
  { unfold code_of. rewrite HnN. reflexivity. }
  rewrite Hd1 in Hm1, Hrun. rewrite HcN in Hrun.
  rewrite (dict_max_insert d "N_term" m Hm HnN) in Hm1. injection Hm1 as <-.
  assert (HC1 : <["N_term" := m + 1]> d !! "C_term" = None).
  { rewrite lookup_insert_ne by discriminate. exact HnC. }
  assert (Hd2 : dict_after "C_term" (Some ct) (<["N_term" := m + 1]> d) (m + 1)
                = <["C_term" := m + 2]> (<["N_term" := m + 1]> d)).
  { unfold dict_after. rewrite HC1. f_equal. lia. }
  assert (HcC : code_of "C_term" (<["N_term" := m + 1]> d) (m + 1) = m + 2).
  { unfold code_of. rewrite HC1. cbn [default]. lia. }
  rewrite Hd2, HcC in Hrun.
  eexists. eexists. split; [exact Hrun|].
  split; [reflexivity|]. split; [reflexivity|].
  split; [apply rows_after_both_types|].
  split; [apply rows_after_both_kept|].
  intros r Hr. split; [apply chain_terminal_min|apply chain_terminal_max]; exact Hr.
Qed.

End TerminalMoreProperties.

Lemma X12_terminal_embeddings_idempotent_witness :
  exists st',
    add_terminal_embeddings (Some "N") (Some "C") dimer_full = (Ok tt, st', [])
    /\ add_terminal_embeddings (Some "N") (Some "C") st' = (Ok tt, st', []).
Proof.
  exact (X12_terminal_embeddings_idempotent dimer_full (Some "N") (Some "C")
           (default [] (cg_dataframe dimer_full)) demo_dict 3
           eq_refl eq_refl eq_refl).
Defined.

Lemma X13_terminal_embeddings_failures_witness :
  add_terminal_embeddings (Some "N") None dimer_loaded
  = (Raise AttributeError, dimer_loaded, [])
  /\ exists st',
       add_terminal_embeddings (Some "N") None empty_dict_mapped
       = (Raise ValueError, st', [])
       /\ N_term st' = Some (Some "N")
       /\ cg_dataframe st' = cg_dataframe dimer_mapped.
Proof.
  destruct (X13_terminal_embeddings_failures dimer_loaded (Some "N") None) as [H1 _].
  destruct (X13_terminal_embeddings_failures empty_dict_mapped (Some "N") None)
    as [_ H2].
  split; [exact (H1 eq_refl)|].
  destruct (H2 (default [] (cg_dataframe dimer_mapped)) eq_refl eq_refl)
    as (st' & Ha & Hb & _ & Hc & _); [left; discriminate|].
  exists st'. split; [exact Ha|]. split; [exact Hb|exact Hc].
Defined.

Lemma X14_terminal_codes_witness :
  exists st' df',
    add_terminal_embeddings (Some "N") (Some "C") dimer_full = (Ok tt, st', [])
    /\ embedding_dict st' = Some (<["C_term" := 5]> (<["N_term" := 4]> demo_dict))
    /\ cg_dataframe st' = Some df'
    /\ type <$> default [] (cg_dataframe dimer_full)
       = [1; 2; 3; 1; 2; 3; 1; 2; 3; 1; 2; 3]
    /\ type <$> df' = [4; 2; 3; 1; 2; 5; 4; 2; 3; 1; 2; 5].
Proof.
  destruct (X14_terminal_codes_are_consecutive dimer_full "N" "C"
              (default [] (cg_dataframe dimer_full)) demo_dict 3
              eq_refl eq_refl eq_refl eq_refl eq_refl)
    as (st' & df' & H1 & H2 & H3 & H4 & _).
  exists st', df'. split; [exact H1|]. split; [exact H2|]. split; [exact H3|].
  split; [reflexivity|]. rewrite H4. vm_compute. reflexivity.
Defined.

(** ** More on [save_cg_output] and [process_coords_forces] *)

Module SaveMore.
Import Sample SampleProofs SaveParts.

Section WithCollaborators.
Context {ext : Collaborators}.
Local Open Scope method_scope.

(** An explicit array with more than one entry: [arr == None] has no
    truth value. *)
Lemma save_array_or_attr_many file missing a field s :
  (1 < array_size a)%nat ->
  save_array_or_attr file missing (Some a) field s = (Raise ValueError, s, []).
Proof.
  intros H. unfold save_array_or_attr. apply bind_raise.
  unfold is_None_test. destruct (Nat.eqb_spec (array_size a) 1); [lia|reflexivity].
Qed.

End WithCollaborators.
End SaveMore.

Import SaveParts SaveMore.

Section SaveMoreProperties.
Context {ext : Collaborators}.

(** X15. [save_cg_output] cannot be given arrays: on a mapped object with
    [save_coord_force] set (and an output directory that exists or can be
    created, in which the files can be written), an explicit coordinate
    array with more than one
    entry makes the call raise a [ValueError] (from [cg_coords == None])
    after the CG structure and the embeddings have been written and before
    any coordinates are; explicit forces with more than one entry do the
    same after the coordinates of the object have been dealt with.  With
    [save_coord_force] unset the two arguments are not looked at. *)
Theorem X15_explicit_arrays_raise (st : SampleCollection) (save_dir : string)
    (save_cg_maps : bool) (a : ndarray) (other : option ndarray)
    (idx : list nat) (traj : Trajectory) (df : list atom_row) :
  cg_atom_indices st = Some idx ->
  input_traj st = Some traj ->
  cg_dataframe st = Some df ->
  (1 < array_size a)%nat ->
  let templ := path_join save_dir (get_output_tag [sc_tag st; sc_name st] "before") in
  path_exists save_dir = true \/ makedirs_error save_dir = None ->
  (forall name, write_error (templ +:+ name) = None) ->
  let written :=
    (if path_exists save_dir then [] else [MakeDirs save_dir])
    ++ [SavePdb (templ +:+ "cg_structure.pdb") (atom_slice_xyz traj idx) df;
        SaveEmbeds (templ +:+ "cg_embeds.npy") (type <$> df)] in
  save_cg_output save_dir true save_cg_maps (Some a) other st
  = (Raise ValueError, st, written)
  /\ save_cg_output save_dir true save_cg_maps None (Some a) st
     = (Raise ValueError, st,
        written
        ++ [match cg_coords st with
            | Some c => SaveArray (templ +:+ "cg_coords.npy") c
            | None => Print "No coordinates found; only CG structure, embeddings and loaded forces will be saved."
            end])
  /\ save_cg_output save_dir false save_cg_maps (Some a) other st
     = save_cg_output save_dir false save_cg_maps None None st.
Proof.
  intros Hidx Htraj Hdf Ha templ Hdir Hw written.
  rewrite !(save_cg_output_head st save_dir _ _ _ _ idx traj df Hidx Htraj Hdf
              Hdir (Hw _) (Hw _)).
  fold templ. split; [|split].
  - assert (E : save_tail templ true save_cg_maps (Some a) other st
                = (Raise ValueError, st, [])).
    { unfold save_tail. apply bind_raise. unfold when. apply bind_raise.
      apply save_array_or_attr_many, Ha. }
    rewrite E. unfold written. rewrite app_nil_r. reflexivity.
  - assert (E : save_tail templ true save_cg_maps None (Some a) st
                = (Raise ValueError, st,
                   [match cg_coords st with
                    | Some c => SaveArray (templ +:+ "cg_coords.npy") c
                    | None => Print "No coordinates found; only CG structure, embeddings and loaded forces will be saved."
                    end])).
    { unfold save_tail. apply bind_raise. unfold when.
      erewrite bind_ok by apply save_array_or_attr_default, Hw.
      rewrite save_array_or_attr_many by exact Ha.
      rewrite app_nil_r. reflexivity. }
    rewrite E. unfold written. rewrite <- app_assoc. reflexivity.
  - reflexivity.
Qed.

End SaveMoreProperties.

Lemma X15_explicit_arrays_witness :
  exists written,
    save_cg_output "out" true true (Some some_coords) (Some some_forces) dimer_projected
    = (Raise ValueError, dimer_projected, written).
Proof.
  destruct (X15_explicit_arrays_raise dimer_projected "out" true some_coords
              (Some some_forces)
              (default [] (cg_atom_indices dimer_projected))
              (mkTraj 12 (mkTopology [] []))
              (default [] (cg_dataframe dimer_projected))
              eq_refl eq_refl eq_refl) as [H _].
  - vm_compute. lia.
  - left. reflexivity.
  - intros name. reflexivity.
  - eexists. exact H.
Defined.

(** ** [apply_cg_mapping] given a dictionary instead of its name *)

Module MappingObject.
Import Sample SampleProofs MappingProofs.

Section WithCollaborators.
Context {ext : Collaborators}.

(** The run of the method when [embedding_dict] is not a string. *)
Lemma apply_cg_mapping_object_steps (st : SampleCollection) cg_atoms ef
    (d0 : gmap string Z) skip top :
  top_dataframe st = Some top ->
  let top' := map (map_cg_topology cg_atoms ef skip) top in
  let idx := indices_from mapped 0 top' in
  let st1 :=
    set_cg_dataframe (renumber_resSeq (renumber_serial (mapped_rows cg_atoms ef skip top)))
      (set_cg_atom_indices idx (set_top_dataframe top' st)) in
  apply_cg_mapping cg_atoms ef (inr d0) skip st =
  match input_traj st with
  | None => (Raise AttributeError, st1, [])
  | Some traj =>
      match slice_matrix (n_atoms traj) idx with
      | Raise e => (Raise e, st1, [])
      | Ok m =>
          (Ok tt, set_C_term None (set_N_term None (set_cg_map m st1)),
           (if negb (forallb row_sums_to_one m)
            then [Warn "WARNING: Slice mapping matrix is not unique."] else [])
           ++ (if negb (forallb row_has_one_1 m)
               then [Warn "WARNING: Slice mapping matrix is not linear."] else []))
      end
  end.
Proof.
  intros Htop top' idx st1.
  unfold apply_cg_mapping.
  unfold bind at 1. unfold ret at 1.
  unfold bind at 1. unfold attr at 1.
  rewrite Htop. fold top'. fold idx.
  do 3 (unfold bind at 1; unfold modify at 1).
  unfold bind at 1. unfold attr at 1.
  cbn [input_traj set_top_dataframe set_cg_atom_indices set_cg_dataframe].
  unfold mapped_rows in st1. fold top' in st1. fold st1.
  destruct (input_traj st) as [traj|]; [|reflexivity].
  unfold bind at 1. unfold lift at 1.
  destruct (slice_matrix (n_atoms traj) idx) as [m|e]; [|reflexivity].
  unfold bind, when, emit, modify, ret.
  destruct (negb (forallb row_sums_to_one m)), (negb (forallb row_has_one_1 m));
    reflexivity.
Qed.

(** A requested terminus on an object without a dictionary. *)
Lemma add_terminal_embeddings_no_dict (st : SampleCollection) (N C : option string) df :
  cg_dataframe st = Some df ->
  embedding_dict st = None ->
  N <> None \/ C <> None ->
  add_terminal_embeddings N C st
  = (Raise AttributeError, set_C_term C (set_N_term N st), []).
Proof.
  intros Hdf Hd Hreq.
  set (st0 := set_C_term C (set_N_term N st)).
  assert (Hnone : forall key pick nm,
            assign_terminal key pick (Some nm) st0 = (Raise AttributeError, st0, [])).
  { intros key pick nm. unfold assign_terminal. apply bind_raise.
    unfold terminal_code. apply bind_raise. unfold attr.
    replace (embedding_dict st0) with (@None (gmap string Z))
      by (symmetry; exact Hd).
    reflexivity. }
  assert (Hboth : bind (assign_terminal "N_term" column_min N)
                    (fun _ => assign_terminal "C_term" column_max C) st0
                  = (Raise AttributeError, st0, [])).
  { destruct N as [nt|]; [apply bind_raise, Hnone|].
    destruct C as [ct|]; [|destruct Hreq; congruence].
    rewrite (bind_ok _ _ st0 tt st0 []) by reflexivity.
    rewrite Hnone. reflexivity. }
  unfold add_terminal_embeddings.
  rewrite (bind_ok _ _ st df st []) by (unfold attr; rewrite Hdf; reflexivity).
  rewrite (bind_ok _ _ st tt (set_N_term N st) []) by reflexivity.
  rewrite (bind_ok _ _ _ tt st0 []) by reflexivity.
  rewrite Hboth. reflexivity.
Qed.

End WithCollaborators.
End MappingObject.

Import MappingProofs MappingObject.

Section MappingObjectProperties.
Context {ext : Collaborators}.

(** X16. [apply_cg_mapping] takes the NAME of the embedding dictionary: a
    dictionary passed in its place is ignored without a word.  The mapping
    still returns and stores the CG table, but the object's
    [embedding_dict] stays as it was; if it had none, a following
    [add_terminal_embeddings] with a requested terminus raises an
    [AttributeError], after it has recorded the terminal names and before
    it has touched the table. *)
Theorem X16_dictionary_object_is_ignored (st : SampleCollection)
    (cg_atoms : list string) (ef : string) (d0 : gmap string Z)
    (skip : option (list string)) (top : list atom_row) (traj : Trajectory) :
  top_dataframe st = Some top ->
  input_traj st = Some traj ->
  (length top <= n_atoms traj)%nat ->
  exists st' log df,
    apply_cg_mapping cg_atoms ef (inr d0) skip st = (Ok tt, st', log)
    /\ embedding_dict st' = embedding_dict st
    /\ cg_dataframe st'
       = Some df
    /\ df = renumber_resSeq (renumber_serial (mapped_rows cg_atoms ef skip top))
    /\ (embedding_dict st = None ->
        forall N C, N <> None \/ C <> None ->
          exists st'',
            add_terminal_embeddings N C st' = (Raise AttributeError, st'', [])
            /\ N_term st'' = Some N /\ C_term st'' = Some C
            /\ cg_dataframe st'' = Some df
            /\ embedding_dict st'' = None).
Proof.
  intros Htop Htraj Hlen.
  set (top' := map (map_cg_topology cg_atoms ef skip) top).
  destruct (slice_matrix_ok (n_atoms traj) (indices_from mapped 0 top')) as (m & Hm & _).
  { eapply Forall_impl; [apply indices_from_lt|].
    simpl. intros j Hj. unfold top' in Hj. rewrite length_map in Hj. lia. }
  pose proof (apply_cg_mapping_object_steps st cg_atoms ef d0 skip top Htop) as Hrun.
  cbv zeta in Hrun. fold top' in Hrun. rewrite Htraj, Hm in Hrun.
  eexists _, _, _. split; [exact Hrun|].
  split; [reflexivity|]. split; [reflexivity|]. split; [reflexivity|].
  intros Hnone N C Hreq. eexists. split.
  - eapply add_terminal_embeddings_no_dict; [reflexivity|exact Hnone|exact Hreq].
  - repeat split. exact Hnone.
Qed.

End MappingObjectProperties.

Lemma X16_dictionary_object_witness :
  exists st' log st'',
    apply_cg_mapping ["CA"] "embedding" (inr demo_dict) None dimer_loaded
    = (Ok tt, st', log)
    /\ embedding_dict st' = None
    /\ add_terminal_embeddings (Some "N") (Some "C") st'
       = (Raise AttributeError, st'', []).
Proof.
  destruct (X16_dictionary_object_is_ignored dimer_loaded ["CA"] "embedding"
              demo_dict None homodimer_top (mkTraj 12 (mkTopology [] []))
              eq_refl eq_refl)
    as (st' & log & df & H1 & H2 & _ & _ & H3).
  - vm_compute. lia.
  - destruct (H3 eq_refl (Some "N") (Some "C")) as (st'' & H4 & _);
      [left; discriminate|].
    exists st', log, st''. split; [exact H1|]. split; [exact H2|exact H4].
Defined.

(** ** [process_coords_forces], and the three steps in a row *)

Section ProjectionProperties.
Context {ext : Collaborators}.

(** X17. [process_coords_forces] stores all of its results or none.  When
    it returns a pair of arrays, the shapes agreed, the projection of the
    object's slice matrix succeeded, and the object differs from before in
    exactly [force_map], [cg_coords] and [cg_forces].  When it returns
    nothing, the shapes differ; when it raises, the shapes agree and either
    the object has no slice matrix ([AttributeError]) or the projection
    itself raised; in both cases the object is as it was, and only the
    mismatch of shapes leaves a warning. *)
Theorem X17_process_coords_forces_all_or_nothing (st : SampleCollection)
    (coords forces : ndarray) (mapping : string) (force_stride : Z)
    (batch_size : option Z) :
  match process_coords_forces coords forces mapping force_stride batch_size st with
  | (Ok (Some (c, f)), st', log) =>
      log = [] /\ shape coords = shape forces
      /\ exists m fm,
           cg_map st = Some m
           /\ slice_coord_forces coords forces m mapping force_stride batch_size
              = Ok (c, f, fm)
           /\ st' = set_cg_forces f (set_cg_coords c (set_force_map fm st))
  | (Ok None, st', log) =>
      st' = st /\ shape coords <> shape forces
      /\ log = [Warn "Cannot process coordinates and forces: mismatch between array shapes."]
  | (Raise e, st', log) =>
      st' = st /\ log = [] /\ shape coords = shape forces
      /\ (cg_map st = None /\ e = AttributeError
          \/ exists m, cg_map st = Some m
               /\ slice_coord_forces coords forces m mapping force_stride batch_size
                  = Raise e)
  end.
Proof.
  unfold process_coords_forces.
  destruct (decide (shape coords = shape forces)) as [Heq|Hne].
  - rewrite bool_decide_eq_true_2 by exact Heq. cbn [negb].
    unfold bind at 1. unfold attr.
    destruct (cg_map st) as [m|] eqn:Hm.
    + unfold bind at 1. unfold lift.
      destruct (slice_coord_forces coords forces m mapping force_stride batch_size)
        as [[[c f] fm]|e] eqn:Hs.
      * cbn. split; [reflexivity|]. split; [exact Heq|].
        exists m, fm. repeat split. exact Hs.
      * repeat split; try assumption. right. exists m. split; [reflexivity|exact Hs].
    + repeat split; try assumption. left. split; reflexivity.
  - rewrite bool_decide_eq_false_2 by exact Hne. cbn.
    repeat split. exact Hne.
Qed.

(** X18. The three steps in a row.  On a loaded object whose trajectory
    has the atoms of the table, [apply_cg_mapping], then
    [process_coords_forces] with arrays of one shape that the projection
    accepts, then [save_cg_output] with its default arguments (the output
    directory exists or can be created, and the files can be written in
    it) all return,
    and what is written is the CG structure, the embeddings of the CG
    table, the projected coordinates and forces of this very projection,
    the slice matrix of the mapping and the force map, in this order. *)
Theorem X18_map_project_save (st : SampleCollection)
    (cg_atoms : list string) (ef nm : string) (d : gmap string Z)
    (skip : option (list string)) (top : list atom_row) (traj : Trajectory)
    (coords forces : ndarray) (mapping : string) (force_stride : Z)
    (batch_size : option Z) (save_dir : string)
    (m fm : matrix) (cgc cgf : ndarray) :
  embedding_maps nm = Some d ->
  top_dataframe st = Some top ->
  input_traj st = Some traj ->
  let idx := indices_from mapped 0 (map (map_cg_topology cg_atoms ef skip) top) in
  slice_matrix (n_atoms traj) idx = Ok m ->
  shape coords = shape forces ->
  slice_coord_forces coords forces m mapping force_stride batch_size = Ok (cgc, cgf, fm) ->
  let df := renumber_resSeq (renumber_serial (mapped_rows cg_atoms ef skip top)) in
  let templ := path_join save_dir (get_output_tag [sc_tag st; sc_name st] "before") in
  path_exists save_dir = true \/ makedirs_error save_dir = None ->
  (forall name, write_error (templ +:+ name) = None) ->
  exists st1 st2 warnings,
    apply_cg_mapping cg_atoms ef (inl nm) skip st = (Ok tt, st1, warnings)
    /\ process_coords_forces coords forces mapping force_stride batch_size st1
       = (Ok (Some (cgc, cgf)), st2, [])
    /\ save_cg_output save_dir true true None None st2
       = (Ok tt, st2,
          (if path_exists save_dir then [] else [MakeDirs save_dir])
          ++ [SavePdb (templ +:+ "cg_structure.pdb") (atom_slice_xyz traj idx) df;
              SaveEmbeds (templ +:+ "cg_embeds.npy") (type <$> df);
              SaveArray (templ +:+ "cg_coords.npy") cgc;
              SaveArray (templ +:+ "cg_forces.npy") cgf;
              SaveMatrix (templ +:+ "cg_coord_map.npy") m;
              SaveMatrix (templ +:+ "cg_force_map.npy") fm]).
Proof.
  intros Hd Htop Htraj idx Hm Hshape Hs df templ Hdir Hw.
  pose proof (MappingMore.apply_cg_mapping_steps st cg_atoms ef nm d skip top Hd Htop)
    as Hrun.
  cbv zeta in Hrun. fold idx in Hrun. fold df in Hrun. rewrite Htraj, Hm in Hrun.
  remember (set_C_term None (set_N_term None (set_cg_map m
              (set_cg_dataframe df (set_cg_atom_indices idx
                 (set_top_dataframe (map (map_cg_topology cg_atoms ef skip) top)
                    (set_embedding_dict d st))))))) as st1 eqn:Hst1.
  assert (Hmap1 : cg_map st1 = Some m) by (subst st1; reflexivity).
  remember (set_cg_forces cgf (set_cg_coords cgc (set_force_map fm st1))) as st2 eqn:Hst2.
  exists st1, st2. eexists. split; [exact Hrun|]. split.
  - unfold process_coords_forces.
    rewrite bool_decide_eq_true_2 by exact Hshape. cbn [negb].
    unfold bind at 1. unfold attr. rewrite Hmap1.
    unfold bind at 1. unfold lift. rewrite Hs.
    subst st2. reflexivity.
  - assert (Hidx2 : cg_atom_indices st2 = Some idx) by (subst st2 st1; reflexivity).
    assert (Htraj2 : input_traj st2 = Some traj) by (subst st2 st1; exact Htraj).
    assert (Hdf2 : cg_dataframe st2 = Some df) by (subst st2 st1; reflexivity).
    assert (Hc2 : cg_coords st2 = Some cgc) by (subst st2; reflexivity).
    assert (Hf2 : cg_forces st2 = Some cgf) by (subst st2; reflexivity).
    assert (Hm2 : cg_map st2 = Some m) by (subst st2 st1; reflexivity).
    assert (Hfm2 : force_map st2 = Some fm) by (subst st2; reflexivity).
    assert (Htag : sc_tag st2 = sc_tag st) by (subst st2 st1; reflexivity).
    assert (Hname : sc_name st2 = sc_name st) by (subst st2 st1; reflexivity).
    rewrite (SampleProofs.save_cg_output_mapped st2 save_dir true true idx traj df
               Hidx2 Htraj2 Hdf2 Hdir);
      [|intros name; rewrite Htag, Hname; apply Hw].
    rewrite Hc2, Hf2, Hm2, Hfm2, Htag, Hname. reflexivity.
Qed.

End ProjectionProperties.

Lemma X18_map_project_save_witness :
  let m := default [] (cg_map dimer_mapped) in
  exists st1 st2 warnings written,
    apply_cg_mapping ["CA"] "embedding" (inl "demo_dict") None dimer_loaded
    = (Ok tt, st1, warnings)
    /\ process_coords_forces some_coords some_forces "slice_aggregate" 100 None st1
       = (Ok (Some (slice_atoms m some_coords, slice_atoms m some_forces)), st2, [])
    /\ save_cg_output "out" true true None None st2 = (Ok tt, st2, written)
    /\ length written = 6%nat.
Proof.
  intros m.
  destruct (X18_map_project_save dimer_loaded ["CA"] "embedding" "demo_dict"
              demo_dict None homodimer_top (mkTraj 12 (mkTopology [] []))
              some_coords some_forces "slice_aggregate" 100 None "out"
              m m (slice_atoms m some_coords) (slice_atoms m some_forces)
              eq_refl eq_refl eq_refl eq_refl eq_refl eq_refl
              (or_introl eq_refl) (fun _ => eq_refl))
    as (st1 & st2 & warnings & H1 & H2 & H3).
  exists st1, st2, warnings. eexists.
  split; [exact H1|]. split; [exact H2|]. split; [exact H3|reflexivity].
Defined.

(** ** [get_prior_nls] *)

Module PriorNls.
Import Sample SampleProofs.

Section WithCollaborators.
Context {ext : Collaborators}.

Local Abbreviation tag_of := (fun x : string * Z * list (list Z) => fst (fst x)).

Local Abbreviation add_nl :=
  (fun (acc : gmap string NeighborList) (x : string * Z * list (list Z)) =>
     let '(tag, order, edge) := x in
     <[tag := make_neighbor_list tag order edge]> acc).

(** [prior_nls[tag] = nl] over the whole list: a tag that does not occur
    keeps what the dictionary had. *)
Lemma fold_add_nl_other (eo : list (string * Z * list (list Z))) acc tag :
  tag ∉ tag_of <$> eo ->
  fold_left add_nl eo acc !! tag = acc !! tag.
Proof.
  revert acc. induction eo as [|[[t o] e] eo IH]; intros acc Hnot; [reflexivity|].
  cbn [fold_left]. rewrite fmap_cons in Hnot.
  apply not_elem_of_cons in Hnot as [Hne Hnot]. cbn [fst] in Hne.
  rewrite (IH _ Hnot). apply lookup_insert_ne. congruence.
Qed.

Lemma fold_add_nl_last (pre post : list (string * Z * list (list Z))) acc tag order edge :
  tag ∉ tag_of <$> post ->
  fold_left add_nl (pre ++ (tag, order, edge) :: post) acc !! tag
  = Some (make_neighbor_list tag order edge).
Proof.
  intros Hnot. rewrite fold_left_app. cbn [fold_left].
  rewrite (fold_add_nl_other post _ tag Hnot). apply lookup_insert_eq.
Qed.

Lemma fold_add_nl_keys (eo : list (string * Z * list (list Z))) acc tag :
  is_Some (fold_left add_nl eo acc !! tag)
  <-> tag ∈ tag_of <$> eo \/ is_Some (acc !! tag).
Proof.
  revert acc. induction eo as [|[[t o] e] eo IH]; intros acc.
  - cbn. split; [intros H; right; exact H|]. intros [H|H]; [inversion H|exact H].
  - cbn [fold_left]. rewrite IH, fmap_cons, elem_of_cons. cbn [fst].
    destruct (decide (tag = t)) as [->|Hne].
    + rewrite lookup_insert_eq. split; [intros _; left; left; reflexivity|].
      intros _. right. eexists. reflexivity.
    + rewrite lookup_insert_ne by congruence. tauto.
Qed.

(** Builders none of which separates the termini are passed on as they
    are. *)
Lemma no_separate_termini (bs : list PriorBuilder) df nt ct :
  existsb separate_termini bs = false ->
  map (fun b => if separate_termini b then get_terminal_atoms b df nt ct else b) bs = bs.
Proof.
  induction bs as [|b bs IH]; [reflexivity|].
  cbn [existsb map]. intros H. apply orb_false_iff in H as [Hb Hbs].
  rewrite Hb, (IH Hbs). reflexivity.
Qed.

(** The whole run on an object that [apply_cg_mapping] has set up. *)
Lemma get_prior_nls_mapped (st : SampleCollection) (builders : list PriorBuilder)
    (save_nls : bool) (save_dir prior_tag : option string)
    idx traj df nt ct :
  cg_atom_indices st = Some idx ->
  input_traj st = Some traj ->
  cg_dataframe st = Some df ->
  N_term st = Some nt ->
  C_term st = Some ct ->
  let builders' :=
    map (fun b => if separate_termini b then get_terminal_atoms b df nt ct else b)
      builders in
  let nls :=
    fold_left add_nl (get_edges_and_orders builders' (prior_topology traj idx)) ∅ in
  get_prior_nls builders save_nls save_dir prior_tag st =
  if save_nls then
    match save_dir, prior_tag with
    | Some dir, Some ptag =>
        let ofile :=
          path_join dir
            (get_output_tag [sc_tag st; sc_name st] "before"
             +:+ "prior_nls_" +:+ ptag +:+ ".pkl") in
        match write_error ofile with
        | None => (Ok nls, st, [PickleDump ofile (fst <$> map_to_list nls)])
        | Some e => (Raise e, st, [])
        end
    | _, _ => (Raise KeyError, st, [])
    end
  else (Ok nls, st, []).
Proof.
  intros Hidx Htraj Hdf Hnt Hct builders' nls.
  unfold get_prior_nls.
  rewrite (bind_ok _ _ st builders' st []); cycle 1.
  { destruct (existsb separate_termini builders) eqn:E.
    - unfold bind, attr, ret. rewrite Hdf, Hnt, Hct. reflexivity.
    - unfold ret, builders'. rewrite (no_separate_termini _ _ _ _ E). reflexivity. }
  rewrite (bind_ok _ _ st traj st []) by (unfold attr; rewrite Htraj; reflexivity).
  rewrite (bind_ok _ _ st idx st []) by (unfold attr; rewrite Hidx; reflexivity).
  fold nls.
  destruct save_nls; [|reflexivity].
  destruct save_dir as [dir|]; [|reflexivity].
  destruct prior_tag as [ptag|]; [|reflexivity].
  cbv zeta. unfold bind at 1. unfold bind at 1. unfold write.
  destruct (write_error _); reflexivity.
Qed.

(** When the file of the neighbour lists cannot be opened, which is the
    case when [save_dir] does not exist (the method does not create it),
    [get_prior_nls] raises what [open] raises, after the lists are built and
    without writing anything. *)
Lemma get_prior_nls_cannot_open (st : SampleCollection) (builders : list PriorBuilder)
    (dir ptag : string) idx traj df nt ct e :
  cg_atom_indices st = Some idx ->
  input_traj st = Some traj ->
  cg_dataframe st = Some df ->
  N_term st = Some nt ->
  C_term st = Some ct ->
  write_error
    (path_join dir
       (get_output_tag [sc_tag st; sc_name st] "before"
        +:+ "prior_nls_" +:+ ptag +:+ ".pkl")) = Some e ->
  get_prior_nls builders true (Some dir) (Some ptag) st = (Raise e, st, []).
Proof.
  intros Hidx Htraj Hdf Hnt Hct He.
  rewrite (get_prior_nls_mapped st builders true (Some dir) (Some ptag)
             idx traj df nt ct Hidx Htraj Hdf Hnt Hct).
  cbv zeta. rewrite He. reflexivity.
Qed.

End WithCollaborators.
End PriorNls.

Import PriorNls.

Section PriorNlsProperties.
Context {ext : Collaborators}.

(** X19. On a mapped object, [get_prior_nls] returns without changing the
    object, and the dictionary it returns has exactly the tags that
    [get_edges_and_orders] delivered as its keys.  When a tag is delivered
    more than once the last entry wins: the neighbour list under a tag is
    the one made from the last triple with this tag, and the earlier ones
    are dropped without a word.  With [save_nls], and when the file named
    from [save_dir], the object's tag and name, and [prior_tag] can be
    opened for writing (the method does not create [save_dir]), the one file
    written is the pickle of this dictionary. *)
Theorem X19_prior_nls_last_tag_wins (st : SampleCollection)
    (builders : list PriorBuilder) (save_nls : bool)
    (save_dir prior_tag : option string) (dir ptag : string)
    (idx : list nat) (traj : Trajectory) (df : list atom_row)
    (nt ct : option string) :
  cg_atom_indices st = Some idx ->
  input_traj st = Some traj ->
  cg_dataframe st = Some df ->
  N_term st = Some nt ->
  C_term st = Some ct ->
  (save_nls = true ->
   save_dir = Some dir /\ prior_tag = Some ptag
   /\ write_error
        (path_join dir
           (get_output_tag [sc_tag st; sc_name st] "before"
            +:+ "prior_nls_" +:+ ptag +:+ ".pkl")) = None) ->
  let builders' :=
    map (fun b => if separate_termini b then get_terminal_atoms b df nt ct else b)
      builders in
  let eo := get_edges_and_orders builders' (prior_topology traj idx) in
  exists nls,
    get_prior_nls builders save_nls save_dir prior_tag st
    = (Ok nls, st,
       if save_nls
       then [PickleDump
               (path_join dir
                  (get_output_tag [sc_tag st; sc_name st] "before"
                   +:+ "prior_nls_" +:+ ptag +:+ ".pkl"))
               (fst <$> map_to_list nls)]
       else [])
    /\ (forall tag, is_Some (nls !! tag) <-> tag ∈ (fun x => fst (fst x)) <$> eo)
    /\ (forall pre tag order edge post,
          eo = pre ++ (tag, order, edge) :: post ->
          tag ∉ (fun x => fst (fst x)) <$> post ->
          nls !! tag = Some (make_neighbor_list tag order edge)).
Proof.
  intros Hidx Htraj Hdf Hnt Hct Hsave builders' eo.
  eexists. split; [|split].
  - rewrite (get_prior_nls_mapped st builders save_nls save_dir prior_tag
               idx traj df nt ct Hidx Htraj Hdf Hnt Hct).
    destruct save_nls; [|reflexivity].
    destruct (Hsave eq_refl) as (-> & -> & Hopen). cbv zeta. rewrite Hopen.
    reflexivity.
  - intros tag. fold builders'. fold eo. rewrite fold_add_nl_keys.
    rewrite lookup_empty. split; [|intros H; left; exact H].
    intros [H|H]; [exact H|]. destruct H as [x Hx]. discriminate.
  - intros pre tag order edge post Heo Hnot. fold builders'. fold eo.
    rewrite Heo. apply fold_add_nl_last, Hnot.
Qed.

(** X20. [get_prior_nls] on an object without [cg_atom_indices] or without
    a trajectory raises an [AttributeError], whatever the builders are.
    On a mapped object with [save_nls] set (the default) and no [save_dir]
    or no [prior_tag] among the keyword arguments it raises a [KeyError]
    once all neighbour lists are built.  In both cases nothing is written
    and the object is unchanged. *)
Theorem X20_prior_nls_failures (st : SampleCollection)
    (builders : list PriorBuilder) (save_nls : bool)
    (save_dir prior_tag : option string) :
  (cg_atom_indices st = None \/ input_traj st = None ->
   get_prior_nls builders save_nls save_dir prior_tag st
   = (Raise AttributeError, st, []))
  /\ (forall idx traj df nt ct,
        cg_atom_indices st = Some idx ->
        input_traj st = Some traj ->
        cg_dataframe st = Some df ->
        N_term st = Some nt ->
        C_term st = Some ct ->
        save_dir = None \/ prior_tag = None ->
        get_prior_nls builders true save_dir prior_tag st
        = (Raise KeyError, st, [])).
Proof.
  split.
  - intros H. unfold get_prior_nls, bind, attr, ret.
    destruct (existsb separate_termini builders);
      destruct (cg_dataframe st) eqn:E1, (N_term st) eqn:E2, (C_term st) eqn:E3,
               (input_traj st) eqn:E4, (cg_atom_indices st) eqn:E5.
    all: first [exfalso; destruct H; congruence | reflexivity].
  - intros idx traj df nt ct Hidx Htraj Hdf Hnt Hct Hmiss.
    rewrite (get_prior_nls_mapped st builders true save_dir prior_tag
               idx traj df nt ct Hidx Htraj Hdf Hnt Hct).
    destruct save_dir as [dir|]; [|reflexivity].
    destruct prior_tag as [ptag|]; [|reflexivity].
    destruct Hmiss; discriminate.
Qed.

End PriorNlsProperties.

Import DemoPriors.

Lemma X19_prior_nls_witness :
  exists nls,
    get_prior_nls (ext := prior_ext) [("bonds", 2); ("angles", 3); ("bonds", 4)]
      true (Some "out") (Some "full") prior_mapped
    = (Ok nls, prior_mapped,
       [PickleDump "out/tag_mol_prior_nls_full.pkl" (fst <$> map_to_list nls)])
    /\ nls !! "bonds" = Some (4, [])
    /\ nls !! "angles" = Some (3, [])
    /\ nls !! "dihedrals" = None.
Proof.
  destruct (X19_prior_nls_last_tag_wins (ext := prior_ext) prior_mapped
              [("bonds", 2); ("angles", 3); ("bonds", 4)]
              true (Some "out") (Some "full") "out" "full"
              (default [] (cg_atom_indices prior_mapped))
              (mkTraj 10 two_chains_of_five)
              (default [] (cg_dataframe prior_mapped)) None None
              eq_refl eq_refl eq_refl eq_refl eq_refl
              (fun _ => conj eq_refl (conj eq_refl eq_refl)))
    as (nls & Hrun & Hkeys & Hlast).
  exists nls. split; [exact Hrun|]. split; [|split].
  - apply (Hlast [("bonds", 2, []); ("angles", 3, [])] "bonds" 4 [] [] eq_refl).
    intros H. inversion H.
  - apply (Hlast [("bonds", 2, [])] "angles" 3 [] [("bonds", 4, [])] eq_refl).
    intros H. apply elem_of_cons in H as [H|H]; [discriminate|inversion H].
  - destruct (nls !! "dihedrals") eqn:E; [|reflexivity].
    exfalso. assert (Hs : is_Some (nls !! "dihedrals")) by (rewrite E; eauto).
    apply Hkeys in Hs. vm_compute in Hs.
    repeat (apply elem_of_cons in Hs as [Hs|Hs]; [discriminate|]).
    inversion Hs.
Defined.

Lemma X20_prior_nls_failures_witness :
  get_prior_nls (ext := prior_ext) [("bonds", 2)] true (Some "out") (Some "full")
    prior_loaded
  = (Raise AttributeError, prior_loaded, [])
  /\ get_prior_nls (ext := prior_ext) [("bonds", 2)] true None None prior_mapped
     = (Raise KeyError, prior_mapped, []).
Proof.
  destruct (X20_prior_nls_failures (ext := prior_ext) prior_loaded [("bonds", 2)]
              true (Some "out") (Some "full")) as [H1 _].
  destruct (X20_prior_nls_failures (ext := prior_ext) prior_mapped [("bonds", 2)]
              true None None) as [_ H2].
  split; [apply H1; left; reflexivity|].
  apply (H2 (default [] (cg_atom_indices prior_mapped))
            (mkTraj 10 two_chains_of_five)
            (default [] (cg_dataframe prior_mapped)) None None
            eq_refl eq_refl eq_refl eq_refl eq_refl).
  left. reflexivity.
Defined.

(** ** The bond repair in general *)

Module RepairMore.
Import Sample RepairProofs.

Lemma consecutive_adjacent (ch : list Atom) (p : Atom * Atom) :
  p ∈ consecutive ch ->
  exists i, ch !! i = Some (fst p) /\ ch !! S i = Some (snd p).
Proof.
  induction ch as [|a ch IH]; [intros H; inversion H|].
  destruct ch as [|b l]; [intros H; inversion H|].
  rewrite consecutive_cons2. intros H.
  apply elem_of_cons in H as [->|H].
  - exists 0%nat. split; reflexivity.
  - destruct (IH H) as (i & H1 & H2). exists (S i). split; assumption.
Qed.

Lemma bond_of_ordered (p : Atom * Atom) : (fst (bond_of p) <= snd (bond_of p))%nat.
Proof.
  unfold bond_of.
  destruct (Nat.ltb_spec (a_index (fst p)) (a_index (snd p))); cbn [fst snd]; lia.
Qed.

Lemma not_only_CA (t : Topology) :
  (exists a, a ∈ atoms t /\ a_name a <> "CA") \/ atoms t = [] ->
  unique_atom_types t <> {["CA"]}.
Proof.
  unfold unique_atom_types. intros [(a & Ha & Hn)|He] Heq.
  - assert (Hin : a_name a ∈ (list_to_set (a_name <$> atoms t) : gset string)).
    { apply elem_of_list_to_set, list_elem_of_fmap. exists a. split; [reflexivity|exact Ha]. }
    rewrite Heq in Hin. apply elem_of_singleton in Hin. contradiction.
  - rewrite He in Heq. cbn in Heq.
    assert (Hin : "CA" ∈ (∅ : gset string)) by (rewrite Heq; apply elem_of_singleton; reflexivity).
    apply elem_of_empty in Hin. exact Hin.
Qed.

End RepairMore.

Import RepairProofs RepairMore.

Section RepairMoreProperties.
Context {ext : Collaborators}.

(** X21. Whatever the retained particles are, the topology that
    [get_prior_nls] works with has the chains of the sliced topology and
    all of its bonds, in front and in their order; the repair only adds.
    Every bond it adds joins a particle to the next particle of the same
    chain, lower index first, so no added bond crosses chains.  When some
    particle is not called CA, or when there is no particle, nothing is
    added at all. *)
Theorem X21_bond_repair_only_adds (traj : Trajectory) (idx : list nat) :
  let t := atom_slice_topology traj idx in
  let t' := prior_topology traj idx in
  chains t' = chains t
  /\ (exists added,
        bonds t' = bonds t ++ added
        /\ forall b, b ∈ added ->
             (fst b <= snd b)%nat
             /\ exists ch i a1 a2,
                  ch ∈ chains t /\ ch !! i = Some a1 /\ ch !! S i = Some a2
                  /\ b = bond_of (a1, a2))
  /\ ((exists a, a ∈ atoms t /\ a_name a <> "CA") \/ atoms t = [] -> t' = t).
Proof.
  intros t t'. unfold t', prior_topology, repair_ca_bonds. fold t.
  destruct (decide (unique_atom_types t = {["CA"]})) as [Hca|Hnot].
  - rewrite bool_decide_eq_true_2 by exact Hca.
    destruct (fold_bond_chain (chains t) t) as [Hc Hb].
    split; [exact Hc|]. split.
    + eexists. split; [exact Hb|].
      intros b Hin. rewrite list_elem_of_In in Hin.
      apply in_flat_map in Hin as (ch & Hch & Hin).
      apply in_map_iff in Hin as (p & <- & Hp).
      split; [apply bond_of_ordered|].
      rewrite <- list_elem_of_In in Hp. rewrite <- list_elem_of_In in Hch.
      apply consecutive_adjacent in Hp as (i & H1 & H2).
      exists ch, i, (fst p), (snd p).
      split; [exact Hch|]. split; [exact H1|]. split; [exact H2|].
      destruct p; reflexivity.
    + intros H. exfalso. exact (not_only_CA t H Hca).
  - rewrite bool_decide_eq_false_2 by exact Hnot.
    split; [reflexivity|]. split; [|reflexivity].
    exists []. split; [rewrite app_nil_r; reflexivity|].
    intros b H. inversion H.
Qed.

End RepairMoreProperties.

Lemma X21_bond_repair_witness :
  prior_topology (mkTraj 5 (five_beads "CB")) (seq 0 5) = five_beads "CB"
  /\ chains (prior_topology (mkTraj 10 two_chains_of_five) (seq 0 10))
     = chains two_chains_of_five.
Proof.
  destruct (X21_bond_repair_only_adds (ext := demo_ext)
              (mkTraj 5 (five_beads "CB")) (seq 0 5)) as (_ & _ & H).
  destruct (X21_bond_repair_only_adds (ext := demo_ext)
              (mkTraj 10 two_chains_of_five) (seq 0 10)) as (Hc & _).
  split; [|exact Hc].
  apply H. left. exists (mkAtom 0 "CB"). split; [left|discriminate].
Defined.

(** ** [RawDataset] and [SimInput] *)

Module DatasetFacts.
Import Sample SampleProofs BatchItems Datasets.

Lemma py_index_from_end {A} (a : list A) (i : nat) (x : A) :
  a !! i = Some x ->
  py_index a (Z.of_nat i - Z.of_nat (length a)) = Ok x.
Proof.
  intros H. pose proof (lookup_lt_Some _ _ _ H) as Hlt. unfold py_index.
  destruct (Z.ltb_spec (Z.of_nat i - Z.of_nat (length a)) 0); [|lia].
  replace (Z.of_nat i - Z.of_nat (length a) + Z.of_nat (length a)) with (Z.of_nat i)
    by lia.
  destruct (Z.leb_spec 0 (Z.of_nat i)); [|lia].
  destruct (Z.ltb_spec (Z.of_nat i) (Z.of_nat (length a))); [|lia].
  cbn [andb]. rewrite Nat2Z.id, H. reflexivity.
Qed.

Lemma n_chars_cons c e :
  n_chars (c :: e) = if is_continuation c then n_chars e else S (n_chars e).
Proof.
  unfold n_chars. rewrite filter_cons.
  destruct (is_continuation c); case_decide; try congruence; reflexivity.
Qed.

(** Bytes that end with the first byte of a character hold a character. *)
Lemma n_chars_pos e :
  e <> [] -> (forall c, last e = Some c -> is_continuation c = false) ->
  (0 < n_chars e)%nat.
Proof.
  induction e as [|c e IH]; [contradiction|]. intros _ Hlast.
  rewrite n_chars_cons. destruct e as [|c' e'].
  - rewrite (Hlast c eq_refl). lia.
  - assert (0 < n_chars (c' :: e'))%nat by (apply IH; [discriminate|exact Hlast]).
    destruct (is_continuation c); lia.
Qed.

(** Going backwards over exactly [k] characters removes them. *)
Lemma drop_chars_backwards_exact e rest k :
  n_chars e = k ->
  (forall c, last e = Some c -> is_continuation c = false) ->
  drop_chars_backwards (e ++ rest) k = rest.
Proof.
  revert k. induction e as [|c e IH]; intros k Hn Hlast.
  - cbn in Hn. subst k. destruct rest; reflexivity.
  - rewrite n_chars_cons in Hn. cbn [app].
    destruct (is_continuation c) eqn:E.
    + destruct e as [|c' e']; [rewrite (Hlast c eq_refl) in E; discriminate|].
      pose proof (n_chars_pos (c' :: e') ltac:(discriminate) Hlast) as Hpos.
      destruct k as [|k']; [lia|].
      cbn [drop_chars_backwards]. rewrite E. apply IH; [exact Hn|exact Hlast].
    + destruct k as [|k']; [discriminate|]. injection Hn as Hn.
      cbn [drop_chars_backwards]. rewrite E. apply IH; [exact Hn|].
      destruct e as [|c' e']; [intros x Hx; discriminate|exact Hlast].
Qed.

(** Going backwards over more characters than there are removes all. *)
Lemma drop_chars_backwards_all e k :
  (n_chars e <= k)%nat ->
  (forall c, last e = Some c -> is_continuation c = false) ->
  drop_chars_backwards e k = [].
Proof.
  revert k. induction e as [|c e IH]; intros k Hn Hlast.
  - destruct k; reflexivity.
  - pose proof (n_chars_pos (c :: e) ltac:(discriminate) Hlast) as Hpos.
    destruct k as [|k']; [lia|].
    rewrite n_chars_cons in Hn. cbn [drop_chars_backwards].
    destruct (is_continuation c) eqn:E.
    + destruct e as [|c' e']; [rewrite (Hlast c eq_refl) in E; discriminate|].
      apply IH; [exact Hn|exact Hlast].
    + apply IH; [lia|].
      destruct e as [|c' e']; [intros x Hx; discriminate|exact Hlast].
Qed.

Lemma n_chars_reverse e : n_chars (reverse e) = n_chars e.
Proof. unfold n_chars. rewrite reverse_Permutation. reflexivity. Qed.

Lemma list_ascii_of_string_app (s1 s2 : string) :
  String.list_ascii_of_string (s1 +:+ s2)
  = String.list_ascii_of_string s1 ++ String.list_ascii_of_string s2.
Proof.
  induction s1 as [|c s1 IH]; [reflexivity|].
  change (c :: String.list_ascii_of_string (s1 +:+ s2)
          = c :: String.list_ascii_of_string s1 ++ String.list_ascii_of_string s2).
  rewrite IH. reflexivity.
Qed.

Lemma whole_chars_last (s : string) :
  whole_chars s = true ->
  forall c, last (reverse (String.list_ascii_of_string s)) = Some c ->
            is_continuation c = false.
Proof.
  intros H c Hc. rewrite last_reverse in Hc.
  destruct s as [|c' s']; [discriminate|].
  cbn in Hc. injection Hc as <-. cbn in H.
  destruct (is_continuation c'); [discriminate|reflexivity].
Qed.

(** [fn[:-4]] of a name that ends in four characters, and of a short
    name. *)
Lemma drop_last_4_app (base ending : string) :
  str_len ending = 4%nat -> whole_chars ending = true ->
  drop_last_4 (base +:+ ending) = base.
Proof.
  intros Hl Hw. unfold drop_last_4.
  rewrite list_ascii_of_string_app, reverse_app.
  rewrite (drop_chars_backwards_exact _ _ 4).
  - rewrite reverse_involutive. apply String.string_of_list_ascii_of_string.
  - rewrite n_chars_reverse. exact Hl.
  - apply whole_chars_last, Hw.
Qed.

Lemma drop_last_4_short (fn : string) :
  (str_len fn <= 4)%nat -> whole_chars fn = true -> drop_last_4 fn = "".
Proof.
  intros Hl Hw. unfold drop_last_4.
  rewrite drop_chars_backwards_all; [reflexivity| |].
  - rewrite n_chars_reverse. exact Hl.
  - apply whole_chars_last, Hw.
Qed.

Section WithCollaborators.
Context {ext : Collaborators}.

(** A sample as [__init__] leaves it cannot be mapped: the table is
    missing, and the dictionary has been looked up already. *)
Lemma apply_cg_mapping_new (name tag : string) cg_atoms ef nm d skip :
  embedding_maps nm = Some d ->
  apply_cg_mapping cg_atoms ef (inl nm) skip (new name tag)
  = (Raise AttributeError, set_embedding_dict d (new name tag), []).
Proof.
  intros Hd. unfold apply_cg_mapping. rewrite Hd.
  rewrite (bind_ok _ _ _ tt (set_embedding_dict d (new name tag)) []) by reflexivity.
  cbn [app].
  rewrite (bind_raise _ _ _ AttributeError (set_embedding_dict d (new name tag)) []);
    reflexivity.
Qed.

End WithCollaborators.
End DatasetFacts.

Import Datasets DatasetFacts.

Section DatasetProperties.
Context {ext : Collaborators}.

(** X22. A [RawDataset] has one sample per name, in the order of the
    names: item i is a new [SampleCollection] with the i-th name and the
    tag of the dataset, a negative index counts from the end, and an index
    outside the dataset is an [IndexError].  The samples hold nothing but
    name and tag: until a table and a trajectory are assigned from outside,
    [apply_cg_mapping] on an item raises an [AttributeError], having stored
    the embedding dictionary and nothing else. *)
Theorem X22_raw_dataset_items (dataset_name : string) (names : list string)
    (tag : string) :
  let ds := RawDataset_init dataset_name names tag in
  RawDataset_len ds = length names
  /\ (forall (i : nat) name, names !! i = Some name ->
        RawDataset_getitem ds (Z.of_nat i) = Ok (new name tag)
        /\ RawDataset_getitem ds (Z.of_nat i - Z.of_nat (length names))
           = Ok (new name tag))
  /\ (forall idx,
        Z.of_nat (length names) <= idx \/ idx < - Z.of_nat (length names) ->
        RawDataset_getitem ds idx = Raise IndexError)
  /\ (forall idx s cg_atoms ef nm d skip,
        RawDataset_getitem ds idx = Ok s ->
        embedding_maps nm = Some d ->
        apply_cg_mapping cg_atoms ef (inl nm) skip s
        = (Raise AttributeError, set_embedding_dict d s, [])).
Proof.
  intros ds.
  assert (Hlen : length (rd_dataset ds) = length names)
    by (unfold ds, RawDataset_init; cbn [rd_dataset]; apply length_map).
  assert (Hget : forall i name, names !! i = Some name ->
                   rd_dataset ds !! i = Some (new name tag)).
  { intros i name H. unfold ds, RawDataset_init. cbn [rd_dataset].
    change (map (fun name => new name tag) names)
      with ((fun name => new name tag) <$> names).
    rewrite list_lookup_fmap, H. reflexivity. }
  split; [exact Hlen|]. split; [|split].
  - intros i name H. unfold RawDataset_getitem. split.
    + apply py_index_ok, Hget, H.
    + rewrite <- Hlen. apply py_index_from_end, Hget, H.
  - intros idx H. unfold RawDataset_getitem.
    apply py_index_out_of_range. rewrite Hlen. exact H.
  - intros idx s cg_atoms ef nm d skip Hs Hd.
    assert (Hin : exists name, s = new name tag).
    { unfold RawDataset_getitem, py_index in Hs.
      destruct (_ && _); [|discriminate].
      destruct (rd_dataset ds !! _) as [x|] eqn:E; [|discriminate].
      injection Hs as <-. unfold ds, RawDataset_init in E. cbn [rd_dataset] in E.
      change (map (fun name => new name tag) names)
        with ((fun name => new name tag) <$> names) in E.
      rewrite list_lookup_fmap in E.
      destruct (names !! _) as [name|]; [|discriminate].
      injection E as <-. exists name. reflexivity. }
    destruct Hin as [name ->]. apply apply_cg_mapping_new, Hd.
Qed.

(** X23. A [SimInput] has one sample per file name, and the name of a
    sample is the file name without its last four characters, whatever
    these are: the ending is not compared with [.pdb], and a directory in
    front stays part of the name.  A file name of at most four characters
    gives a sample with the empty name.  Every sample carries the tag.
    (File names are kept as their UTF-8 encoding; characters are counted,
    not bytes.) *)
Theorem X23_sim_input_names (dataset_name tag : string) (pdb_fns : list string) :
  let ds := SimInput_init dataset_name tag pdb_fns in
  SimInput_len ds = length pdb_fns
  /\ length (si_names ds) = length pdb_fns
  /\ (forall (i : nat) base ending,
        pdb_fns !! i = Some (base +:+ ending) ->
        str_len ending = 4%nat -> whole_chars ending = true ->
        si_names ds !! i = Some base
        /\ SimInput_getitem ds (Z.of_nat i) = Ok (new base tag))
  /\ (forall (i : nat) fn,
        pdb_fns !! i = Some fn ->
        (str_len fn <= 4)%nat -> whole_chars fn = true ->
        SimInput_getitem ds (Z.of_nat i) = Ok (new "" tag)).
Proof.
  intros ds.
  assert (Hnames : forall i fn, pdb_fns !! i = Some fn ->
                     si_names ds !! i = Some (drop_last_4 fn)
                     /\ si_dataset ds !! i = Some (new (drop_last_4 fn) tag)).
  { intros i fn H. unfold ds, SimInput_init. cbn [si_names si_dataset].
    change (map drop_last_4 pdb_fns) with (drop_last_4 <$> pdb_fns).
    change (map (fun name => new name tag) (drop_last_4 <$> pdb_fns))
      with ((fun name => new name tag) <$> (drop_last_4 <$> pdb_fns)).
    rewrite !list_lookup_fmap, H. split; reflexivity. }
  split; [|split; [|split]].
  - unfold SimInput_len, ds, SimInput_init. cbn [si_dataset].
    rewrite !length_map. reflexivity.
  - unfold ds, SimInput_init. cbn [si_names]. apply length_map.
  - intros i base ending H Hl Hwc. destruct (Hnames i _ H) as [H1 H2].
    rewrite (drop_last_4_app base ending Hl Hwc) in H1, H2.
    split; [exact H1|]. unfold SimInput_getitem. apply py_index_ok, H2.
  - intros i fn H Hl Hwc. destruct (Hnames i _ H) as [_ H2].
    rewrite (drop_last_4_short fn Hl Hwc) in H2.
    unfold SimInput_getitem. apply py_index_ok, H2.
Qed.

End DatasetProperties.

Lemma X22_raw_dataset_witness :
  let ds := RawDataset_init (ext := demo_ext) "set" ["a"; "b"; "c"] "tag" in
  RawDataset_getitem ds 1 = Ok (new "b" "tag")
  /\ RawDataset_getitem ds (-1) = Ok (new "c" "tag")
  /\ RawDataset_getitem ds 3 = Raise IndexError
  /\ apply_cg_mapping ["CA"] "embedding" (inl "demo_dict") None (new "b" "tag")
     = (Raise AttributeError, set_embedding_dict demo_dict (new "b" "tag"), []).
Proof.
  intros ds.
  destruct (X22_raw_dataset_items (ext := demo_ext) "set" ["a"; "b"; "c"] "tag")
    as (_ & Hget & Hout & Hmap).
  destruct (Hget 1%nat "b" eq_refl) as [H1 _].
  destruct (Hget 2%nat "c" eq_refl) as [_ H2].
  split; [exact H1|]. split; [exact H2|]. split.
  - apply Hout. left. cbn. lia.
  - exact (Hmap 1 (new "b" "tag") ["CA"] "embedding" "demo_dict" demo_dict None
             H1 eq_refl).
Defined.

Lemma X23_sim_input_witness :
  let ds := SimInput_init (ext := demo_ext) "sim" "tag"
              ["pdbs/1ubq.pdb"; "x.gro"; "pdb"; "ab.pdé"] in
  SimInput_getitem ds 0 = Ok (new "pdbs/1ubq" "tag")
  /\ SimInput_getitem ds 1 = Ok (new "x" "tag")
  /\ SimInput_getitem ds 2 = Ok (new "" "tag")
  /\ SimInput_getitem ds 3 = Ok (new "ab" "tag").
Proof.
  intros ds.
  destruct (X23_sim_input_names (ext := demo_ext) "sim" "tag"
              ["pdbs/1ubq.pdb"; "x.gro"; "pdb"; "ab.pdé"]) as (_ & _ & Hn & Hs).
  destruct (Hn 0%nat "pdbs/1ubq" ".pdb" eq_refl eq_refl eq_refl) as [_ H0].
  destruct (Hn 1%nat "x" ".gro" eq_refl eq_refl eq_refl) as [_ H1].
  destruct (Hn 3%nat "ab" ".pdé" eq_refl eq_refl eq_refl) as [_ H3].
  split; [exact H0|]. split; [exact H1|]. split; [|exact H3].
  apply (Hs 2%nat "pdb" eq_refl); [vm_compute; lia|reflexivity].
Defined.
